(** * bcrypto: DSA, RSA wrappers, key objects and base64-url

    A shallow embedding of the JavaScript DSA backend ([lib/js/dsa.js]),
    the DSA key objects ([lib/internal/dsakey.js]), the RSA wrappers over
    the native binding ([lib/native/rsa.js]), the native DSA engine
    ([src/dsa/dsa.c]) and the base64 test vectors, followed by the
    properties established about them.

    Conventions.
    - A [Buffer] is a list of bytes; [BN_of] is [new BN(buf)], the
      big-endian reading of a buffer as a non-negative integer.
    - Big integers are [Z]; the vendored bn.js library is not part of the
      sources, so its operations are the arithmetic ones they implement.
    - A JavaScript function that may throw returns a [Result].
    - The random source is a byte stream [Rand] read through a cursor;
      loops whose exit depends on the random source take fuel and
      return [None] when it runs out. *)

From Stdlib Require Import ZArith Znumtheory Zpow_facts Zcong Lia.
From Stdlib Require Import List Lists.Finite Bool String Ascii Permutation.
From Stdlib Require Import Strings.Byte.
From Stdlib Require Import Zmod.ZmodInv.
From Bignums Require Import BigN.
Import ListNotations.
Local Open Scope Z_scope.

(* ================================================================== *)
(** * Part I. The embedding                                            *)
(* ================================================================== *)

(** ** Errors and results *)

(** The exceptions the modelled code can raise. *)
Inductive Error : Type :=
| AssertionError          (* a failed [assert(...)] *)
| RangeError              (* '`bits` must range between 1024 and 3072.' *)
| InvalidParameterSizes   (* 'Invalid parameter sizes.' *)
| InvalidKey              (* 'Invalid key.' *)
| CouldNotSign            (* 'Could not sign.' *)
| DecodeError.            (* a codec rejected its input *)

Inductive Result (A : Type) : Type :=
| Ok (a : A)
| Throw (e : Error).
Arguments Ok {A} a.
Arguments Throw {A} e.

Definition bind {A B} (m : Result A) (k : A -> Result B) : Result B :=
  match m with
  | Ok a => k a
  | Throw e => Throw e
  end.

Notation "x <- m ;; k" := (bind m (fun x => k))
  (at level 61, m at next level, right associativity).

Definition assert (b : bool) : Result unit :=
  if b then Ok tt else Throw AssertionError.

Definition is_ok {A} (m : Result A) : bool :=
  match m with Ok _ => true | Throw _ => false end.

(** ** Bytes and buffers *)

Definition Buffer : Type := list byte.

(** The value of a byte, in [0, 255]. *)
Definition u8 (b : byte) : Z := Z.of_N (Byte.to_N b).

(** The byte holding [z mod 256]. *)
Definition mk_u8 (z : Z) : byte :=
  match Byte.of_N (Z.to_N (z mod 256)) with
  | Some b => b
  | None => x00
  end.

(** [buf[i] |= m] *)
Definition or_at (i : nat) (m : Z) (buf : Buffer) : Buffer :=
  match nth_error buf i with
  | Some b => firstn i buf ++ mk_u8 (Z.lor (u8 b) m) :: skipn (S i) buf
  | None => buf
  end.

(** [Buffer.alloc(n)]: [n] zero bytes. *)
Definition alloc (n : nat) : Buffer := repeat x00 n.

(** ** Big integers (bn.js) *)

(** [new BN(buf)]: the big-endian value of a buffer. *)
Definition BN_of (buf : Buffer) : Z :=
  fold_left (fun acc b => acc * 256 + u8 b) buf 0.

(** [n.bitLength()] *)
Definition bitLength (n : Z) : Z :=
  if n <=? 0 then 0 else Z.log2 n + 1.

(** [n.byteLength()], i.e. [Math.ceil(n.bitLength() / 8)]. *)
Definition byteLength (n : Z) : Z := (bitLength n + 7) / 8.

(** The [len] low-order bytes of [n], most significant first. *)
Fixpoint be_bytes (len : nat) (n : Z) : Buffer :=
  match len with
  | O => []
  | S l => be_bytes l (n / 256) ++ [mk_u8 n]
  end.

(** Modelled from the spec: [toBuffer(n)], i.e. bn.js
    [n.toArrayLike(Buffer, 'be')] (vendor/bn.js is not among the
    sources): the big-endian bytes of [n] with no leading zero byte,
    the empty buffer for zero (spec section 3). *)
Definition toBuffer (n : Z) : Buffer :=
  be_bytes (Z.to_nat (byteLength n)) n.

(** Modelled from the spec: the reduction context [BN.mont(m)] of
    vendor/bn.js, which is not among the sources.  It refuses a
    modulus that is not greater than one (its assertion 'modulus must
    be greater than 1'); for an odd modulus, exponentiation in
    Montgomery form is modular exponentiation (spec section 4.1:
    "modPow uses Montgomery reduction when m is odd"); for an even
    modulus, where Montgomery reduction is not defined, nothing is
    assumed of the value it yields: that value is a parameter,
    [mont_even]. *)
Class Montgomery : Type := {
  mont_even : Z -> Z -> Z -> Z
}.

(** [x.toRed(BN.mont(m)).redPow(y).fromRed()] for a modulus [m] that
    [BN.mont] accepts. *)
Definition redPow {M : Montgomery} (x y m : Z) : Z :=
  if Z.odd m then Zpow_mod x y m else mont_even x y m.

(** [modPow(x, y, m) = x.toRed(BN.mont(m)).redPow(y).fromRed()] *)
Definition modPow {M : Montgomery} (x y m : Z) : Result Z :=
  if m <=? 1 then Throw AssertionError
  else Ok (redPow x y m).

(** [fermatInverse(k, p) = modPow(k, p.subn(2), p)] *)
Definition fermatInverse {M : Montgomery} (k p : Z) : Result Z :=
  modPow k (p - 2) p.

(** [s.invm(q)]: the inverse of [s] modulo [q] by the extended Euclidean
    algorithm.  The value is the inverse whenever [s] and [q] are
    coprime, which is the only case the properties below depend on. *)
Definition invm (s q : Z) : Z := Z.invmod s q.

(** ** lib/encoding/util *)

(** Modelled from the spec: [trimLeft] of lib/encoding/util.js (absent
    from the sources): "leading zeros stripped; empty buffer is
    canonical zero" (spec section 4.6). *)
Fixpoint trimLeft (buf : Buffer) : Buffer :=
  match buf with
  | [] => []
  | b :: rest => if Byte.eqb b x00 then trimLeft rest else buf
  end.

(** [while (oct) { bits += 1; oct >>= 1; }] on an octet held in a
    32-bit variable. *)
Fixpoint octet_loop (fuel : nat) (oct bits : Z) : Z :=
  match fuel with
  | O => bits
  | S fuel' =>
      if oct =? 0 then bits
      else octet_loop fuel' (Z.shiftr oct 1) (bits + 1)
  end.

(** [bcrypto_count_bits] of src/dsa/dsa.c: skip the leading zero bytes,
    count eight bits for every byte after the first non-zero one, and
    the significant bits of that one. *)
Definition bcrypto_count_bits (buf : Buffer) : Z :=
  match trimLeft buf with
  | [] => 0
  | b :: rest =>
      let bits := Z.of_nat (List.length (b :: rest)) * 8 in
      octet_loop 32 (u8 b) (bits - 8)
  end.

(** Modelled from the spec: [countLeft] of lib/encoding/util.js (absent
    from the sources): the bit length of the integer a buffer holds,
    as its native sibling [bcrypto_count_bits] computes it. *)
Definition countLeft (buf : Buffer) : Z := bcrypto_count_bits buf.

(** Modelled from the spec: [leftPad(val, size)] of lib/encoding/util.js
    (absent from the sources): "left-padded with zero bytes" to exactly
    [size] bytes (spec section 3); a value longer than [size] after
    trimming is refused. *)
Definition leftPad (val : Buffer) (size : nat) : Result Buffer :=
  let val := if (size <? List.length val)%nat then trimLeft val else val in
  _ <- assert (List.length val <=? size)%nat ;;
  Ok (alloc (size - List.length val) ++ val).

(** A buffer is canonical when it has no leading zero byte. *)
Definition canonical (buf : Buffer) : Prop := trimLeft buf = buf.

(** ** The random source *)

(** The bytes [random.randomFill] delivers, in the order they are
    consumed; a cursor counts the bytes consumed so far. *)
Definition Rand : Type := nat -> byte.

(** [random.randomFill(buf, 0, n)]: the next [n] bytes. *)
Definition randomFill (rnd : Rand) (pos n : nat) : Buffer * nat :=
  (map rnd (seq pos n), (pos + n)%nat).

(** ** lib/encoding/base64 (URL-safe variant) *)

Module base64.

(** Modelled from the spec: the URL-safe codec of lib/encoding/base64.js
    (absent from the sources; its test suite is among them): "Table =
    A-Z a-z 0-9 - _.  No padding on encode ... Reject any character
    outside the table and any internal whitespace" (spec section 6).
    The repository's test vectors ([urlVectors], [urlInvalid]) fix what
    the decoder does with '=' padding: '=' is outside the table, and a
    padded string is refused like any other string with a foreign
    character. *)
Definition table : list ascii :=
  list_ascii_of_string
    "ABCDEFGHIJKLMNOPQRSTUVWXYZabcdefghijklmnopqrstuvwxyz0123456789-_".

Definition char_of_sextet (v : Z) : ascii :=
  nth (Z.to_nat v) table "A"%char.

Fixpoint index_of (c : ascii) (l : list ascii) (i : Z) : option Z :=
  match l with
  | [] => None
  | a :: rest => if Ascii.eqb a c then Some i else index_of c rest (i + 1)
  end.

Definition sextet_of_char (c : ascii) : option Z := index_of c table 0.

(** Three bytes give four sextets; a tail of one or two bytes gives two
    or three. *)
Fixpoint sextets_of_bytes (buf : Buffer) : list Z :=
  match buf with
  | b0 :: b1 :: b2 :: rest =>
      let n := u8 b0 * 65536 + u8 b1 * 256 + u8 b2 in
      n / 262144 :: (n / 4096) mod 64 :: (n / 64) mod 64 :: n mod 64
        :: sextets_of_bytes rest
  | [b0; b1] =>
      let n := u8 b0 * 65536 + u8 b1 * 256 in
      [n / 262144; (n / 4096) mod 64; (n / 64) mod 64]
  | [b0] =>
      let n := u8 b0 * 65536 in
      [n / 262144; (n / 4096) mod 64]
  | [] => []
  end.

Fixpoint bytes_of_sextets (l : list Z) : Result Buffer :=
  match l with
  | s0 :: s1 :: s2 :: s3 :: rest =>
      let n := ((s0 * 64 + s1) * 64 + s2) * 64 + s3 in
      tail <- bytes_of_sextets rest ;;
      Ok (mk_u8 (n / 65536) :: mk_u8 (n / 256) :: mk_u8 n :: tail)
  | [s0; s1; s2] =>
      let n := (s0 * 64 + s1) * 64 + s2 in
      Ok [mk_u8 (n / 1024); mk_u8 (n / 4)]
  | [s0; s1] =>
      let n := s0 * 64 + s1 in
      Ok [mk_u8 (n / 16)]
  | [_] => Throw DecodeError
  | [] => Ok []
  end.

(** Every character must belong to the table. *)
Fixpoint sextets_of_chars (l : list ascii) : Result (list Z) :=
  match l with
  | [] => Ok []
  | c :: rest =>
      match sextet_of_char c with
      | None => Throw DecodeError
      | Some v => tail <- sextets_of_chars rest ;; Ok (v :: tail)
      end
  end.

Definition encodeURL (data : Buffer) : string :=
  string_of_list_ascii (map char_of_sextet (sextets_of_bytes data)).

Definition decodeURL (str : string) : Result Buffer :=
  sx <- sextets_of_chars (list_ascii_of_string str) ;;
  bytes_of_sextets sx.

Definition testURL (str : string) : bool := is_ok (decodeURL str).

(** [str] followed by [n] padding characters '='. *)
Definition padded (str : string) (n : nat) : string :=
  (str ++ string_of_list_ascii (repeat "="%char n))%string.

(** The vectors of the test suite: [urlVectors] as (bytes, text) and
    [urlInvalid]. *)
Definition urlVectors : list (Buffer * string) :=
  [ ([], ""%string);
    ([x66], "Zg"%string);
    ([x66; x6f], "Zm8"%string);
    ([x66; x6f; x6f], "Zm9v"%string);
    ([x66; x6f; x6f; x62], "Zm9vYg"%string);
    ([x66; x6f; x6f; x62; x61], "Zm9vYmE"%string);
    ([x66; x6f; x6f; x62; x61; x72], "Zm9vYmFy"%string);
    ([x53; xe9; x36; x3b; x29; x62; xfc; xaf], "U-k2Oyli_K8"%string) ].

Definition urlInvalid : list string :=
  [ "Zg=="%string; "Zm8="%string; "Zm9vYg=="%string; "Zm9vYmE="%string;
    "U+k2Oyli/K8="%string ].

End base64.

(** ** lib/internal/dsakey.js *)

Module dsakey.

Record DSAParams : Type := mkDSAParams {
  p : Buffer;
  q : Buffer;
  g : Buffer
}.

(** [class DSAKey extends DSAParams]; [DSAPublicKey] adds no field. *)
Record DSAKey : Type := mkDSAKey {
  params : DSAParams;
  y : Buffer
}.

Definition DSAPublicKey : Type := DSAKey.

(** [class DSAPrivateKey extends DSAKey] *)
Record DSAPrivateKey : Type := mkDSAPrivateKey {
  pub : DSAKey;
  x : Buffer
}.

(** The JSON form of a key: the base64-url string of each field;
    [json_y] may be absent ([json.y == null]). *)
Record JSON : Type := mkJSON {
  kty : string;
  json_p : string;
  json_q : string;
  json_g : string;
  json_y : option string;
  json_x : string
}.

(** [new DSAParams(p, q, g)] *)
Definition new_DSAParams (p q g : Buffer) : DSAParams :=
  {| p := trimLeft p; q := trimLeft q; g := trimLeft g |}.

Definition setP (this : DSAParams) (v : Buffer) : DSAParams :=
  {| p := trimLeft v; q := q this; g := g this |}.

Definition setQ (this : DSAParams) (v : Buffer) : DSAParams :=
  {| p := p this; q := trimLeft v; g := g this |}.

Definition setG (this : DSAParams) (v : Buffer) : DSAParams :=
  {| p := p this; q := q this; g := trimLeft v |}.

(** [new DSAKey(p, q, g, y)], also [new DSAPublicKey(p, q, g, y)] *)
Definition new_DSAKey (p q g y : Buffer) : DSAKey :=
  {| params := new_DSAParams p q g; y := trimLeft y |}.

Definition setY (this : DSAKey) (v : Buffer) : DSAKey :=
  {| params := params this; y := trimLeft v |}.

(** [fromParams(params)], which [setParams] calls. *)
Definition fromParams (this : DSAKey) (ps : DSAParams) : DSAKey :=
  {| params := {| p := p ps; q := q ps; g := g ps |}; y := y this |}.

Definition setParams (this : DSAKey) (ps : DSAParams) : DSAKey :=
  fromParams this ps.

(** [new DSAPrivateKey(p, q, g, y, x)] *)
Definition new_DSAPrivateKey (p q g y x : Buffer) : DSAPrivateKey :=
  {| pub := new_DSAKey p q g y; x := trimLeft x |}.

Definition setX (this : DSAPrivateKey) (v : Buffer) : DSAPrivateKey :=
  {| pub := pub this; x := trimLeft v |}.

(** [DSAPrivateKey.prototype.toPublic]: a fresh public key sharing the
    four public fields. *)
Definition toPublic (this : DSAPrivateKey) : DSAPublicKey :=
  {| params := {| p := p (params (pub this));
                  q := q (params (pub this));
                  g := g (params (pub this)) |};
     y := y (pub this) |}.

(** [L()], [N()], [bits()] and [size()] of [DSAParams]. *)
Definition L (this : DSAParams) : Z := countLeft (p this).

Definition bits (this : DSAParams) : Z := L this.

Definition size (this : DSAParams) : Z :=
  Z.shiftr (countLeft (q this) + 7) 3.

Definition N (this : DSAParams) : Z := countLeft (q this).

(** [DSAParams.prototype.fromJSON] *)
Definition DSAParams_fromJSON (this : DSAParams) (json : JSON)
  : Result DSAParams :=
  _ <- assert (String.eqb (kty json) "DSA") ;;
  vp <- base64.decodeURL (json_p json) ;;
  vq <- base64.decodeURL (json_q json) ;;
  vg <- base64.decodeURL (json_g json) ;;
  Ok {| p := vp; q := vq; g := vg |}.

(** [base64.decodeURL(json.y)] where [json.y] may be missing: the
    decoder asserts that it is given a string. *)
Definition decodeURL_field (v : option string) : Result Buffer :=
  match v with
  | Some str => base64.decodeURL str
  | None => Throw AssertionError
  end.

(** [DSAKey.prototype.fromJSON] *)
Definition DSAKey_fromJSON (this : DSAKey) (json : JSON) : Result DSAKey :=
  _ <- assert (String.eqb (kty json) "DSA") ;;
  vp <- base64.decodeURL (json_p json) ;;
  vq <- base64.decodeURL (json_q json) ;;
  vg <- base64.decodeURL (json_g json) ;;
  vy <- decodeURL_field (json_y json) ;;
  Ok {| params := {| p := vp; q := vq; g := vg |}; y := vy |}.

(** [DSAPrivateKey.prototype.fromJSON]: [y] is read only when present. *)
Definition DSAPrivateKey_fromJSON (this : DSAPrivateKey) (json : JSON)
  : Result DSAPrivateKey :=
  _ <- assert (String.eqb (kty json) "DSA") ;;
  vp <- base64.decodeURL (json_p json) ;;
  vq <- base64.decodeURL (json_q json) ;;
  vg <- base64.decodeURL (json_g json) ;;
  vy <- match json_y json with
        | Some str => base64.decodeURL str
        | None => Ok (y (pub this))
        end ;;
  vx <- base64.decodeURL (json_x json) ;;
  Ok {| pub := {| params := {| p := vp; q := vq; g := vg |}; y := vy |};
        x := vx |}.

(** [static fromJSON(json) { return new this().fromJSON(json); }] *)
Definition fromJSON_params (json : JSON) : Result DSAParams :=
  DSAParams_fromJSON (new_DSAParams [] [] []) json.

Definition fromJSON_key (json : JSON) : Result DSAKey :=
  DSAKey_fromJSON (new_DSAKey [] [] [] []) json.

Definition fromJSON_private (json : JSON) : Result DSAPrivateKey :=
  DSAPrivateKey_fromJSON (new_DSAPrivateKey [] [] [] [] []) json.

(** Every field a key object holds is canonical. *)
Definition params_canonical (k : DSAParams) : Prop :=
  canonical (p k) /\ canonical (q k) /\ canonical (g k).

Definition key_canonical (k : DSAKey) : Prop :=
  params_canonical (params k) /\ canonical (y k).

Definition private_canonical (k : DSAPrivateKey) : Prop :=
  key_canonical (pub k) /\ canonical (x k).

(** [DSAKey.prototype.toParams] *)
Definition toParams (this : DSAKey) : DSAParams :=
  new_DSAParams (p (params this)) (q (params this)) (g (params this)).

(** An object as [toJSON] builds it: the fields a reader looks at, and
    the flag [ext]. *)
Record JSONObject : Type := mkJSONObject {
  json_fields : JSON;
  ext : bool
}.

(** [DSAPrivateKey.prototype.toJSON] *)
Definition DSAPrivateKey_toJSON (this : DSAPrivateKey) : JSONObject :=
  {| json_fields :=
       {| kty := "DSA";
          json_p := base64.encodeURL (p (params (pub this)));
          json_q := base64.encodeURL (q (params (pub this)));
          json_g := base64.encodeURL (g (params (pub this)));
          json_y := Some (base64.encodeURL (y (pub this)));
          json_x := base64.encodeURL (x this) |};
     ext := true |}.

End dsakey.

(** The inheritance chain [DSAParams <- DSAKey <- DSAPrivateKey]. *)
Coercion dsakey.params : dsakey.DSAKey >-> dsakey.DSAParams.
Coercion dsakey.pub : dsakey.DSAPrivateKey >-> dsakey.DSAKey.

(** ** lib/internal/dsasig.js *)

Module dsasig.

(** Modelled from the spec: the [DSASignature] container of
    lib/internal/dsasig.js (absent from the sources): "DSASignature =
    (r, s). Each exactly ceil(N/8) bytes, left-padded with zero bytes"
    (spec section 3).  It is built for a byte size, and [setR] and
    [setS] left-pad what they are given to that size. *)
Record DSASignature : Type := mkDSASignature {
  size : nat;
  r : Buffer;
  s : Buffer
}.

Definition new_DSASignature (size : Z) : DSASignature :=
  {| size := Z.to_nat size;
     r := alloc (Z.to_nat size);
     s := alloc (Z.to_nat size) |}.

Definition setR (this : DSASignature) (v : Buffer) : Result DSASignature :=
  padded <- leftPad v (size this) ;;
  Ok {| size := size this; r := padded; s := s this |}.

Definition setS (this : DSASignature) (v : Buffer) : Result DSASignature :=
  padded <- leftPad v (size this) ;;
  Ok {| size := size this; r := r this; s := padded |}.

End dsasig.

(** ** lib/js/dsa.js *)

Module dsa.

(** One pass of the signing loop: the [k] drawn, the [r] computed from
    it, and [s] when the pass got as far as computing it. *)
Definition Attempt : Type := (Z * Z * option Z)%type.

(** A pass fails when [r] or [s] is zero. *)
Definition attempt_failed (a : Attempt) : bool :=
  match a with
  | (_, r, None) => r =? 0
  | (_, _, Some s) => s =? 0
  end.

Definition attempt_k (a : Attempt) : Z := fst (fst a).

(** The variables live after the signing loop, with the passes made,
    the cursor of the random source, and the exception that ended the
    loop when one did. *)
Record LoopState : Type := mkLoopState {
  attempts : nat;
  loop_r : Z;
  loop_s : Z;
  passes : list Attempt;
  cursor : nat;
  raised : option Error
}.

(** The state with one more pass in front of those it records. *)
Definition after_pass (a : Attempt) (st : LoopState) : LoopState :=
  mkLoopState (attempts st) (loop_r st) (loop_s st) (a :: passes st)
    (cursor st) (raised st).

(** The rejection loop of [sign] and [privateKeyCreate]:
    [for (;;) { random.randomFill(buf, 0, n); k = new BN(buf);
                if (!k.isZero() && k.cmp(qn) < 0) break; }] *)
Fixpoint sample_k (fuel : nat) (rnd : Rand) (pos n : nat) (qn : Z)
  : option (Z * nat) :=
  match fuel with
  | O => None
  | S fuel' =>
      let '(buf, pos') := randomFill rnd pos n in
      let k := BN_of buf in
      if negb (k =? 0) && (k <? qn) then Some (k, pos')
      else sample_k fuel' rnd pos' n qn
  end.

(** [for (; attempts > 0; attempts--) { ... }] of [sign], entered with
    [attempts = budget]. *)
Fixpoint sign_loop {M : Montgomery} (budget fuel : nat) (rnd : Rand)
  (pos n : nat) (pn qn gn xn : Z) (msg : Buffer) (r s : Z)
  : option LoopState :=
  match budget with
  | O => Some (mkLoopState 0 r s [] pos None)
  | S budget' =>
      match sample_k fuel rnd pos n qn with
      | None => None
      | Some (k, pos1) =>
          match fermatInverse k qn with
          | Throw e => Some (mkLoopState (S budget') r s [] pos1 (Some e))
          | Ok ki =>
              match modPow gn k pn with
              | Throw e =>
                  Some (mkLoopState (S budget') r s [] pos1 (Some e))
              | Ok r =>
                  let r := r mod qn in
                  if r =? 0 then
                    (* continue *)
                    option_map (after_pass (k, r, None))
                      (sign_loop budget' fuel rnd pos1 n pn qn gn xn msg r s)
                  else
                    let z := BN_of msg in
                    let s := xn * r in
                    let s := s + z in
                    let s := s mod qn in
                    let s := s * ki in
                    let s := s mod qn in
                    if negb (s =? 0) then
                      (* break *)
                      Some (mkLoopState (S budget') r s [(k, r, Some s)]
                              pos1 None)
                    else
                      option_map (after_pass (k, r, Some s))
                        (sign_loop budget' fuel rnd pos1 n pn qn gn xn msg
                           r s)
              end
          end
      end
  end.

(** [sign(msg, key)], with the passes of its loop.  [None]: a rejection
    loop did not end within [fuel] draws. *)
Definition sign_run {M : Montgomery} (fuel : nat) (rnd : Rand) (pos : nat)
  (msg : Buffer) (key : dsakey.DSAPrivateKey)
  : option (Result dsasig.DSASignature * list Attempt * nat) :=
  let pn := BN_of (dsakey.p key) in
  let qn := BN_of (dsakey.q key) in
  let gn := BN_of (dsakey.g key) in
  let xn := BN_of (dsakey.x key) in
  let n := bitLength qn in
  if (qn <=? 0) || (pn <=? 0) || (gn <=? 0) || (xn <=? 0)
     || negb (Z.land n 7 =? 0)
  then Some (Throw InvalidKey, [], pos)
  else
    let n := Z.shiftr n 3 in
    match sign_loop 10 fuel rnd pos (Z.to_nat n) pn qn gn xn msg 0 0 with
    | None => None
    | Some st =>
        match raised st with
        | Some e => Some (Throw e, passes st, cursor st)
        | None =>
            if (attempts st =? 0)%nat then
              Some (Throw CouldNotSign, passes st, cursor st)
            else
              let sig := dsasig.new_DSASignature (dsakey.size key) in
              Some (sig <- dsasig.setR sig (toBuffer (loop_r st)) ;;
                    dsasig.setS sig (toBuffer (loop_s st)),
                    passes st, cursor st)
        end
    end.

Definition sign {M : Montgomery} (fuel : nat) (rnd : Rand) (pos : nat)
  (msg : Buffer) (key : dsakey.DSAPrivateKey)
  : option (Result dsasig.DSASignature) :=
  option_map (fun o => fst (fst o)) (sign_run fuel rnd pos msg key).

(** [verify(msg, sig, key)] *)
Definition verify {M : Montgomery} (msg : Buffer)
  (sig : dsasig.DSASignature) (key : dsakey.DSAKey) : Result bool :=
  let pn := BN_of (dsakey.p key) in
  let qn := BN_of (dsakey.q key) in
  let gn := BN_of (dsakey.g key) in
  let yn := BN_of (dsakey.y key) in
  let rn := BN_of (dsasig.r sig) in
  let sn := BN_of (dsasig.s sig) in
  if pn =? 0 then Ok false
  else if (rn =? 0) || (rn >=? qn) then Ok false
  else if (sn =? 0) || (sn >=? qn) then Ok false
  else
    let w := invm sn qn in
    let n := bitLength qn in
    if negb (Z.land n 7 =? 0) then Ok false
    else
      let z := BN_of msg in
      let u1 := z * w in
      let u1 := u1 mod qn in
      let w := rn * w in
      let u2 := w in
      let u2 := u2 mod qn in
      u1 <- modPow gn u1 pn ;;
      let v := u1 in
      u2 <- modPow yn u2 pn ;;
      let v := v * u2 in
      let v := v mod pn in
      let v := v mod qn in
      Ok (v =? rn).

(** [publicKeyCreate(key)] *)
Definition publicKeyCreate (key : dsakey.DSAPrivateKey)
  : dsakey.DSAPublicKey :=
  dsakey.toPublic key.

(** [computeY(key)] *)
Definition computeY {M : Montgomery} (key : dsakey.DSAPrivateKey)
  : Result Buffer :=
  let p := BN_of (dsakey.p key) in
  let g := BN_of (dsakey.g key) in
  let x := BN_of (dsakey.x key) in
  y <- modPow g x p ;;
  Ok (toBuffer y).

(** The opening check of [generate(L, N)]. *)
Definition generate_sizes (L N : Z) : Result unit :=
  if negb ((L =? 1024) && (N =? 160))
     && negb ((L =? 2048) && (N =? 224))
     && negb ((L =? 2048) && (N =? 256))
     && negb ((L =? 3072) && (N =? 256))
  then Throw InvalidParameterSizes
  else Ok tt.

(** [(x >>> 0) === x] for an integer [x]. *)
Definition is_uint32 (x : Z) : bool := (0 <=? x) && (x <? 2 ^ 32).

(** [privateKeyCreate(params)], with the cursor of the random source
    after it.  [None]: the rejection loop did not end within [fuel]
    draws. *)
Definition privateKeyCreate_run {M : Montgomery} (fuel : nat) (rnd : Rand)
  (pos : nat) (params : dsakey.DSAParams)
  : option (Result dsakey.DSAPrivateKey * nat) :=
  let qn := BN_of (dsakey.q params) in
  let xb := alloc (Z.to_nat (Z.shiftr (bitLength qn) 3)) in
  match sample_k fuel rnd pos (List.length xb) qn with
  | None => None
  | Some (xn, pos') =>
      let pn := BN_of (dsakey.p params) in
      let gn := BN_of (dsakey.g params) in
      match modPow gn xn pn with
      | Throw e => Some (Throw e, pos')
      | Ok yn =>
          let key := dsakey.new_DSAPrivateKey [] [] [] [] [] in
          let key := dsakey.mkDSAPrivateKey
                       (dsakey.setParams (dsakey.pub key) params)
                       (dsakey.x key) in
          let key := dsakey.mkDSAPrivateKey (dsakey.pub key) (toBuffer xn) in
          let key := dsakey.mkDSAPrivateKey
                       (dsakey.mkDSAKey (dsakey.params (dsakey.pub key))
                          (toBuffer yn))
                       (dsakey.x key) in
          Some (Ok key, pos')
      end
  end.

Definition privateKeyCreate {M : Montgomery} (fuel : nat) (rnd : Rand)
  (pos : nat) (params : dsakey.DSAParams)
  : option (Result dsakey.DSAPrivateKey) :=
  option_map fst (privateKeyCreate_run fuel rnd pos params).

Section Generation.

Context {M : Montgomery}.

(** [probablyPrime(n, reps)] of lib/internal/primes.js (absent from the
    sources), taken as given: a test that may draw from the random
    source and answers yes or no. *)
Variable probablyPrime : Rand -> nat -> Z -> Z -> bool * nat.

(** [for (let i = 0; i < 4 * L; i++) { ... }] of [generate], entered
    with [count] iterations left: the prime found, if any. *)
Fixpoint search_p (count : nat) (rnd : Rand) (pos : nat) (L qn : Z)
  : option Z * nat :=
  match count with
  | O => (None, pos)
  | S count' =>
      let '(pb, pos1) := randomFill rnd pos (Z.to_nat (Z.shiftr L 3)) in
      let pb := or_at (List.length pb - 1) 1 pb in
      let pb := or_at 0 128 pb in
      let pn := BN_of pb in
      let rem := pn mod qn in
      let rem := rem - 1 in
      let pn := pn - rem in
      if bitLength pn <? L then search_p count' rnd pos1 L qn
      else
        let '(prime, pos2) := probablyPrime rnd pos1 pn 64 in
        if negb prime then search_p count' rnd pos2 L qn
        else (Some pn, pos2)
  end.

(** The loop labelled [generate:]. *)
Fixpoint search_pq (fuel : nat) (rnd : Rand) (pos : nat) (L N : Z)
  : option (Z * Z * nat) :=
  match fuel with
  | O => None
  | S fuel' =>
      let '(qb, pos1) := randomFill rnd pos (Z.to_nat (Z.shiftr N 3)) in
      let qb := or_at (List.length qb - 1) 1 qb in
      let qb := or_at 0 128 qb in
      let qn := BN_of qb in
      let '(prime, pos2) := probablyPrime rnd pos1 qn 64 in
      if negb prime then search_pq fuel' rnd pos2 L N
      else
        match search_p (Z.to_nat (4 * L)) rnd pos2 L qn with
        | (Some pn, pos3) => Some (pn, qn, pos3)
        | (None, pos3) => search_pq fuel' rnd pos3 L N
        end
  end.

(** The closing loop of [generate]: the first [h], from the given one
    on, with [modPow(h, e, pn)] different from one. *)
Fixpoint search_g (fuel : nat) (h e pn : Z) : option (Result Z) :=
  match fuel with
  | O => None
  | S fuel' =>
      match modPow h e pn with
      | Throw err => Some (Throw err)
      | Ok gn =>
          if gn =? 1 then search_g fuel' (h + 1) e pn
          else Some (Ok gn)
      end
  end.

(** [generate(L, N)].  [None]: a search did not end within [fuel]
    rounds. *)
Definition generate (fuel : nat) (rnd : Rand) (pos : nat) (L N : Z)
  : option (Result dsakey.DSAParams) :=
  if negb (is_uint32 L) || negb (is_uint32 N) then
    Some (Throw AssertionError)
  else
    match generate_sizes L N with
    | Throw e => Some (Throw e)
    | Ok _ =>
        match search_pq fuel rnd pos L N with
        | None => None
        | Some (pn, qn, _) =>
            let h := 2 in
            let pm1 := pn - 1 in
            let e := pm1 / qn in
            match search_g fuel h e pn with
            | None => None
            | Some (Throw err) => Some (Throw err)
            | Some (Ok gn) =>
                Some (Ok {| dsakey.p := toBuffer pn;
                            dsakey.q := toBuffer qn;
                            dsakey.g := toBuffer gn |})
            end
        end
    end.

(** [paramsGenerate(bits)]; [None] for [bits] is a missing argument. *)
Definition paramsGenerate (fuel : nat) (rnd : Rand) (pos : nat)
  (bits : option Z) : option (Result dsakey.DSAParams) :=
  let bits := match bits with None => 2048 | Some b => b end in
  if negb (is_uint32 bits) then Some (Throw AssertionError)
  else if (bits <? 1024) || (bits >? 3072) then Some (Throw RangeError)
  else
    let L := bits in
    let N := if bits <? 2048 then 160 else 256 in
    generate fuel rnd pos L N.

(** [generate(L, N)] and [paramsGenerate(bits)] once more, with the
    cursor of the random source after them. *)
Definition generate_run (fuel : nat) (rnd : Rand) (pos : nat) (L N : Z)
  : option (Result dsakey.DSAParams * nat) :=
  if negb (is_uint32 L) || negb (is_uint32 N) then
    Some (Throw AssertionError, pos)
  else
    match generate_sizes L N with
    | Throw e => Some (Throw e, pos)
    | Ok _ =>
        match search_pq fuel rnd pos L N with
        | None => None
        | Some (pn, qn, pos') =>
            let h := 2 in
            let pm1 := pn - 1 in
            let e := pm1 / qn in
            match search_g fuel h e pn with
            | None => None
            | Some (Throw err) => Some (Throw err, pos')
            | Some (Ok gn) =>
                Some (Ok {| dsakey.p := toBuffer pn;
                            dsakey.q := toBuffer qn;
                            dsakey.g := toBuffer gn |}, pos')
            end
        end
    end.

Definition paramsGenerate_run (fuel : nat) (rnd : Rand) (pos : nat)
  (bits : option Z) : option (Result dsakey.DSAParams * nat) :=
  let bits := match bits with None => 2048 | Some b => b end in
  if negb (is_uint32 bits) then Some (Throw AssertionError, pos)
  else if (bits <? 1024) || (bits >? 3072) then Some (Throw RangeError, pos)
  else
    let L := bits in
    let N := if bits <? 2048 then 160 else 256 in
    generate_run fuel rnd pos L N.

(** [privateKeyGenerate(bits)] *)
Definition privateKeyGenerate (fuel : nat) (rnd : Rand) (pos : nat)
  (bits : option Z) : option (Result dsakey.DSAPrivateKey) :=
  match paramsGenerate_run fuel rnd pos bits with
  | None => None
  | Some (Throw e, _) => Some (Throw e)
  | Some (Ok params, pos') => privateKeyCreate fuel rnd pos' params
  end.

End Generation.

End dsa.

(** ** lib/native/rsa.js *)

Module rsa.

(** [RSAKey] holds [n] and [e]; [RSAPublicKey] adds no field. *)
Record RSAKey : Type := mkRSAKey {
  n : Buffer;
  e : Buffer
}.

Definition RSAPublicKey : Type := RSAKey.

Record RSAPrivateKey : Type := mkRSAPrivateKey {
  pub : RSAKey;
  d : Buffer;
  p : Buffer;
  q : Buffer;
  dp : Buffer;
  dq : Buffer;
  qi : Buffer
}.

(** The hash collaborator, of which the wrappers read [hash.id]. *)
Record Hash : Type := mkHash {
  id : string
}.

Section Wrappers.

(** The DER decoders of lib/internal/rsakey.js and the entry points of
    the native binding (both absent from the sources), taken as given.
    A decoder throws on malformed input; the binding answers with a
    boolean.  The binding's [verify] is also handed the private fields
    of the key object, which a public key does not have: [None] is
    [undefined]. *)
Variable RSAPublicKey_decode : Buffer -> Result RSAPublicKey.
Variable RSAPrivateKey_decode : Buffer -> Result RSAPrivateKey.
Variable binding_publicKeyVerify : Buffer -> Buffer -> bool.
Variable binding_privateKeyVerify :
  Buffer -> Buffer -> Buffer -> Buffer -> Buffer -> Buffer -> Buffer ->
  Buffer -> bool.
Variable binding_verify :
  string -> Buffer -> Buffer -> Buffer -> Buffer ->
  option Buffer -> option Buffer -> option Buffer -> option Buffer ->
  option Buffer -> option Buffer -> bool.

(** [rsa.publicVerify(key)] *)
Definition publicVerify (key : RSAKey) : Result bool :=
  Ok (binding_publicKeyVerify (n key) (e key)).

(** [rsa.privateVerify(key)] *)
Definition privateVerify (key : RSAPrivateKey) : Result bool :=
  Ok (binding_privateKeyVerify (n (pub key)) (e (pub key)) (d key)
        (p key) (q key) (dp key) (dq key) (qi key)).

(** [rsa.publicKeyVerify(key)]:
    [try { k = RSAPublicKey.decode(key); } catch (e) { return false; }
     return rsa.publicVerify(k);] *)
Definition publicKeyVerify (key : Buffer) : Result bool :=
  match RSAPublicKey_decode key with
  | Throw _ => Ok false
  | Ok k => publicVerify k
  end.

(** [rsa.privateKeyVerify(key)] *)
Definition privateKeyVerify (key : Buffer) : Result bool :=
  match RSAPrivateKey_decode key with
  | Throw _ => Ok false
  | Ok k => privateVerify k
  end.

(** [rsa.verifyKey(hash, msg, sig, key)] *)
Definition verifyKey (hash : Hash) (msg sig : Buffer) (key : RSAPublicKey)
  : Result bool :=
  Ok (binding_verify (id hash) msg sig (n key) (e key)
        None None None None None None).

(** [rsa.verify(hash, msg, sig, key)] *)
Definition verify (hash : Hash) (msg sig key : Buffer) : Result bool :=
  match RSAPublicKey_decode key with
  | Throw _ => Ok false
  | Ok k => verifyKey hash msg sig k
  end.

(** [rsa.publicKeyCreate(key)], which lets a decoding error through. *)
Definition publicKeyCreate (encode : RSAPublicKey -> Buffer) (key : Buffer)
  : Result Buffer :=
  k <- RSAPrivateKey_decode key ;;
  Ok (encode (pub k)).

End Wrappers.

Section Signing.

(** The private-key codec of lib/internal/rsakey.js and two more entry
    points of the native binding (absent from the sources), taken as
    given: [privateKeyGenerate] returns the eight fields of a key, and
    [sign] a signature, unless it throws. *)
Variable RSAPrivateKey_decode : Buffer -> Result RSAPrivateKey.
Variable RSAPrivateKey_encode : RSAPrivateKey -> Buffer.
Variable binding_privateKeyGenerate :
  Z -> Result (Buffer * Buffer * Buffer * Buffer * Buffer * Buffer * Buffer
               * Buffer).
Variable binding_sign :
  string -> Buffer -> Buffer -> Buffer -> Buffer -> Buffer -> Buffer ->
  Buffer -> Buffer -> Buffer -> Result Buffer.

(** [rsa.generateKey(bits = 2048)] *)
Definition generateKey (bits : option Z) : Result RSAPrivateKey :=
  let bits := match bits with None => 2048 | Some b => b end in
  _ <- assert (dsa.is_uint32 bits) ;;
  _ <- assert ((bits =? 512) || (bits =? 1024) || (bits =? 2048)
               || (bits =? 4096) || (bits =? 8192)) ;;
  items <- binding_privateKeyGenerate bits ;;
  let '(kn, ke, kd, kp, kq, kdp, kdq, kqi) := items in
  Ok {| pub := {| n := kn; e := ke |};
        d := kd; p := kp; q := kq; dp := kdp; dq := kdq; qi := kqi |}.

(** [rsa.privateKeyGenerate(bits)] *)
Definition privateKeyGenerate (bits : option Z) : Result Buffer :=
  key <- generateKey bits ;;
  Ok (RSAPrivateKey_encode key).

(** [rsa.signKey(hash, msg, key)] *)
Definition signKey (hash : Hash) (msg : Buffer) (key : RSAPrivateKey)
  : Result Buffer :=
  binding_sign (id hash) msg (n (pub key)) (e (pub key)) (d key)
    (p key) (q key) (dp key) (dq key) (qi key).

(** [rsa.sign(hash, msg, key)] *)
Definition sign (hash : Hash) (msg key : Buffer) : Result Buffer :=
  k <- RSAPrivateKey_decode key ;;
  signKey hash msg k.

End Signing.

End rsa.

(** ** src/dsa/dsa.c (the branch built against OpenSSL 1.1) *)

Module native.

(** [bcrypto_dsa_key_t]: five byte strings, each a pointer and a
    length; a null pointer counts no bits, as an empty string does. *)
Record bcrypto_dsa_key_t : Type := mk_key {
  pd : Buffer;
  qd : Buffer;
  gd : Buffer;
  yd : Buffer;
  xd : Buffer
}.

(** OpenSSL's [DSA] object as [bcrypto_dsa_key2dsa] fills it: [y] is
    set from mode 1 on and [x] in mode 2. *)
Record DSA : Type := mk_DSA {
  dsa_p : Z;
  dsa_q : Z;
  dsa_g : Z;
  dsa_y : option Z;
  dsa_x : option Z
}.

(** OpenSSL's [DSA_SIG]. *)
Definition DSA_SIG : Type := (Z * Z)%type.

Definition bcrypto_dsa_sane_params (params : option bcrypto_dsa_key_t)
  : bool :=
  match params with
  | None => false
  | Some params =>
      let pb := bcrypto_count_bits (pd params) in
      let qb := bcrypto_count_bits (qd params) in
      let gb := bcrypto_count_bits (gd params) in
      if (pb <? 1024) || (pb >? 3072) then false
      else if negb (qb =? 160) && negb (qb =? 224) && negb (qb =? 256)
      then false
      else if (gb =? 0) || (gb >? pb) then false
      else true
  end.

Definition bcrypto_dsa_sane_pubkey (key : option bcrypto_dsa_key_t) : bool :=
  if negb (bcrypto_dsa_sane_params key) then false
  else
    match key with
    | None => false
    | Some k =>
        let pb := bcrypto_count_bits (pd k) in
        let yb := bcrypto_count_bits (yd k) in
        if (yb =? 0) || (yb >? pb) then false else true
    end.

Definition bcrypto_dsa_sane_privkey (key : option bcrypto_dsa_key_t) : bool :=
  if negb (bcrypto_dsa_sane_pubkey key) then false
  else
    match key with
    | None => false
    | Some k =>
        let qb := bcrypto_count_bits (qd k) in
        let xb := bcrypto_count_bits (xd k) in
        if (xb =? 0) || (xb >? qb) then false else true
    end.

Definition bcrypto_dsa_subprime_size (key : option bcrypto_dsa_key_t) : Z :=
  match key with
  | None => 0
  | Some k => (bcrypto_count_bits (qd k) + 7) / 8
  end.

(** [bcrypto_dsa_key2dsa(key, mode)]; allocation does not fail. *)
Definition bcrypto_dsa_key2dsa (key : option bcrypto_dsa_key_t) (mode : Z)
  : option DSA :=
  match key with
  | None => None
  | Some k =>
      if (mode <? 0) || (mode >? 2) then None
      else
        Some {| dsa_p := BN_of (pd k);
                dsa_q := BN_of (qd k);
                dsa_g := BN_of (gd k);
                dsa_y := if mode >? 0 then Some (BN_of (yd k)) else None;
                dsa_x := if mode =? 2 then Some (BN_of (xd k)) else None |}
  end.

Definition bcrypto_dsa_key2pub (pub : option bcrypto_dsa_key_t) : option DSA :=
  bcrypto_dsa_key2dsa pub 1.

Definition bcrypto_dsa_key2priv (priv : option bcrypto_dsa_key_t)
  : option DSA :=
  bcrypto_dsa_key2dsa priv 2.

(** [bcrypto_dsa_rs2sig(r, r_len, s, s_len)] *)
Definition bcrypto_dsa_rs2sig (r s : Buffer) : option DSA_SIG :=
  Some (BN_of r, BN_of s).

(** OpenSSL's [BN_num_bits] and [BN_num_bytes]: the size of the
    magnitude of a number. *)
Definition BN_num_bits (a : Z) : Z := bitLength (Z.abs a).

Definition BN_num_bytes (a : Z) : Z := (BN_num_bits a + 7) / 8.

(** OpenSSL's [BN_bn2binpad(a, to, tolen)]: the big-endian bytes of the
    magnitude of [a], padded with leading zeros to [tolen] bytes, and
    [tolen] as result; [None] is its -1, for a number that does not
    fit. *)
Definition BN_bn2binpad (a : Z) (tolen : Z) : option (Buffer * Z) :=
  if tolen <? BN_num_bytes a then None
  else Some (be_bytes (Z.to_nat tolen) (Z.abs a), tolen).

(** [bcrypto_dsa_sig2rs(priv_d, sig_d, &r, &s)].  A failed [assert]
    aborts: [Throw AssertionError]; [malloc] does not fail. *)
Definition bcrypto_dsa_sig2rs (priv_d : DSA) (sig_d : DSA_SIG)
  : Result (option (Buffer * Buffer)) :=
  let '(r_bn, s_bn) := sig_d in
  let q_bn := dsa_q priv_d in
  let bits := BN_num_bits q_bn in
  let size := (bits + 7) / 8 in
  _ <- assert (BN_num_bytes r_bn <=? size) ;;
  _ <- assert (BN_num_bytes s_bn <=? size) ;;
  match BN_bn2binpad r_bn size with
  | Some (r_buf, ret_r) =>
      _ <- assert (ret_r >? 0) ;;
      match BN_bn2binpad s_bn size with
      | Some (s_buf, ret_s) =>
          _ <- assert (ret_s >? 0) ;;
          Ok (Some (r_buf, s_buf))
      | None => Throw AssertionError
      end
  | None => Throw AssertionError
  end.

Section Engine.

(** OpenSSL's [DSA_do_sign] ([None] is its null result) and
    [DSA_do_verify] (1 for a good signature, 0 for a bad one, -1 on
    error), taken as given. *)
Variable DSA_do_sign : Buffer -> DSA -> option DSA_SIG.
Variable DSA_do_verify : Buffer -> DSA_SIG -> DSA -> Z.

(** [bcrypto_dsa_sign(msg, msg_len, priv, &r, &r_len, &s, &s_len)]:
    [Ok None] is the result [false]; [Ok (Some (r, r_len, s, s_len))]
    is the result [true] with what it stored. *)
Definition bcrypto_dsa_sign (msg : option Buffer)
  (priv : option bcrypto_dsa_key_t)
  : Result (option (Buffer * Z * Buffer * Z)) :=
  match msg with
  | None => Ok None
  | Some m =>
      let msg_len := Z.of_nat (List.length m) in
      if (msg_len <? 1) || (msg_len >? 64) then Ok None
      else if negb (bcrypto_dsa_sane_privkey priv) then Ok None
      else
        match bcrypto_dsa_key2priv priv with
        | None => Ok None
        | Some priv_d =>
            match DSA_do_sign m priv_d with
            | None => Ok None
            | Some sig_d =>
                rs <- bcrypto_dsa_sig2rs priv_d sig_d ;;
                match rs with
                | None => Ok None
                | Some (r, s) =>
                    let q_bn := dsa_q priv_d in
                    let bits := BN_num_bits q_bn in
                    let size := (bits + 7) / 8 in
                    Ok (Some (r, size, s, size))
                end
            end
        end
  end.

(** [bcrypto_dsa_verify(msg, msg_len, r, r_len, s, s_len, pub)] *)
Definition bcrypto_dsa_verify (msg r s : option Buffer)
  (pub : option bcrypto_dsa_key_t) : bool :=
  match msg with
  | None => false
  | Some m =>
      let msg_len := Z.of_nat (List.length m) in
      if (msg_len <? 1) || (msg_len >? 64) then false
      else
        let qsize := bcrypto_dsa_subprime_size pub in
        match r with
        | None => false
        | Some r =>
            if negb (Z.of_nat (List.length r) =? qsize) then false
            else
              match s with
              | None => false
              | Some s =>
                  if negb (Z.of_nat (List.length s) =? qsize) then false
                  else if negb (bcrypto_dsa_sane_pubkey pub) then false
                  else
                    match bcrypto_dsa_key2pub pub with
                    | None => false
                    | Some pub_d =>
                        match bcrypto_dsa_rs2sig r s with
                        | None => false
                        | Some sig_d =>
                            if DSA_do_verify m sig_d pub_d <=? 0 then false
                            else true
                        end
                    end
              end
        end
  end.

End Engine.

(** The converters and checks of src/dsa/dsa.c that the entry points
    besides [sign] and [verify] use. *)

Definition bcrypto_dsa_sane_compute (key : option bcrypto_dsa_key_t) : bool :=
  match key with
  | None => false
  | Some key =>
      let pb := bcrypto_count_bits (pd key) in
      let qb := bcrypto_count_bits (qd key) in
      let gb := bcrypto_count_bits (gd key) in
      let yb := bcrypto_count_bits (yd key) in
      let xb := bcrypto_count_bits (xd key) in
      if (pb <? 1024) || (pb >? 3072) then false
      else if negb (qb =? 160) && negb (qb =? 224) && negb (qb =? 256)
      then false
      else if (gb =? 0) || (gb >? pb) then false
      else if yb >? pb then false
      else if (xb =? 0) || (xb >? qb) then false
      else true
  end.

Definition bcrypto_dsa_needs_compute (key : option bcrypto_dsa_key_t) : bool :=
  match key with
  | None => false
  | Some key => bcrypto_count_bits (yd key) =? 0
  end.

Definition bcrypto_dsa_key2params (params : option bcrypto_dsa_key_t)
  : option DSA :=
  bcrypto_dsa_key2dsa params 0.

(** OpenSSL's [BN_bn2bin(a, to)]: the [BN_num_bytes(a)] big-endian
    bytes of the magnitude of [a]. *)
Definition BN_bn2bin (a : Z) : Buffer :=
  be_bytes (Z.to_nat (BN_num_bytes a)) (Z.abs a).

(** [!ptr] for a pointer that may be null. *)
Definition is_null {A : Type} (ptr : option A) : bool :=
  match ptr with Some _ => false | None => true end.

(** [bcrypto_dsa_dsa2key(key_d, mode)]; allocation does not fail.  The
    fields the mode leaves out stay as [bcrypto_dsa_key_init] set
    them: a null pointer and length zero. *)
Definition bcrypto_dsa_dsa2key (key_d : option DSA) (mode : Z)
  : option bcrypto_dsa_key_t :=
  match key_d with
  | None => None
  | Some key_d =>
      if (mode <? 0) || (mode >? 2) then None
      else
        let p := dsa_p key_d in
        let q := dsa_q key_d in
        let g := dsa_g key_d in
        let y := if mode >? 0 then dsa_y key_d else None in
        let x := if (mode >? 0) && (mode =? 2) then dsa_x key_d else None in
        if ((mode >? 0) && is_null y) || ((mode =? 2) && is_null x)
        then None
        else
          Some {| pd := BN_bn2bin p;
                  qd := BN_bn2bin q;
                  gd := BN_bn2bin g;
                  yd := match y with
                        | Some y => BN_bn2bin y
                        | None => []
                        end;
                  xd := match x with
                        | Some x => BN_bn2bin x
                        | None => []
                        end |}
  end.

Definition bcrypto_dsa_params2key (params_d : option DSA)
  : option bcrypto_dsa_key_t :=
  bcrypto_dsa_dsa2key params_d 0.


Definition bcrypto_dsa_priv2key (priv_d : option DSA)
  : option bcrypto_dsa_key_t :=
  bcrypto_dsa_dsa2key priv_d 2.

Section Arithmetic.

(** OpenSSL's [BN_mod_exp(r, a, p, m, ctx)], taken as given: the power
    it stores, or [None] when it reports failure.  The flag tells
    whether the exponent carries [BN_FLG_CONSTTIME]. *)
Variable BN_mod_exp : bool -> Z -> Z -> Z -> option Z.

(** [bcrypto_dsa_params_verify(params)]; allocation does not fail.
    [BN_div] truncates, and fails on a zero divisor. *)
Definition bcrypto_dsa_params_verify (params : option bcrypto_dsa_key_t)
  : bool :=
  if negb (bcrypto_dsa_sane_params params) then false
  else
    match bcrypto_dsa_key2params params with
    | None => false
    | Some params_d =>
        let p := dsa_p params_d in
        let q := dsa_q params_d in
        let g := dsa_g params_d in
        let pm1_bn := p - 1 in
        if q =? 0 then false
        else
          let div_bn := Z.quot pm1_bn q in
          let mod_bn := Z.rem pm1_bn q in
          if negb (mod_bn =? 0) then false
          else
            match BN_mod_exp false g div_bn p with
            | None => false
            | Some x_bn => if x_bn =? 1 then false else true
            end
    end.

(** [bcrypto_dsa_pubkey_verify(key)] *)
Definition bcrypto_dsa_pubkey_verify (key : option bcrypto_dsa_key_t)
  : bool :=
  if negb (bcrypto_dsa_params_verify key) then false
  else bcrypto_dsa_sane_pubkey key.

(** [bcrypto_dsa_privkey_verify(key)]; [BN_ucmp] compares magnitudes. *)
Definition bcrypto_dsa_privkey_verify (key : option bcrypto_dsa_key_t)
  : Result bool :=
  if negb (bcrypto_dsa_sane_privkey key) then Ok false
  else if negb (bcrypto_dsa_pubkey_verify key) then Ok false
  else
    match bcrypto_dsa_key2priv key with
    | None => Ok false
    | Some priv_d =>
        let p := dsa_p priv_d in
        let g := dsa_g priv_d in
        match dsa_y priv_d, dsa_x priv_d with
        | Some y, Some x =>
            if Z.abs x >=? Z.abs y then Ok false
            else
              match BN_mod_exp false g x p with
              | None => Ok false
              | Some y_bn =>
                  if negb (Z.abs y_bn =? Z.abs y) then Ok false
                  else Ok true
              end
        | _, _ => Throw AssertionError
        end
    end.

(** [bcrypto_dsa_privkey_compute(priv, &out, &out_len)], entered with
    [*out_len = out_len0]: [None] is the result [false], and
    [Some (out, out_len)] the result [true] with what the two
    locations hold then, a null [out] being [None].  When nothing has
    to be computed the function clears its own pointer
    ([out_len = 0;]) and not the location it points to. *)
Definition bcrypto_dsa_privkey_compute (priv : option bcrypto_dsa_key_t)
  (out_len0 : Z) : option (option Buffer * Z) :=
  if negb (bcrypto_dsa_sane_compute priv) then None
  else if negb (bcrypto_dsa_needs_compute priv) then Some (None, out_len0)
  else
    match priv with
    | None => None
    | Some priv =>
        let p_bn := BN_of (pd priv) in
        let g_bn := BN_of (gd priv) in
        let x_bn := BN_of (xd priv) in
        let prk_bn := x_bn in
        match BN_mod_exp true g_bn prk_bn p_bn with
        | None => None
        | Some y_bn =>
            let y_len := BN_num_bytes y_bn in
            let y_buf := BN_bn2bin y_bn in
            Some (Some y_buf, y_len)
        end
    end.

End Arithmetic.

Section Generator.

(** OpenSSL's [DSA_generate_parameters_ex] and [DSA_generate_key],
    taken as given: the object they fill, or [None] when they report
    failure. *)
Variable DSA_generate_parameters_ex : Z -> option DSA.
Variable DSA_generate_key : DSA -> option DSA.

(** [bcrypto_dsa_params_generate(bits)] *)
Definition bcrypto_dsa_params_generate (bits : Z)
  : option bcrypto_dsa_key_t :=
  if (bits <? 1024) || (bits >? 3072) then None
  else
    match DSA_generate_parameters_ex bits with
    | None => None
    | Some params_d => bcrypto_dsa_params2key (Some params_d)
    end.

(** [bcrypto_dsa_privkey_create(params)] *)
Definition bcrypto_dsa_privkey_create (params : option bcrypto_dsa_key_t)
  : option bcrypto_dsa_key_t :=
  if negb (bcrypto_dsa_sane_params params) then None
  else
    match bcrypto_dsa_key2params params with
    | None => None
    | Some priv_d =>
        match DSA_generate_key priv_d with
        | None => None
        | Some priv_d => bcrypto_dsa_priv2key (Some priv_d)
        end
    end.

End Generator.

Section Codec.

(** OpenSSL's DER encoders and decoders, taken as given: an encoder
    returns a length and the bytes it allocated (a length that is not
    positive reports failure), a decoder the object it built, or
    [None] for null. *)
Variable i2d_DSAPrivateKey : DSA -> Z * Buffer.
Variable d2i_DSAPrivateKey : Buffer -> option DSA.
Variable i2d_DSAPublicKey : DSA -> Z * Buffer.
Variable d2i_DSAPublicKey : Buffer -> option DSA.





End Codec.

(** The branch built against an older OpenSSL: both entry points
    answer [false]. *)
Definition bcrypto_dsa_sign_stub (msg : option Buffer)
  (priv : option bcrypto_dsa_key_t)
  : Result (option (Buffer * Z * Buffer * Z)) := Ok None.

Definition bcrypto_dsa_verify_stub (msg r s : option Buffer)
  (pub : option bcrypto_dsa_key_t) : bool := false.

End native.

(** ** One pass of the signing loop, as a function of its [k] *)

(** The values a pass computes when no exception ends it:
    [r = modPow(g, k, p) mod q] *)
Definition pass_r {M : Montgomery} (pn qn gn k : Z) : Z :=
  redPow gn k pn mod qn.

(** [s = ((x * r + z) mod q * fermatInverse(k, q)) mod q] *)
Definition pass_s {M : Montgomery} (pn qn gn xn z k : Z) : Z :=
  ((xn * pass_r pn qn gn k + z) mod qn * redPow k (qn - 2) qn) mod qn.

(** The pass as the loop records it. *)
Definition pass_of {M : Montgomery} (pn qn gn xn z k : Z) : dsa.Attempt :=
  let r := pass_r pn qn gn k in
  if r =? 0 then (k, r, None)
  else (k, r, Some (pass_s pn qn gn xn z k)).

(** ** Valid keys and small examples *)

(** A valid DSA private key (spec section 3), of any size: [p] and [q]
    are prime, [q] divides [p - 1] and has a bit length that is a
    multiple of eight, [1 < g < p] with [g^q mod p = 1], [0 < x < q],
    and [y = g^x mod p]. *)
Definition key_invariants (key : dsakey.DSAPrivateKey) : Prop :=
  let pn := BN_of (dsakey.p key) in
  let qn := BN_of (dsakey.q key) in
  let gn := BN_of (dsakey.g key) in
  let yn := BN_of (dsakey.y key) in
  let xn := BN_of (dsakey.x key) in
  Z.prime pn /\ Z.prime qn /\ Z.land (bitLength qn) 7 = 0 /\
  (qn | pn - 1) /\ 1 < gn < pn /\ gn ^ qn mod pn = 1 /\
  0 < xn < qn /\ yn = gn ^ xn mod pn.

(** ** Rejection sampling, read off the random source *)

(** The [n] bytes of the random source from position [pos] on. *)
Definition block (rnd : Rand) (pos n : nat) : Buffer := map rnd (seq pos n).

(** [k] is the first block of [n] bytes, from position [pos] on, whose
    value lies in [1, q - 1]; [pos'] is the position after it. *)
Definition first_accepted (rnd : Rand) (n : nat) (qn : Z) (pos : nat)
  (k : Z) (pos' : nat) : Prop :=
  exists j : nat,
    pos' = (pos + (j + 1) * n)%nat /\
    k = BN_of (block rnd (pos + j * n) n) /\
    1 <= k < qn /\
    forall i : nat, (i < j)%nat ->
      ~ (1 <= BN_of (block rnd (pos + i * n) n) < qn).

(** The numbers [ks] are drawn one after the other by rejection, from
    position [pos] on, and [pos'] is the position after the last. *)
Fixpoint sampled_by_rejection (rnd : Rand) (n : nat) (qn : Z) (pos : nat)
  (ks : list Z) (pos' : nat) : Prop :=
  match ks with
  | [] => pos' = pos
  | k :: rest =>
      exists pos1 : nat,
        first_accepted rnd n qn pos k pos1 /\
        sampled_by_rejection rnd n qn pos1 rest pos'
  end.

(** ** Small examples *)

(** A stand-in for [mont_even] in the closed examples below.  The
    moduli of those examples are odd or not above one, so that none
    of them consults it. *)
Definition zero_on_even : Montgomery :=
  {| mont_even := fun _ _ _ => 0 |}.

(** None of [d], [d + 1], ..., [d + n - 1] divides [p]. *)
Fixpoint no_divisor (n : nat) (d p : Z) : bool :=
  match n with
  | O => true
  | S n' => negb (p mod d =? 0) && no_divisor n' (d + 1) p
  end.

(** Primality by trial division, for small numbers. *)
Definition prime_by_trial (p : Z) : bool :=
  (1 <? p) && no_divisor (Z.to_nat (p - 2)) 2 p.

(** A small private key: [p = 263], [q = 131], [g = 4], [x = 5] and
    [y = 4^5 mod 263 = 235]. *)
Definition toy_key : dsakey.DSAPrivateKey :=
  dsakey.new_DSAPrivateKey [x01; x07] [x83] [x04] [xeb] [x05].

(** The public key of [toy_key] with [p = 1] in place of [p]. *)
Definition unit_modulus_key : dsakey.DSAPublicKey :=
  dsakey.new_DSAKey [x01] [x83] [x04] [xeb].

(** The same key with [g = q], for which every pass with [k = 1] has
    [r = 0]. *)
Definition stuck_key : dsakey.DSAPrivateKey :=
  dsakey.new_DSAPrivateKey [x01; x07] [x83] [x83] [xeb] [x05].

(** A random source that delivers the same byte for ever. *)
Definition constant_rand (b : byte) : Rand := fun _ => b.

(** A native key whose fields have sane sizes: a 1024-bit [p], a
    160-bit [q] and non-zero [g], [y] and [x]. *)
Definition sane_native_key : native.bcrypto_dsa_key_t :=
  {| native.pd := x80 :: repeat x00 127;
     native.qd := x80 :: repeat x00 19;
     native.gd := [x02];
     native.yd := [x03];
     native.xd := [x01] |}.

(** A signing primitive that always answers [(r, s) = (5, 7)]. *)
Definition fixed_DSA_do_sign (m : Buffer) (k : native.DSA)
  : option native.DSA_SIG := Some (5, 7).

(** A verification primitive that accepts everything. *)
Definition accepting_DSA_do_verify (m : Buffer) (sig : native.DSA_SIG)
  (k : native.DSA) : Z := 1.

(** A primality test that says yes to everything and draws nothing. *)
Definition credulous_probablyPrime (rnd : Rand) (pos : nat) (n reps : Z)
  : bool * nat := (true, pos).

(** A JSON object whose [p] is the base64-url text of the bytes 00 01. *)
Definition leading_zero_json : dsakey.JSON :=
  {| dsakey.kty := "DSA";
     dsakey.json_p := "AAE";
     dsakey.json_q := "";
     dsakey.json_g := "";
     dsakey.json_y := None;
     dsakey.json_x := "" |}.

(** ** Polynomials over the integers *)

(** The value at [x] of the polynomial with coefficients [l], constant
    term first. *)
Fixpoint peval (l : list Z) (x : Z) : Z :=
  match l with
  | [] => 0
  | c :: t => c + x * peval t x
  end.

(** The coefficients below the leading one of the quotient by [x - a]
    of the polynomial [(c :: t) ++ [lead]]. *)
Fixpoint qlow (t : list Z) (lead a : Z) : list Z :=
  match t with
  | [] => []
  | c' :: t' => peval (t ++ [lead]) a :: qlow t' lead a
  end.

(** ** Modular exponentiation on machine words *)

(** [Zpow_mod_pos] over Bignums' naturals, for running the model on
    numbers of DSA size. *)
Fixpoint big_pow_mod (a : bigN) (e : positive) (n : bigN) : bigN :=
  match e with
  | xH => BigN.modulo a n
  | xO e' =>
      let z := big_pow_mod a e' n in
      BigN.modulo (BigN.mul z z) n
  | xI e' =>
      let z := big_pow_mod a e' n in
      BigN.modulo (BigN.mul (BigN.mul z z) a) n
  end.

(** ** A run of [generate(1024, 160)] *)

(** A prime [q] of 160 bits, of the form [c * 2^81 + 1]. *)
Definition witness_Q : Z :=
  1073048832924696032294498043768263999750362103809.

(** A prime [p] of 1024 bits, of the form [k * q * 2^520 + 1]. *)
Definition witness_P : Z :=
  122696131844976792411522608915005197911625006902384531102516282089472353670162851818575801798950365182461068806915191090311440705147454296886810521833884333106598527269185180475011755623288807557912384469280867887413822878253596522849632975054533663473946293564965162175869835857943307195903430986168681889793.

(** [2^((p - 1) / q) mod p] *)
Definition witness_G : Z :=
  60517520415892734471881195899378045065632822637570752179341538973011164536292816284586083038035660021385046726935807755133517641122073067469187146166676895233693093189613998127651221203084091454148083264637391053306118366451804450354611257403263414261725466278408123021287439846008863243033482330529122862008.

(** The random source delivers the bytes of [q], then those of [p]. *)
Definition witness_tape : Buffer := toBuffer witness_Q ++ toBuffer witness_P.

Definition witness_rand : Rand := fun i => nth i witness_tape x00.

(** A primality test that knows the two primes and draws nothing. *)
Definition certified_probablyPrime (rnd : Rand) (pos : nat) (n reps : Z)
  : bool * nat :=
  ((n =? witness_Q) || (n =? witness_P), pos).

Definition witness_params : dsakey.DSAParams :=
  {| dsakey.p := toBuffer witness_P;
     dsakey.q := toBuffer witness_Q;
     dsakey.g := toBuffer witness_G |}.

(** ** A run of [privateKeyGenerate(1024)] *)

(** After the bytes of [q] and [p], the random source delivers twenty
    bytes that read as [x = 2]. *)
Definition keygen_tape : Buffer := witness_tape ++ alloc 19 ++ [x02].

Definition keygen_rand : Rand := fun i => nth i keygen_tape x00.

(** [witness_G^2 mod witness_P] *)
Definition witness_Y : Z :=
  52301453402219063839045106687672278872959312396736055052678618139860005492406696176992957368621256194109978314260373632998410393121998192759265930531161435260861152133402365032395249576329837167995718468536728717647915473868382240369861230147504336452820540005546285467003108289094537422236972872464406826213.

Definition witness_key : dsakey.DSAPrivateKey :=
  {| dsakey.pub := {| dsakey.params := witness_params;
                      dsakey.y := toBuffer witness_Y |};
     dsakey.x := [x02] |}.

(** ** Native keys and arithmetic for the examples *)

(** A [BN_mod_exp] that computes on machine words; it reports failure
    on a modulus that is not positive and on negative operands. *)
Definition big_BN_mod_exp (consttime : bool) (a e m : Z) : option Z :=
  if (m <=? 0) || (a <? 0) then None
  else
    match e with
    | Z0 => Some (1 mod m)
    | Zpos e' =>
        Some (BigN.to_Z (big_pow_mod (BigN.of_N (Z.to_N a)) e'
                           (BigN.of_N (Z.to_N m))))
    | Zneg _ => None
    end.

(** The key of the run above in its native form, and the same key
    with [y] missing or with the base 2 in place of [g]. *)
Definition witness_native_key : native.bcrypto_dsa_key_t :=
  {| native.pd := toBuffer witness_P;
     native.qd := toBuffer witness_Q;
     native.gd := toBuffer witness_G;
     native.yd := toBuffer witness_Y;
     native.xd := [x02] |}.

Definition witness_native_key_no_y : native.bcrypto_dsa_key_t :=
  {| native.pd := toBuffer witness_P;
     native.qd := toBuffer witness_Q;
     native.gd := toBuffer witness_G;
     native.yd := [];
     native.xd := [x02] |}.

Definition witness_native_params_base2 : native.bcrypto_dsa_key_t :=
  {| native.pd := toBuffer witness_P;
     native.qd := toBuffer witness_Q;
     native.gd := [x02];
     native.yd := [];
     native.xd := [] |}.

(** A native key whose five fields have no leading zero byte. *)
Definition native_canonical (k : native.bcrypto_dsa_key_t) : Prop :=
  canonical (native.pd k) /\ canonical (native.qd k) /\
  canonical (native.gd k) /\ canonical (native.yd k) /\
  canonical (native.xd k).

(** ** A stand-in for the RSA binding and codec *)

(** A binding that always generates the same eight fields, and the key
    object holding them. *)
Definition toy_binding_privateKeyGenerate (bits : Z)
  : Result (Buffer * Buffer * Buffer * Buffer * Buffer * Buffer * Buffer
            * Buffer) :=
  Ok ([x21], [x03], [x07], [x03], [x0b], [x01], [x07], [x04]).

Definition toy_rsa_key : rsa.RSAPrivateKey :=
  {| rsa.pub := {| rsa.n := [x21]; rsa.e := [x03] |};
     rsa.d := [x07]; rsa.p := [x03]; rsa.q := [x0b];
     rsa.dp := [x01]; rsa.dq := [x07]; rsa.qi := [x04] |}.

(** A codec that knows this key only. *)
Definition toy_rsa_encode_private (k : rsa.RSAPrivateKey) : Buffer := [x30].

Definition toy_rsa_decode_private (raw : Buffer)
  : Result rsa.RSAPrivateKey :=
  match raw with
  | [x30] => Ok toy_rsa_key
  | _ => Throw DecodeError
  end.

Definition toy_rsa_encode_public (k : rsa.RSAPublicKey) : Buffer := [x31].

Definition toy_rsa_decode_public (raw : Buffer) : Result rsa.RSAPublicKey :=
  match raw with
  | [x31] => Ok (rsa.pub toy_rsa_key)
  | _ => Throw DecodeError
  end.

(** ** A run of [generate(1024, 160)] with a test that accepts everything *)





(* ================================================================== *)
(** * Part II. Properties                                              *)
(* ================================================================== *)

(** ** Bytes and big-endian integers *)

Lemma u8_range (b : byte) : 0 <= u8 b < 256.
Proof. unfold u8. pose proof (Byte.to_N_bounded b). lia. Qed.

Lemma u8_mk_u8 (z : Z) : u8 (mk_u8 z) = z mod 256.
Proof.
  unfold mk_u8, u8.
  assert (Hr : 0 <= z mod 256 < 256) by (apply Z.mod_pos_bound; lia).
  destruct (Byte.of_N (Z.to_N (z mod 256))) as [b|] eqn:E.
  - apply Byte.to_of_N in E. rewrite E. lia.
  - apply Byte.of_N_None_iff in E. lia.
Qed.

Lemma mk_u8_u8 (b : byte) : mk_u8 (u8 b) = b.
Proof.
  unfold mk_u8. rewrite Z.mod_small by apply u8_range.
  unfold u8. rewrite N2Z.id, Byte.of_to_N. reflexivity.
Qed.

Lemma mk_u8_mod (z : Z) : mk_u8 (z mod 256) = mk_u8 z.
Proof. unfold mk_u8. rewrite Z.mod_mod by lia. reflexivity. Qed.

Lemma u8_zero_iff (b : byte) : u8 b = 0 <-> b = x00.
Proof.
  split; intros H.
  - rewrite <- (mk_u8_u8 b), H. reflexivity.
  - subst b. reflexivity.
Qed.

Lemma fold_BN (l : Buffer) (acc : Z) :
  fold_left (fun a b => a * 256 + u8 b) l acc
  = acc * 256 ^ Z.of_nat (List.length l) + BN_of l.
Proof.
  unfold BN_of. revert acc.
  induction l as [|b l IH]; intros acc.
  - simpl. lia.
  - cbn [fold_left List.length]. rewrite IH, (IH (0 * 256 + u8 b)).
    rewrite Nat2Z.inj_succ, Z.pow_succ_r by lia. ring.
Qed.

Lemma BN_of_nil : BN_of [] = 0.
Proof. reflexivity. Qed.

Lemma BN_of_cons (b : byte) (l : Buffer) :
  BN_of (b :: l) = u8 b * 256 ^ Z.of_nat (List.length l) + BN_of l.
Proof.
  unfold BN_of at 1. cbn [fold_left]. rewrite fold_BN. ring.
Qed.

Lemma BN_of_app (l1 l2 : Buffer) :
  BN_of (l1 ++ l2) = BN_of l1 * 256 ^ Z.of_nat (List.length l2) + BN_of l2.
Proof.
  unfold BN_of at 1. rewrite fold_left_app.
  fold (BN_of l1). apply fold_BN.
Qed.

Lemma BN_of_snoc (l : Buffer) (b : byte) :
  BN_of (l ++ [b]) = BN_of l * 256 + u8 b.
Proof.
  rewrite BN_of_app. cbn [List.length]. rewrite BN_of_cons, BN_of_nil.
  cbn [List.length]. change (256 ^ Z.of_nat 0) with 1.
  change (256 ^ Z.of_nat 1) with 256. ring.
Qed.

Lemma BN_of_range (l : Buffer) :
  0 <= BN_of l < 256 ^ Z.of_nat (List.length l).
Proof.
  induction l as [|b l IH].
  - rewrite BN_of_nil. cbn. lia.
  - rewrite BN_of_cons. cbn [List.length].
    rewrite Nat2Z.inj_succ, Z.pow_succ_r by lia.
    pose proof (u8_range b). nia.
Qed.

Lemma BN_of_nonneg (l : Buffer) : 0 <= BN_of l.
Proof. apply BN_of_range. Qed.

Lemma BN_of_alloc (n : nat) : BN_of (alloc n) = 0.
Proof.
  unfold alloc. induction n as [|n IH].
  - reflexivity.
  - cbn [repeat]. rewrite BN_of_cons, IH. change (u8 x00) with 0. ring.
Qed.

Lemma BN_of_padded (n : nat) (l : Buffer) : BN_of (alloc n ++ l) = BN_of l.
Proof. rewrite BN_of_app, BN_of_alloc. ring. Qed.

Lemma length_alloc (n : nat) : List.length (alloc n) = n.
Proof. apply repeat_length. Qed.

Lemma length_be_bytes (len : nat) (n : Z) : List.length (be_bytes len n) = len.
Proof.
  revert n. induction len as [|len IH]; intros n.
  - reflexivity.
  - cbn [be_bytes]. rewrite length_app, IH. cbn. lia.
Qed.

Lemma BN_of_be_bytes (len : nat) (n : Z) :
  BN_of (be_bytes len n) = n mod 256 ^ Z.of_nat len.
Proof.
  revert n. induction len as [|len IH]; intros n.
  - cbn. rewrite Z.mod_1_r. reflexivity.
  - cbn [be_bytes]. rewrite BN_of_snoc, IH, u8_mk_u8.
    rewrite Nat2Z.inj_succ, Z.pow_succ_r by lia.
    rewrite Z.rem_mul_r by (try apply Z.pow_nonzero; lia + apply Z.pow_pos_nonneg; lia).
    ring.
Qed.

Lemma be_bytes_BN_of (l : Buffer) : be_bytes (List.length l) (BN_of l) = l.
Proof.
  induction l as [|b l IH] using rev_ind.
  - reflexivity.
  - rewrite length_app, Nat.add_comm. cbn [List.length Nat.add be_bytes].
    rewrite BN_of_snoc. pose proof (u8_range b).
    replace ((BN_of l * 256 + u8 b) / 256) with (BN_of l)
      by (symmetry; rewrite Z.add_comm, Z.div_add, (Z.div_small (u8 b)) by lia; lia).
    rewrite IH. f_equal. f_equal.
    rewrite <- mk_u8_mod, Z.add_comm, Z.mod_add, Z.mod_small, mk_u8_u8 by lia.
    reflexivity.
Qed.

(** Two buffers of one length that hold the same integer are equal. *)
Lemma BN_of_inj (l1 l2 : Buffer) :
  List.length l1 = List.length l2 -> BN_of l1 = BN_of l2 -> l1 = l2.
Proof.
  intros Hlen Hval.
  rewrite <- (be_bytes_BN_of l1), <- (be_bytes_BN_of l2), Hlen, Hval.
  reflexivity.
Qed.

(** ** Bit lengths *)

Lemma bitLength_nonneg (n : Z) : 0 <= bitLength n.
Proof.
  unfold bitLength. destruct (n <=? 0); [lia|].
  pose proof (Z.log2_nonneg n). lia.
Qed.

Lemma bitLength_0 : bitLength 0 = 0.
Proof. reflexivity. Qed.

Lemma bitLength_pos (n : Z) : 0 < n -> 0 < bitLength n.
Proof.
  intros H. unfold bitLength. destruct (Z.leb_spec n 0); [lia|].
  pose proof (Z.log2_nonneg n). lia.
Qed.

Lemma bitLength_spec (n : Z) :
  0 < n -> 2 ^ (bitLength n - 1) <= n < 2 ^ bitLength n.
Proof.
  intros H. unfold bitLength. destruct (Z.leb_spec n 0); [lia|].
  replace (Z.log2 n + 1 - 1) with (Z.log2 n) by lia.
  pose proof (Z.log2_spec n H). rewrite <- Z.add_1_r in *. lia.
Qed.

Lemma bitLength_unique (n k : Z) :
  0 < k -> 2 ^ (k - 1) <= n < 2 ^ k -> bitLength n = k.
Proof.
  intros Hk Hn.
  assert (0 < n) by (pose proof (Z.pow_pos_nonneg 2 (k - 1)); lia).
  unfold bitLength. destruct (Z.leb_spec n 0); [lia|].
  rewrite (Z.log2_unique n (k - 1)); [lia | lia |].
  replace (Z.succ (k - 1)) with k by lia. exact Hn.
Qed.

Lemma bitLength_upper (n : Z) : 0 <= n -> n < 2 ^ bitLength n.
Proof.
  intros H. destruct (Z.eq_dec n 0) as [->|Hn].
  - cbn. lia.
  - apply bitLength_spec. lia.
Qed.

Lemma bitLength_le (n k : Z) : 0 <= k -> 0 <= n < 2 ^ k -> bitLength n <= k.
Proof.
  intros Hk Hn. destruct (Z.eq_dec n 0) as [->|Hz].
  - rewrite bitLength_0. lia.
  - destruct (Z.le_gt_cases (bitLength n) k) as [|Hgt]; [assumption|].
    pose proof (bitLength_spec n ltac:(lia)) as [Hlo _].
    assert (2 ^ k <= 2 ^ (bitLength n - 1)) by (apply Z.pow_le_mono_r; lia).
    lia.
Qed.

Lemma pow256 (k : Z) : 0 <= k -> 256 ^ k = 2 ^ (8 * k).
Proof. intros H. rewrite Z.pow_mul_r by lia. reflexivity. Qed.

Lemma byteLength_nonneg (n : Z) : 0 <= byteLength n.
Proof.
  unfold byteLength. pose proof (bitLength_nonneg n).
  apply Z.div_pos; lia.
Qed.

Lemma byteLength_upper (n : Z) : 0 <= n -> n < 256 ^ byteLength n.
Proof.
  intros H. rewrite pow256 by apply byteLength_nonneg.
  pose proof (bitLength_upper n H).
  assert (bitLength n <= 8 * byteLength n).
  { unfold byteLength. pose proof (bitLength_nonneg n).
    pose proof (Z.div_mod (bitLength n + 7) 8 ltac:(lia)).
    pose proof (Z.mod_pos_bound (bitLength n + 7) 8 ltac:(lia)). lia. }
  assert (2 ^ bitLength n <= 2 ^ (8 * byteLength n))
    by (apply Z.pow_le_mono_r; lia).
  lia.
Qed.

Lemma byteLength_le (n k : Z) :
  0 <= k -> 0 <= n < 256 ^ k -> byteLength n <= k.
Proof.
  intros Hk Hn. rewrite pow256 in Hn by lia.
  pose proof (bitLength_le n (8 * k) ltac:(lia) Hn).
  unfold byteLength.
  assert ((bitLength n + 7) / 8 < k + 1)
    by (apply Z.div_lt_upper_bound; lia).
  lia.
Qed.

Lemma length_toBuffer (n : Z) :
  List.length (toBuffer n) = Z.to_nat (byteLength n).
Proof. apply length_be_bytes. Qed.

Lemma BN_of_toBuffer (n : Z) : 0 <= n -> BN_of (toBuffer n) = n.
Proof.
  intros H. unfold toBuffer. rewrite BN_of_be_bytes.
  rewrite Z2Nat.id by apply byteLength_nonneg.
  apply Z.mod_small. split; [lia | apply byteLength_upper; lia].
Qed.

(** ** [trimLeft], [countLeft] and [leftPad] *)

Lemma trimLeft_cases (l : Buffer) :
  trimLeft l = [] \/
  exists b rest, trimLeft l = b :: rest /\ b <> x00.
Proof.
  induction l as [|b l IH].
  - left. reflexivity.
  - cbn [trimLeft]. destruct (Byte.eqb b x00) eqn:E.
    + exact IH.
    + right. exists b, l. split; [reflexivity|].
      intros ->. discriminate E.
Qed.

Lemma trimLeft_idem (l : Buffer) : trimLeft (trimLeft l) = trimLeft l.
Proof.
  induction l as [|b l IH].
  - reflexivity.
  - cbn [trimLeft]. destruct (Byte.eqb b x00) eqn:E.
    + exact IH.
    + cbn [trimLeft]. rewrite E. reflexivity.
Qed.

Lemma canonical_trimLeft (l : Buffer) : canonical (trimLeft l).
Proof. apply trimLeft_idem. Qed.

Lemma canonical_nil : canonical [].
Proof. reflexivity. Qed.

Lemma canonical_head (b : byte) (l : Buffer) :
  canonical (b :: l) <-> b <> x00.
Proof.
  unfold canonical. cbn [trimLeft]. destruct (Byte.eqb b x00) eqn:E.
  - apply Byte.byte_dec_bl in E. subst b. split; [|congruence].
    intros H. exfalso.
    assert (Hlen : (List.length (trimLeft l) <= List.length l)%nat).
    { clear H. induction l as [|c l IH]; cbn [trimLeft]; [lia|].
      destruct (Byte.eqb c x00); cbn [List.length]; lia. }
    rewrite H in Hlen. cbn [List.length] in Hlen. lia.
  - split; [|reflexivity]. intros _ ->. discriminate E.
Qed.

Lemma length_trimLeft (l : Buffer) :
  (List.length (trimLeft l) <= List.length l)%nat.
Proof.
  induction l as [|c l IH]; cbn [trimLeft]; [lia|].
  destruct (Byte.eqb c x00); cbn [List.length]; lia.
Qed.

Lemma BN_of_trimLeft (l : Buffer) : BN_of (trimLeft l) = BN_of l.
Proof.
  induction l as [|b l IH].
  - reflexivity.
  - cbn [trimLeft]. destruct (Byte.eqb b x00) eqn:E; [|reflexivity].
    apply Byte.byte_dec_bl in E. subst b.
    rewrite IH, BN_of_cons. change (u8 x00) with 0. ring.
Qed.

Lemma octet_loop_acc (fuel : nat) (oct acc : Z) :
  octet_loop fuel oct acc = acc + octet_loop fuel oct 0.
Proof.
  revert oct acc. induction fuel as [|fuel IH]; intros oct acc.
  - cbn. lia.
  - cbn [octet_loop]. destruct (oct =? 0); [lia|].
    rewrite IH, (IH _ (0 + 1)). lia.
Qed.

Lemma octet_loop_bitLength (b : byte) :
  octet_loop 32 (u8 b) 0 = bitLength (u8 b).
Proof. destruct b; reflexivity. Qed.

(** The bit length of a number from its leading byte. *)
Lemma bitLength_leading (v k rest : Z) :
  0 < v -> 0 <= k -> 0 <= rest < 2 ^ k ->
  bitLength (v * 2 ^ k + rest) = k + bitLength v.
Proof.
  intros Hv Hk Hrest.
  pose proof (bitLength_spec v Hv) as [Hlo Hhi].
  pose proof (bitLength_pos v Hv) as Hb.
  apply bitLength_unique; [lia|].
  replace (k + bitLength v - 1) with (k + (bitLength v - 1)) by lia.
  rewrite !Z.pow_add_r by lia.
  assert (0 < 2 ^ k) by (apply Z.pow_pos_nonneg; lia).
  split; nia.
Qed.

Lemma bcrypto_count_bits_spec (buf : Buffer) :
  bcrypto_count_bits buf = bitLength (BN_of buf).
Proof.
  unfold bcrypto_count_bits. rewrite <- (BN_of_trimLeft buf).
  destruct (trimLeft_cases buf) as [E | (b & rest & E & Hb)]; rewrite E.
  - reflexivity.
  - rewrite octet_loop_acc, octet_loop_bitLength, BN_of_cons.
    assert (0 < u8 b).
    { pose proof (u8_range b).
      destruct (Z.eq_dec (u8 b) 0) as [Hz|]; [|lia].
      apply u8_zero_iff in Hz. contradiction. }
    rewrite pow256 by lia.
    pose proof (BN_of_range rest) as Hr. rewrite pow256 in Hr by lia.
    rewrite bitLength_leading by lia.
    cbn [List.length]. lia.
Qed.

Lemma countLeft_spec (buf : Buffer) : countLeft buf = bitLength (BN_of buf).
Proof. apply bcrypto_count_bits_spec. Qed.

(** [size()] is the byte length of [q]. *)
Lemma size_spec (k : dsakey.DSAParams) :
  dsakey.size k = byteLength (BN_of (dsakey.q k)).
Proof.
  unfold dsakey.size, byteLength. rewrite countLeft_spec.
  rewrite Z.shiftr_div_pow2 by lia. reflexivity.
Qed.

Lemma leftPad_fits (v : Buffer) (size : nat) :
  (List.length v <= size)%nat ->
  leftPad v size = Ok (alloc (size - List.length v) ++ v).
Proof.
  intros H. unfold leftPad.
  destruct (Nat.ltb_spec size (List.length v)); [lia|].
  destruct (Nat.leb_spec (List.length v) size); [|lia].
  reflexivity.
Qed.

Lemma leftPad_ok (v out : Buffer) (size : nat) :
  leftPad v size = Ok out ->
  let w := if (size <? List.length v)%nat then trimLeft v else v in
  out = alloc (size - List.length w) ++ w /\
  (List.length w <= size)%nat /\ BN_of w = BN_of v /\
  List.length out = size /\ BN_of out = BN_of v.
Proof.
  intros H w. unfold leftPad in H. fold w in H.
  assert (Hw : BN_of w = BN_of v).
  { subst w. destruct (size <? List.length v)%nat;
      [apply BN_of_trimLeft | reflexivity]. }
  destruct (Nat.leb_spec (List.length w) size) as [Hle|Hgt];
    cbn [assert bind] in H; [|discriminate].
  injection H as <-. repeat split; try assumption.
  - rewrite length_app, length_alloc. lia.
  - rewrite BN_of_padded. exact Hw.
Qed.

(** ** Modular exponentiation *)

(** On an odd modulus the reduction context computes the modular
    power. *)
Lemma redPow_odd {M : Montgomery} (x y m : Z) :
  Z.odd m = true -> redPow x y m = x ^ y mod m.
Proof.
  intros H. unfold redPow. rewrite H. apply Zpow_mod_correct.
  intros ->. discriminate.
Qed.

Lemma redPow_range {M : Montgomery} (x y m : Z) :
  0 < m -> Z.odd m = true -> 0 <= redPow x y m < m.
Proof.
  intros Hm H. rewrite redPow_odd by exact H. apply Z.mod_pos_bound.
  exact Hm.
Qed.

(** On an odd modulus the value does not depend on the parameter. *)
Lemma redPow_instance (M1 M2 : Montgomery) (x y m : Z) :
  Z.odd m = true -> redPow (M := M1) x y m = redPow (M := M2) x y m.
Proof. intros H. unfold redPow. rewrite H. reflexivity. Qed.

(** [modPow] throws exactly on a modulus that is not greater than one. *)
Lemma modPow_small {M : Montgomery} (x y m : Z) :
  m <= 1 -> modPow x y m = Throw AssertionError.
Proof.
  intros H. unfold modPow. destruct (Z.leb_spec m 1); [reflexivity|lia].
Qed.

Lemma modPow_ok {M : Montgomery} (x y m : Z) :
  1 < m -> modPow x y m = Ok (redPow x y m).
Proof.
  intros H. unfold modPow. destruct (Z.leb_spec m 1); [lia|reflexivity].
Qed.

Lemma modPow_inv {M : Montgomery} (x y m v : Z) :
  modPow x y m = Ok v -> 1 < m /\ v = redPow x y m.
Proof.
  unfold modPow. destruct (Z.leb_spec m 1); [discriminate|].
  intros [= <-]. split; [assumption|reflexivity].
Qed.

Lemma modPow_throws {M : Montgomery} (x y m : Z) (e : Error) :
  modPow x y m = Throw e -> m <= 1 /\ e = AssertionError.
Proof.
  unfold modPow. destruct (Z.leb_spec m 1); [|discriminate].
  intros [= <-]. split; [assumption|reflexivity].
Qed.

Lemma modPow_spec {M : Montgomery} (x y m : Z) :
  1 < m -> Z.odd m = true -> modPow x y m = Ok (x ^ y mod m).
Proof.
  intros Hm H. rewrite modPow_ok by exact Hm. rewrite redPow_odd by exact H.
  reflexivity.
Qed.

(** A prime above two is odd. *)
Lemma odd_prime (p : Z) : Z.prime p -> 2 < p -> Z.odd p = true.
Proof.
  intros Hp H2. destruct (Z.odd p) eqn:E; [reflexivity|exfalso].
  assert (Hev : Z.even p = true) by (rewrite <- Z.negb_odd, E; reflexivity).
  apply Z.even_spec in Hev. destruct Hev as [k Hk].
  destruct Hp as [_ Hnd]. apply (Hnd 2); [lia|].
  exists k. lia.
Qed.

(** Exponents of an element of order dividing [q] count modulo [q]. *)
Lemma pow_mod_order (g q p e : Z) :
  0 < q -> 0 < p -> g ^ q mod p = 1 -> 0 <= e ->
  g ^ e mod p = g ^ (e mod q) mod p.
Proof.
  intros Hq Hp Hg He.
  rewrite (Z.div_mod e q) at 1 by lia.
  pose proof (Z.mod_pos_bound e q Hq).
  assert (0 <= e / q) by (apply Z.div_pos; lia).
  rewrite Z.pow_add_r, Z.pow_mul_r by lia.
  rewrite <- Z.mul_mod_idemp_l, <- Z.mod_pow_l, Hg by lia.
  rewrite Z.pow_1_l by lia.
  destruct (Z.eq_dec p 1) as [->|]; [rewrite !Z.mod_1_r; reflexivity|].
  rewrite (Z.mod_small 1 p) by lia. f_equal. lia.
Qed.

Lemma pow_mod_congr (g q p a b : Z) :
  0 < q -> 0 < p -> g ^ q mod p = 1 -> 0 <= a -> 0 <= b ->
  a mod q = b mod q -> g ^ a mod p = g ^ b mod p.
Proof.
  intros Hq Hp Hg Ha Hb Hab.
  rewrite (pow_mod_order g q p a), (pow_mod_order g q p b), Hab by lia.
  reflexivity.
Qed.

(** ** Number theory: prime divisors *)

Lemma prime_decidable (n : Z) : Z.prime n \/ ~ Z.prime n.
Proof.
  destruct (prime_dec n) as [H|H].
  - left. apply prime_alt. exact H.
  - right. intros Hp. apply H, prime_alt. exact Hp.
Qed.

Lemma composite_divisor (n : Z) :
  1 < n -> ~ Z.prime n -> exists d, 1 < d < n /\ (d | n).
Proof.
  intros Hn Hnp. apply not_prime_divide; [exact Hn|].
  intros Hp. apply Hnp, prime_alt. exact Hp.
Qed.

Lemma exists_prime_divisor (n : Z) :
  1 < n -> exists p, Z.prime p /\ (p | n).
Proof.
  assert (H : forall (k : nat) (m : Z), 1 < m <= Z.of_nat k ->
            exists p, Z.prime p /\ (p | m)).
  { induction k as [|k IH]; intros m Hm; [lia|].
    destruct (prime_decidable m) as [Hp|Hnp].
    - exists m. split; [exact Hp | apply Z.divide_refl].
    - destruct (composite_divisor m ltac:(lia) Hnp) as (d & Hd & Hdm).
      destruct (IH d ltac:(lia)) as (p & Hp & Hpd).
      exists p. split; [exact Hp | eapply Z.divide_trans; eassumption]. }
  intros Hn. apply (H (Z.to_nat n)). lia.
Qed.

(** A composite number has a prime divisor no larger than its square
    root. *)
Lemma small_prime_divisor (n : Z) :
  1 < n -> ~ Z.prime n ->
  exists p, Z.prime p /\ (p | n) /\ p * p <= n.
Proof.
  intros Hn Hnp.
  destruct (composite_divisor n Hn Hnp) as (d & Hd & (c & Hc)).
  assert (Hc1 : 1 < c) by nia.
  destruct (Z.le_gt_cases d c) as [Hle|Hgt].
  - destruct (exists_prime_divisor d ltac:(lia)) as (p & Hp & Hpd).
    pose proof (Z.prime_ge_2 p Hp).
    pose proof (Z.divide_pos_le p d ltac:(lia) Hpd).
    exists p. split; [exact Hp|]. split; [|nia].
    apply (Z.divide_trans _ d); [exact Hpd|]. exists c. exact Hc.
  - destruct (exists_prime_divisor c ltac:(lia)) as (p & Hp & Hpc).
    pose proof (Z.prime_ge_2 p Hp).
    pose proof (Z.divide_pos_le p c ltac:(lia) Hpc).
    exists p. split; [exact Hp|]. split; [|nia].
    apply (Z.divide_trans _ c); [exact Hpc|]. exists d. lia.
Qed.

(** ** Number theory: exponents of elements *)

Lemma pow_mul_one (a p m u : Z) :
  1 < p -> 0 <= m -> 0 <= u -> a ^ m mod p = 1 -> a ^ (m * u) mod p = 1.
Proof.
  intros Hp Hm Hu H.
  rewrite Z.pow_mul_r, <- Z.mod_pow_l, H, Z.pow_1_l by lia.
  apply Z.mod_1_l. exact Hp.
Qed.

Lemma pow_gcd_one (a p m k : Z) :
  1 < p -> 0 < m -> 0 < k ->
  a ^ m mod p = 1 -> a ^ k mod p = 1 -> a ^ Z.gcd m k mod p = 1.
Proof.
  intros Hp Hm Hk Ham Hak.
  destruct (Z.gcd_bezout m k (Z.gcd m k) eq_refl) as (u & v & E).
  pose proof (Z.gcd_nonneg m k) as Hg.
  set (t := Z.abs u + Z.abs v).
  assert (HU : 0 <= u + t * k) by (subst t; nia).
  assert (HV : 0 <= t * m - v) by (subst t; nia).
  assert (Eq : m * (u + t * k) = k * (t * m - v) + Z.gcd m k) by lia.
  pose proof (pow_mul_one a p m (u + t * k) Hp ltac:(lia) HU Ham) as H1.
  rewrite Eq, Z.pow_add_r in H1 by nia.
  rewrite <- Z.mul_mod_idemp_l in H1 by lia.
  rewrite (pow_mul_one a p k (t * m - v) Hp ltac:(lia) HV Hak) in H1.
  rewrite Z.mul_1_l in H1. exact H1.
Qed.

(** A divisor [d] of [m] that does not divide [m / f] carries the full
    power of the prime [f] in [m]. *)
Lemma prime_power_divides (f : Z) :
  Z.prime f ->
  forall n, 0 <= n ->
  forall m d, 0 < m -> 0 < d ->
    (f ^ n | m) -> (d | m) -> ~ (d | m / f) -> (f ^ n | d).
Proof.
  intros Hf. pose proof (Z.prime_ge_2 f Hf) as Hf2.
  apply (natlike_ind (fun n => forall m d, 0 < m -> 0 < d ->
           (f ^ n | m) -> (d | m) -> ~ (d | m / f) -> (f ^ n | d))).
  - intros m d _ _ _ _ _. rewrite Z.pow_0_r. apply Z.divide_1_l.
  - intros n Hn IH m d Hm Hd Hfm Hdm Hnd.
    rewrite Z.pow_succ_r in * by lia.
    assert (Hfm1 : (f | m)).
    { apply (Z.divide_trans _ (f * f ^ n)); [apply Z.divide_factor_l | exact Hfm]. }
    destruct Hfm1 as (m' & Em).
    assert (Ediv : m / f = m') by (rewrite Em; apply Z.div_mul; lia).
    assert (Hm' : 0 < m') by nia.
    (* f divides d, or else d would divide m / f *)
    assert (Hfd : (f | d)).
    { destruct (Z.BoolSpec_divide f d) as [H|H]; [exact H|].
      exfalso. apply Hnd. rewrite Ediv.
      apply Z.coprime_prime_l in H; [|exact Hf].
      apply (Z.gauss d f m').
      - rewrite <- Z.mul_comm, <- Em. exact Hdm.
      - unfold Z.coprime in H. rewrite Z.gcd_comm. exact H. }
    destruct Hfd as (d' & Ed).
    assert (Hd' : 0 < d') by nia.
    rewrite Ed, (Z.mul_comm d' f).
    apply Z.mul_divide_mono_l.
    destruct (Z.eq_dec n 0) as [->|Hn0].
    { rewrite Z.pow_0_r. apply Z.divide_1_l. }
    apply (IH m' d' Hm' Hd').
    + apply (Z.mul_divide_cancel_l _ _ f ltac:(lia)).
      rewrite (Z.mul_comm f m'), <- Em. exact Hfm.
    + apply (Z.mul_divide_cancel_l _ _ f ltac:(lia)).
      rewrite (Z.mul_comm f m'), <- Em, (Z.mul_comm f d'), <- Ed. exact Hdm.
    + intros Hd'm. apply Hnd. rewrite Ediv.
      assert (Hfm' : (f | m')).
      { apply (Z.mul_divide_cancel_l _ _ f ltac:(lia)).
        apply (Z.divide_trans _ (f * f ^ n)).
        - apply Z.mul_divide_mono_l.
          replace n with (Z.succ (n - 1)) by lia.
          rewrite Z.pow_succ_r by lia. apply Z.divide_factor_l.
        - rewrite (Z.mul_comm f m'), <- Em. exact Hfm. }
      destruct Hfm' as (m'' & Em').
      assert (E2 : m' / f = m'') by (rewrite Em'; apply Z.div_mul; lia).
      rewrite E2 in Hd'm. destruct Hd'm as (j & Ej).
      exists j. rewrite Ed, Em', Ej. ring.
Qed.

(** ** Number theory: Pocklington's criterion for a prime power *)

Theorem pocklington (N f n a : Z) :
  Z.prime f -> 0 < n -> 1 < N ->
  (f ^ n | N - 1) -> N < f ^ n * f ^ n ->
  a ^ (N - 1) mod N = 1 ->
  Z.gcd (a ^ ((N - 1) / f) mod N - 1) N = 1 ->
  Z.prime N.
Proof.
  intros Hf Hn HN HF Hsq Ha Hg.
  destruct (prime_decidable N) as [Hp|Hnp]; [exact Hp|exfalso].
  destruct (small_prime_divisor N HN Hnp) as (p & Hp & HpN & Hpp).
  pose proof (Z.prime_ge_2 p Hp) as Hp2.
  pose proof (Z.prime_ge_2 f Hf) as Hf2.
  (* a has order dividing N - 1 modulo p *)
  assert (Hap : a ^ (N - 1) mod p = 1).
  { rewrite <- (Z.mod_mod_divide _ N p HpN), Ha. apply Z.mod_1_l. lia. }
  (* and a ^ ((N - 1) / f) is not one modulo p *)
  assert (Hc : a ^ ((N - 1) / f) mod p <> 1).
  { intros Hc.
    assert (Hd : (p | a ^ ((N - 1) / f) mod N - 1)).
    { apply Z.mod_divide; [lia|].
      rewrite <- Zminus_mod_idemp_l, (Z.mod_mod_divide _ N p HpN), Hc.
      reflexivity. }
    pose proof (Z.gcd_greatest _ _ _ Hd HpN) as H1. rewrite Hg in H1.
    apply Z.divide_1_r_nonneg in H1; lia. }
  (* a is invertible modulo p *)
  assert (Hanz : a mod p <> 0).
  { intros Hz.
    rewrite <- Z.mod_pow_l, Hz, Z.pow_0_l, Z.mod_0_l in Hap by lia. lia. }
  pose proof (Z.fermat_nz p a Hp Hanz) as Hfer.
  pose proof (pow_gcd_one a p (N - 1) (p - 1) ltac:(lia) ltac:(lia)
                ltac:(lia) Hap Hfer) as Hgcd.
  set (d := Z.gcd (N - 1) (p - 1)) in *.
  assert (Hd0 : 0 < d).
  { pose proof (Z.gcd_nonneg (N - 1) (p - 1)).
    destruct (Z.eq_dec d 0) as [E|]; [|lia].
    apply Z.gcd_eq_0_l in E. lia. }
  assert (HFd : (f ^ n | d)).
  { apply (prime_power_divides f Hf n ltac:(lia) (N - 1) d); try lia.
    - exact HF.
    - apply Z.gcd_divide_l.
    - intros (j & Ej). apply Hc. rewrite Ej, Z.mul_comm.
      assert (0 <= j).
      { assert (0 <= (N - 1) / f) by (apply Z.div_pos; lia). nia. }
      apply pow_mul_one; lia. }
  assert (HFp : (f ^ n | p - 1)).
  { apply (Z.divide_trans _ d); [exact HFd | apply Z.gcd_divide_r]. }
  apply Z.divide_pos_le in HFp; [|lia].
  assert (0 < f ^ n) by (apply Z.pow_pos_nonneg; lia).
  nia.
Qed.

(** ** Number theory: the roots of a polynomial modulo a prime *)

Lemma length_qlow (t : list Z) (lead a : Z) :
  List.length (qlow t lead a) = List.length t.
Proof.
  induction t as [|c t IH]; cbn [qlow List.length]; [reflexivity|].
  rewrite IH. reflexivity.
Qed.

(** Division by [x - a]. *)
Lemma peval_division (t : list Z) (c lead a x : Z) :
  peval ((c :: t) ++ [lead]) x
  = peval ((c :: t) ++ [lead]) a
    + (x - a) * peval (qlow t lead a ++ [lead]) x.
Proof.
  revert c. induction t as [|c' t IH]; intros c.
  - cbn. ring.
  - change (peval ((c :: c' :: t) ++ [lead]) x)
      with (c + x * peval ((c' :: t) ++ [lead]) x).
    change (peval ((c :: c' :: t) ++ [lead]) a)
      with (c + a * peval ((c' :: t) ++ [lead]) a).
    change (peval (qlow (c' :: t) lead a ++ [lead]) x)
      with (peval ((c' :: t) ++ [lead]) a
            + x * peval (qlow t lead a ++ [lead]) x).
    rewrite (IH c'). ring.
Qed.

(** A polynomial of degree [n] whose leading coefficient is not zero
    modulo the prime [p] has at most [n] roots modulo [p]. *)
Theorem roots_bound (p : Z) :
  Z.prime p ->
  forall (n : nat) (l : list Z) (lead : Z) (rs : list Z),
    List.length l = n -> lead mod p <> 0 -> NoDup rs ->
    (forall r, In r rs -> 0 <= r < p /\ peval (l ++ [lead]) r mod p = 0) ->
    (List.length rs <= n)%nat.
Proof.
  intros Hp. pose proof (Z.prime_ge_2 p Hp) as Hp2.
  induction n as [|n IH]; intros l lead rs Hlen Hlead Hnd Hroots.
  - destruct l; [|discriminate]. destruct rs as [|r rs]; [cbn; lia|].
    exfalso. destruct (Hroots r (or_introl eq_refl)) as [_ H].
    cbn in H. apply Hlead. rewrite <- H. f_equal. ring.
  - destruct l as [|c t]; [discriminate|].
    destruct rs as [|a rs]; [cbn; lia|].
    cbn [List.length]. apply le_n_S.
    apply (IH (qlow t lead a) lead rs).
    + rewrite length_qlow. cbn in Hlen. lia.
    + exact Hlead.
    + inversion Hnd. assumption.
    + intros r Hr.
      destruct (Hroots r (or_intror Hr)) as [Hrange Hroot].
      destruct (Hroots a (or_introl eq_refl)) as [Harange Haroot].
      split; [exact Hrange|].
      rewrite (peval_division t c lead a r) in Hroot.
      rewrite <- Z.add_mod_idemp_l, Haroot, Z.add_0_l in Hroot by lia.
      apply Z.mod_divide in Hroot; [|lia].
      apply (Z.divide_prime_mul _ _ p Hp) in Hroot.
      destruct Hroot as [Hra|Hq].
      * exfalso.
        assert (r <> a) by (inversion Hnd; subst; congruence).
        destruct Hra as (j & Ej).
        destruct (Z.lt_trichotomy j 0) as [Hj|[Hj|Hj]]; nia.
      * apply Z.mod_divide; [lia | exact Hq].
Qed.

Lemma peval_monomial (k : nat) (x : Z) :
  peval (repeat 0 k ++ [1]) x = x ^ Z.of_nat k.
Proof.
  induction k as [|k IH].
  - cbn [repeat app peval Z.of_nat]. rewrite Z.pow_0_r. ring.
  - cbn [repeat app peval]. rewrite IH, Nat2Z.inj_succ, Z.pow_succ_r by lia.
    ring.
Qed.

(** Modulo a prime [p], fewer than [p - 1] of the residues 1, ...,
    [p - 1] can satisfy [x^e = 1] when [1 <= e < p - 1]. *)
Lemma not_all_roots_of_unity (p e : Z) :
  Z.prime p -> 1 <= e < p - 1 ->
  ~ (forall j, 1 <= j < p -> j ^ e mod p = 1).
Proof.
  intros Hp He Hall. pose proof (Z.prime_ge_2 p Hp) as Hp2.
  set (k := Z.to_nat (e - 1)).
  set (rs := map Z.of_nat (seq 1 (Z.to_nat (p - 1)))).
  assert (Hb : (List.length rs <= S k)%nat).
  { apply (roots_bound p Hp (S k) ((-1) :: repeat 0 k) 1 rs).
    - cbn [List.length]. rewrite repeat_length. reflexivity.
    - rewrite Z.mod_1_l by lia. lia.
    - subst rs. apply Finite.Injective_map_NoDup.
      + intros x y H. lia.
      + apply seq_NoDup.
    - intros r Hr. subst rs. apply in_map_iff in Hr.
      destruct Hr as (i & <- & Hi). apply in_seq in Hi.
      split; [lia|].
      cbn [app peval]. rewrite peval_monomial.
      replace (-1 + Z.of_nat i * Z.of_nat i ^ Z.of_nat k)
        with (Z.of_nat i ^ e - 1).
      + rewrite <- Zminus_mod_idemp_l, Hall by lia. reflexivity.
      + replace e with (Z.succ (Z.of_nat k)) by (subst k; lia).
        rewrite Z.pow_succ_r by lia. ring. }
  subst rs. rewrite length_map, length_seq in Hb. subst k. lia.
Qed.

(** ** DSA: the rejection loop and the signing loop *)

Lemma sample_k_range (fuel : nat) (rnd : Rand) (pos n : nat) (qn k : Z)
  (pos' : nat) :
  dsa.sample_k fuel rnd pos n qn = Some (k, pos') -> 1 <= k < qn.
Proof.
  revert pos. induction fuel as [|fuel IH]; intros pos; cbn [dsa.sample_k].
  - discriminate.
  - unfold randomFill.
    destruct (negb (BN_of (map rnd (seq pos n)) =? 0)
              && (BN_of (map rnd (seq pos n)) <? qn)) eqn:E.
    + intros [= <- <-].
      apply andb_true_iff in E. destruct E as [E1 E2].
      apply negb_true_iff, Z.eqb_neq in E1. apply Z.ltb_lt in E2.
      pose proof (BN_of_nonneg (map rnd (seq pos n))). lia.
    + apply IH.
Qed.

(** The draw is by rejection: the value returned is that of the first
    block of [n] bytes, among those read, that lies in [1, qn - 1]. *)
Lemma sample_k_rejection (fuel : nat) (rnd : Rand) (pos n : nat) (qn k : Z)
  (pos' : nat) :
  dsa.sample_k fuel rnd pos n qn = Some (k, pos') ->
  exists j : nat,
    (j < fuel)%nat /\
    pos' = (pos + (j + 1) * n)%nat /\
    k = BN_of (map rnd (seq (pos + j * n) n)) /\
    forall i : nat, (i < j)%nat ->
      ~ (1 <= BN_of (map rnd (seq (pos + i * n) n)) < qn).
Proof.
  revert pos. induction fuel as [|fuel IH]; intros pos; cbn [dsa.sample_k].
  - discriminate.
  - unfold randomFill.
    destruct (negb (BN_of (map rnd (seq pos n)) =? 0)
              && (BN_of (map rnd (seq pos n)) <? qn)) eqn:E.
    + intros [= <- <-]. exists 0%nat.
      rewrite Nat.mul_0_l, Nat.add_0_r, Nat.add_0_l, Nat.mul_1_l.
      repeat split; [lia | intros i Hi; lia].
    + intros H. apply IH in H. destruct H as (j & Hj & Hpos & Hk & Hrej).
      exists (S j). repeat split.
      * lia.
      * rewrite Hpos. lia.
      * rewrite Hk. do 3 f_equal. lia.
      * intros [|i] Hi.
        -- rewrite Nat.mul_0_l, Nat.add_0_r. intros Hr.
           apply andb_false_iff in E. destruct E as [E|E].
           ++ apply negb_false_iff, Z.eqb_eq in E. lia.
           ++ apply Z.ltb_ge in E. lia.
        -- replace (pos + S i * n)%nat with (pos + n + i * n)%nat by lia.
           apply Hrej. lia.
Qed.

(** Every [n]-byte value below [256 ^ n] is the reading of exactly one
    block of [n] bytes: equally likely blocks give equally likely
    values. *)
Lemma block_of_value (n : nat) (v : Z) :
  0 <= v < 256 ^ Z.of_nat n ->
  exists! buf : Buffer, List.length buf = n /\ BN_of buf = v.
Proof.
  intros Hv. exists (be_bytes n v). split.
  - split; [apply length_be_bytes|].
    rewrite BN_of_be_bytes. apply Z.mod_small. exact Hv.
  - intros buf [Hlen Hval]. apply BN_of_inj.
    + rewrite length_be_bytes. congruence.
    + rewrite BN_of_be_bytes, Hval. apply Z.mod_small. exact Hv.
Qed.

(** What [sample_k] returns is the first accepted block. *)
Lemma sample_k_first (fuel : nat) (rnd : Rand) (pos n : nat) (qn k : Z)
  (pos' : nat) :
  dsa.sample_k fuel rnd pos n qn = Some (k, pos') ->
  first_accepted rnd n qn pos k pos'.
Proof.
  intros H. pose proof (sample_k_range _ _ _ _ _ _ _ H) as Hk.
  apply sample_k_rejection in H. destruct H as (j & _ & Hpos & Hkj & Hrej).
  exists j. unfold block. repeat split; try assumption; lia.
Qed.

(** The first steps of a pass: with a [k] in range, [fermatInverse]
    does not throw, and [modPow] throws exactly when [p <= 1]. *)
Lemma pass_inverse {M : Montgomery} (k qn : Z) :
  1 <= k < qn -> fermatInverse k qn = Ok (redPow k (qn - 2) qn).
Proof. intros H. unfold fermatInverse. apply modPow_ok. lia. Qed.

Lemma sign_loop_inv {M : Montgomery} (budget fuel : nat) (rnd : Rand)
  (pos n : nat) (pn qn gn xn : Z) (msg : Buffer) (r0 s0 : Z)
  (st : dsa.LoopState) :
  dsa.sign_loop budget fuel rnd pos n pn qn gn xn msg r0 s0 = Some st ->
  dsa.raised st = None ->
  (List.length (dsa.passes st) + dsa.attempts st <= budget + 1)%nat /\
  Forall (fun a => 1 <= dsa.attempt_k a < qn /\
                   a = pass_of pn qn gn xn (BN_of msg) (dsa.attempt_k a))
         (dsa.passes st) /\
  (dsa.attempts st = 0%nat ->
     List.length (dsa.passes st) = budget /\
     forallb dsa.attempt_failed (dsa.passes st) = true) /\
  (dsa.attempts st <> 0%nat ->
     (List.length (dsa.passes st) <= budget)%nat /\
     exists k, 1 <= k < qn /\
       dsa.loop_r st = pass_r pn qn gn k /\ dsa.loop_r st <> 0 /\
       dsa.loop_s st = pass_s pn qn gn xn (BN_of msg) k /\
       dsa.loop_s st <> 0 /\
       exists before,
         dsa.passes st = before ++ [(k, dsa.loop_r st, Some (dsa.loop_s st))] /\
         forallb dsa.attempt_failed before = true).
Proof.
  revert pos r0 s0 st.
  induction budget as [|budget IH]; intros pos r0 s0 st; cbn [dsa.sign_loop].
  - intros [= <-] _. cbn. repeat split; try lia; try constructor; congruence.
  - destruct (dsa.sample_k fuel rnd pos n qn) as [[k pos1]|] eqn:Ek;
      [|discriminate].
    pose proof (sample_k_range _ _ _ _ _ _ _ Ek) as Hk.
    rewrite (pass_inverse k qn Hk).
    destruct (modPow gn k pn) as [r|e] eqn:Emod;
      [|intros [= <-]; cbn [dsa.raised]; discriminate].
    apply modPow_inv in Emod. destruct Emod as [Hp ->].
    cbv zeta.
    fold (pass_r pn qn gn k).
    destruct (pass_r pn qn gn k =? 0) eqn:Er.
    + (* r = 0: continue *)
      destruct (dsa.sign_loop budget fuel rnd pos1 n pn qn gn xn msg
                  (pass_r pn qn gn k) s0) as [st'|] eqn:Erec; [|discriminate].
      cbn [option_map]. intros [= <-]. unfold dsa.after_pass.
      cbn [dsa.passes dsa.attempts dsa.loop_r dsa.loop_s dsa.cursor
           dsa.raised List.length forallb].
      intros Hraised.
      destruct (IH _ _ _ _ Erec Hraised) as (Hlen & Hall & Hzero & Hpos).
      repeat split.
      * lia.
      * constructor; [|exact Hall].
        cbn. split; [lia|]. unfold pass_of. rewrite Er. reflexivity.
      * destruct (Hzero H). lia.
      * destruct (Hzero H) as [_ Hf]. cbn. rewrite Er. exact Hf.
      * destruct (Hpos H). lia.
      * destruct (Hpos H) as (_ & k' & Hk' & Hr & Hrn & Hs & Hsn & before & Hb & Hf).
        exists k'. repeat split; try assumption; try lia.
        exists ((k, pass_r pn qn gn k, None) :: before). split.
        -- rewrite Hb. reflexivity.
        -- cbn. rewrite Er. exact Hf.
    + fold (pass_s pn qn gn xn (BN_of msg) k).
      destruct (pass_s pn qn gn xn (BN_of msg) k =? 0) eqn:Es; cbn [negb].
      * (* s = 0: next pass *)
        destruct (dsa.sign_loop budget fuel rnd pos1 n pn qn gn xn msg
                    (pass_r pn qn gn k) (pass_s pn qn gn xn (BN_of msg) k))
          as [st'|] eqn:Erec; [|discriminate].
        cbn [option_map]. intros [= <-]. unfold dsa.after_pass.
        cbn [dsa.passes dsa.attempts dsa.loop_r dsa.loop_s dsa.cursor
             dsa.raised List.length forallb].
        intros Hraised.
        destruct (IH _ _ _ _ Erec Hraised) as (Hlen & Hall & Hzero & Hpos).
        repeat split.
        -- lia.
        -- constructor; [|exact Hall].
           cbn. split; [lia|]. unfold pass_of. rewrite Er. reflexivity.
        -- destruct (Hzero H). lia.
        -- destruct (Hzero H) as [_ Hf]. cbn. rewrite Es. exact Hf.
        -- destruct (Hpos H). lia.
        -- destruct (Hpos H) as (_ & k' & Hk' & Hr & Hrn & Hs & Hsn & before & Hb & Hf).
           exists k'. repeat split; try assumption; try lia.
           exists ((k, pass_r pn qn gn k,
                    Some (pass_s pn qn gn xn (BN_of msg) k)) :: before). split.
           ++ rewrite Hb. reflexivity.
           ++ cbn. rewrite Es. exact Hf.
      * (* break *)
        intros [= <-] _. cbn [dsa.passes dsa.attempts dsa.loop_r dsa.loop_s
          dsa.cursor List.length].
        apply Z.eqb_neq in Er, Es.
        repeat split; try lia; try discriminate.
        -- constructor; [|constructor].
           cbn. split; [lia|]. unfold pass_of.
           destruct (pass_r pn qn gn k =? 0) eqn:E; [apply Z.eqb_eq in E; lia|].
           reflexivity.
        -- exists k. repeat split; try assumption; try lia.
           exists []. split; reflexivity.
Qed.

(** The loop is ended by an exception only in its first pass, by the
    assertion of [BN.mont], and only when [p <= 1]; when it is not,
    [p] is above one as soon as a pass was made. *)
Lemma sign_loop_raised {M : Montgomery} (budget fuel : nat) (rnd : Rand)
  (pos n : nat) (pn qn gn xn : Z) (msg : Buffer) (r0 s0 : Z)
  (st : dsa.LoopState) :
  dsa.sign_loop budget fuel rnd pos n pn qn gn xn msg r0 s0 = Some st ->
  match dsa.raised st with
  | Some e =>
      e = AssertionError /\ pn <= 1 /\ dsa.passes st = [] /\
      exists k, first_accepted rnd n qn pos k (dsa.cursor st)
  | None => budget = 0%nat \/ 1 < pn
  end.
Proof.
  revert pos r0 s0 st.
  induction budget as [|budget IH]; intros pos r0 s0 st; cbn [dsa.sign_loop].
  - intros [= <-]. cbn. left. reflexivity.
  - destruct (dsa.sample_k fuel rnd pos n qn) as [[k pos1]|] eqn:Ek;
      [|discriminate].
    pose proof (sample_k_range _ _ _ _ _ _ _ Ek) as Hk.
    pose proof (sample_k_first _ _ _ _ _ _ _ Ek) as Hfirst.
    rewrite (pass_inverse k qn Hk).
    destruct (modPow gn k pn) as [r|e] eqn:Emod.
    + apply modPow_inv in Emod. destruct Emod as [Hp ->]. cbv zeta.
      assert (Hrec : forall r1 s1 a st',
                dsa.sign_loop budget fuel rnd pos1 n pn qn gn xn msg r1 s1
                = Some st' ->
                match dsa.raised (dsa.after_pass a st') with
                | Some e =>
                    e = AssertionError /\ pn <= 1 /\
                    dsa.passes (dsa.after_pass a st') = [] /\
                    exists k, first_accepted rnd n qn pos k
                                (dsa.cursor (dsa.after_pass a st'))
                | None => S budget = 0%nat \/ 1 < pn
                end).
      { intros r1 s1 a st' Hst'. specialize (IH _ _ _ _ Hst').
        cbn [dsa.after_pass dsa.raised].
        destruct (dsa.raised st') as [e|]; [|right; exact Hp].
        destruct IH as (_ & Hle & _). lia. }
      destruct (redPow gn k pn mod qn =? 0).
      * destruct (dsa.sign_loop budget fuel rnd pos1 n pn qn gn xn msg _ s0)
          as [st'|] eqn:Erec; [|discriminate].
        cbn [option_map]. intros [= <-]. exact (Hrec _ _ _ _ Erec).
      * destruct (negb _).
        -- intros [= <-]. cbn. right. exact Hp.
        -- destruct (dsa.sign_loop budget fuel rnd pos1 n pn qn gn xn msg _ _)
             as [st'|] eqn:Erec; [|discriminate].
           cbn [option_map]. intros [= <-]. exact (Hrec _ _ _ _ Erec).
    + apply modPow_throws in Emod. destruct Emod as [Hp ->].
      intros [= <-]. cbn [dsa.raised dsa.passes dsa.cursor].
      repeat split; try assumption. exists k. exact Hfirst.
Qed.

(** The [k] of the passes are drawn by rejection, one after the other,
    from the random source. *)
Lemma sign_loop_draws {M : Montgomery} (budget fuel : nat) (rnd : Rand)
  (pos n : nat) (pn qn gn xn : Z) (msg : Buffer) (r0 s0 : Z)
  (st : dsa.LoopState) :
  dsa.sign_loop budget fuel rnd pos n pn qn gn xn msg r0 s0 = Some st ->
  dsa.raised st = None ->
  sampled_by_rejection rnd n qn pos
    (map dsa.attempt_k (dsa.passes st)) (dsa.cursor st).
Proof.
  revert pos r0 s0 st.
  induction budget as [|budget IH]; intros pos r0 s0 st; cbn [dsa.sign_loop].
  - intros [= <-] _. reflexivity.
  - destruct (dsa.sample_k fuel rnd pos n qn) as [[k pos1]|] eqn:Ek;
      [|discriminate].
    pose proof (sample_k_range _ _ _ _ _ _ _ Ek) as Hk.
    pose proof (sample_k_first _ _ _ _ _ _ _ Ek) as Hfirst.
    rewrite (pass_inverse k qn Hk).
    destruct (modPow gn k pn) as [r|e] eqn:Emod;
      [|intros [= <-]; cbn [dsa.raised]; discriminate].
    cbv zeta.
    assert (Hrec : forall r1 s1 a st',
              dsa.attempt_k a = k ->
              dsa.sign_loop budget fuel rnd pos1 n pn qn gn xn msg r1 s1
              = Some st' ->
              dsa.raised (dsa.after_pass a st') = None ->
              sampled_by_rejection rnd n qn pos
                (map dsa.attempt_k (dsa.passes (dsa.after_pass a st')))
                (dsa.cursor (dsa.after_pass a st'))).
    { intros r1 s1 a st' Ha Hst' Hraised.
      cbn [dsa.after_pass dsa.raised dsa.passes dsa.cursor map] in *.
      rewrite Ha. cbn [sampled_by_rejection].
      exists pos1. split; [exact Hfirst|]. exact (IH _ _ _ _ Hst' Hraised). }
    destruct (r mod qn =? 0).
    + destruct (dsa.sign_loop budget fuel rnd pos1 n pn qn gn xn msg _ s0)
        as [st'|] eqn:Erec; [|discriminate].
      cbn [option_map]. intros [= <-].
      refine (Hrec _ _ _ _ _ Erec). reflexivity.
    + destruct (negb _).
      * intros [= <-] _. cbn [dsa.passes dsa.cursor map dsa.attempt_k fst
          sampled_by_rejection].
        exists pos1. split; [exact Hfirst|reflexivity].
      * destruct (dsa.sign_loop budget fuel rnd pos1 n pn qn gn xn msg _ _)
          as [st'|] eqn:Erec; [|discriminate].
        cbn [option_map]. intros [= <-].
      refine (Hrec _ _ _ _ _ Erec). reflexivity.
Qed.

(** ** DSA: the algebra of signing and verifying *)

Lemma fermatInverse_spec (k q : Z) :
  Z.prime q -> 1 <= k < q -> (k ^ (q - 2) mod q * k) mod q = 1.
Proof.
  intros Hq Hk. pose proof (Z.prime_ge_2 q Hq) as Hq2.
  rewrite Z.mul_mod_idemp_l by lia.
  replace (k ^ (q - 2) * k) with (k ^ (q - 1)).
  - apply Z.fermat_nz; [exact Hq|]. rewrite Z.mod_small by lia. lia.
  - replace (q - 1) with (Z.succ (q - 2)) by lia.
    rewrite Z.pow_succ_r by lia. ring.
Qed.

Lemma invm_spec (s q : Z) :
  Z.prime q -> 1 <= s < q -> (invm s q * s) mod q = 1 /\ 0 <= invm s q < q.
Proof.
  intros Hq Hs. pose proof (Z.prime_ge_2 q Hq) as Hq2. split.
  - apply Z.invmod_prime; [exact Hq|]. rewrite Z.mod_small by lia. lia.
  - unfold invm. rewrite <- Z.mod_invmod. apply Z.mod_pos_bound. lia.
Qed.

Lemma mod_mul_congr (a b c q : Z) :
  a mod q = b mod q -> (a * c) mod q = (b * c) mod q.
Proof.
  intros H. destruct (Z.eq_dec q 0) as [->|Hq].
  - rewrite !Z.mod_0_r in *. congruence.
  - rewrite <- (Z.mul_mod_idemp_l a), <- (Z.mul_mod_idemp_l b), H by lia.
    reflexivity.
Qed.

(** The exponent the verifier rebuilds is the signer's [k] modulo [q]. *)
Lemma exponent_recovered (q x r z k ki w s : Z) :
  0 < q ->
  (ki * k) mod q = 1 ->
  s = ((x * r + z) mod q * ki) mod q ->
  (w * s) mod q = 1 ->
  ((z * w) mod q + x * ((r * w) mod q)) mod q = k mod q.
Proof.
  intros Hq Hki Hs Hw.
  set (A := x * r + z) in *.
  (* s is A * ki modulo q *)
  assert (Hs' : s mod q = (A * ki) mod q).
  { rewrite Hs, Z.mod_mod, Z.mul_mod_idemp_l by lia. reflexivity. }
  (* so w * A * ki is one modulo q *)
  assert (Hws : (w * A * ki) mod q = 1 mod q).
  { rewrite (Z.mod_small 1 q) by (pose proof (Z.mod_pos_bound (w * s) q Hq); lia).
    rewrite <- Hw.
    replace (w * A * ki) with ((A * ki) * w) by ring.
    replace (w * s) with (s * w) by ring.
    apply mod_mul_congr. symmetry. exact Hs'. }
  (* the left-hand side is w * A modulo q *)
  assert (Hlhs : ((z * w) mod q + x * ((r * w) mod q)) mod q = (w * A) mod q).
  { rewrite Z.add_mod_idemp_l by lia.
    rewrite (Z.add_mod (z * w) (x * ((r * w) mod q))) by lia.
    rewrite Z.mul_mod_idemp_r by lia.
    rewrite <- Z.add_mod by lia.
    f_equal. subst A. ring. }
  rewrite Hlhs.
  (* multiply w * A * ki = 1 by k *)
  apply (mod_mul_congr _ _ k) in Hws.
  replace (w * A * ki * k) with ((ki * k) * (w * A)) in Hws by ring.
  rewrite <- Z.mul_mod_idemp_l, Hki in Hws by lia.
  rewrite !Z.mul_1_l in Hws. exact Hws.
Qed.

Lemma dsa_equation {M : Montgomery} (p q g x z k : Z) :
  Z.prime q -> Z.odd q = true -> 1 < p -> Z.odd p = true ->
  g ^ q mod p = 1 -> 0 <= x -> 0 <= z ->
  1 <= k < q ->
  let r := pass_r p q g k in
  let s := pass_s p q g x z k in
  s <> 0 ->
  let w := invm s q in
  let u1 := (z * w) mod q in
  let u2 := (r * w) mod q in
  ((redPow g u1 p * redPow (g ^ x mod p) u2 p) mod p) mod q = r.
Proof.
  intros Hq Hqodd Hp Hpodd Hg Hx Hz Hk r s Hs w u1 u2.
  pose proof (Z.prime_ge_2 q Hq) as Hq2.
  assert (Hsr : 1 <= s < q).
  { subst s. unfold pass_s in *.
    match goal with |- _ <= ?a mod q < _ =>
      pose proof (Z.mod_pos_bound a q ltac:(lia)) end.
    unfold pass_s in Hs. lia. }
  destruct (invm_spec s q Hq Hsr) as [Hw Hwr]. fold w in Hw, Hwr.
  pose proof (fermatInverse_spec k q Hq Hk) as Hki.
  assert (Hu1 : 0 <= u1 < q) by (apply Z.mod_pos_bound; lia).
  assert (Hu2 : 0 <= u2 < q) by (apply Z.mod_pos_bound; lia).
  rewrite !redPow_odd by exact Hpodd.
  rewrite Z.mod_pow_l.
  rewrite <- Z.mul_mod by lia.
  rewrite <- Z.pow_mul_r, <- Z.pow_add_r by lia.
  transitivity (pass_r p q g k); [|reflexivity].
  unfold pass_r. rewrite redPow_odd by exact Hpodd.
  f_equal.
  apply (pow_mod_congr g q p); try lia.
  subst u1 u2.
  apply (exponent_recovered q x r z k (k ^ (q - 2) mod q) w s);
    try assumption; try lia.
  subst s. unfold pass_s. rewrite redPow_odd by exact Hqodd. reflexivity.
Qed.

(** ** DSA: [sign] and [verify] *)

(** What [sign_run] returns, read off its definition. *)
Lemma sign_run_cases {M : Montgomery} (fuel : nat) (rnd : Rand) (pos : nat)
  (msg : Buffer) (key : dsakey.DSAPrivateKey)
  (res : Result dsasig.DSASignature) (tr : list dsa.Attempt) (pos' : nat) :
  dsa.sign_run fuel rnd pos msg key = Some (res, tr, pos') ->
  let pn := BN_of (dsakey.p key) in
  let qn := BN_of (dsakey.q key) in
  let gn := BN_of (dsakey.g key) in
  let xn := BN_of (dsakey.x key) in
  (res = Throw InvalidKey /\ tr = [] /\ pos' = pos /\
   (qn <= 0 \/ pn <= 0 \/ gn <= 0 \/ xn <= 0 \/
    Z.land (bitLength qn) 7 <> 0))
  \/
  (0 < qn /\ 0 < pn /\ 0 < gn /\ 0 < xn /\ Z.land (bitLength qn) 7 = 0 /\
   exists st,
     dsa.sign_loop 10 fuel rnd pos (Z.to_nat (Z.shiftr (bitLength qn) 3))
       pn qn gn xn msg 0 0 = Some st /\
     tr = dsa.passes st /\ pos' = dsa.cursor st /\
     ((exists e, dsa.raised st = Some e /\ res = Throw e) \/
      (dsa.raised st = None /\ dsa.attempts st = 0%nat /\
       res = Throw CouldNotSign) \/
      (dsa.raised st = None /\ dsa.attempts st <> 0%nat /\
       res = (sig <- dsasig.setR (dsasig.new_DSASignature (dsakey.size key))
                       (toBuffer (dsa.loop_r st)) ;;
              dsasig.setS sig (toBuffer (dsa.loop_s st)))))).
Proof.
  unfold dsa.sign_run. cbv zeta.
  set (pn := BN_of (dsakey.p key)). set (qn := BN_of (dsakey.q key)).
  set (gn := BN_of (dsakey.g key)). set (xn := BN_of (dsakey.x key)).
  destruct ((qn <=? 0) || (pn <=? 0) || (gn <=? 0) || (xn <=? 0)
            || negb (Z.land (bitLength qn) 7 =? 0)) eqn:Echk.
  - intros [= <- <- <-]. left. repeat split.
    rewrite !orb_true_iff, negb_true_iff, !Z.leb_le, Z.eqb_neq in Echk.
    tauto.
  - rewrite !orb_false_iff, negb_false_iff, !Z.leb_gt, Z.eqb_eq in Echk.
    destruct Echk as ((((Hq & Hp) & Hg) & Hx) & Hn).
    destruct (dsa.sign_loop 10 fuel rnd pos _ pn qn gn xn msg 0 0)
      as [st|] eqn:Eloop; [|discriminate].
    intros H.
    right. repeat split; try lia. exists st.
    destruct (dsa.raised st) as [e|].
    + injection H as <- <- <-. repeat split. left. exists e. auto.
    + destruct (Nat.eqb_spec (dsa.attempts st) 0) as [Ez|Enz].
      * injection H as <- <- <-. repeat split. right. left. auto.
      * injection H as <- <- <-. repeat split. right. right. auto.
Qed.

(** The signature [sign] builds from the loop's [r] and [s]. *)
Lemma signature_built (size r s : Z) (sig : dsasig.DSASignature) :
  0 <= r -> 0 <= s ->
  (sg <- dsasig.setR (dsasig.new_DSASignature size) (toBuffer r) ;;
   dsasig.setS sg (toBuffer s)) = Ok sig ->
  BN_of (dsasig.r sig) = r /\ BN_of (dsasig.s sig) = s /\
  List.length (dsasig.r sig) = Z.to_nat size /\
  List.length (dsasig.s sig) = Z.to_nat size /\
  exists tr ts,
    dsasig.r sig = alloc (Z.to_nat size - List.length tr) ++ tr /\
    dsasig.s sig = alloc (Z.to_nat size - List.length ts) ++ ts /\
    BN_of tr = r /\ BN_of ts = s /\
    (byteLength r <= size -> tr = toBuffer r) /\
    (byteLength s <= size -> ts = toBuffer s).
Proof.
  intros Hr Hs. unfold dsasig.setR, dsasig.setS, dsasig.new_DSASignature.
  cbn [dsasig.size dsasig.r dsasig.s].
  destruct (leftPad (toBuffer r) (Z.to_nat size)) as [pr|] eqn:Er;
    cbn [bind dsasig.size dsasig.r dsasig.s]; [|discriminate].
  destruct (leftPad (toBuffer s) (Z.to_nat size)) as [ps|] eqn:Es;
    cbn [bind]; [|discriminate].
  intros [= <-]. cbn [dsasig.r dsasig.s].
  apply leftPad_ok in Er, Es. cbv zeta in Er, Es.
  destruct Er as (Hr1 & _ & Hr3 & Hr4 & Hr5).
  destruct Es as (Hs1 & _ & Hs3 & Hs4 & Hs5).
  rewrite BN_of_toBuffer in Hr3, Hr5, Hs3, Hs5 by assumption.
  repeat split; try assumption.
  eexists _, _. split; [exact Hr1|]. split; [exact Hs1|].
  repeat split; try assumption.
  - intros Hb. rewrite length_toBuffer.
    destruct (Nat.ltb_spec (Z.to_nat size) (Z.to_nat (byteLength r)));
      [lia | reflexivity].
  - intros Hb. rewrite length_toBuffer.
    destruct (Nat.ltb_spec (Z.to_nat size) (Z.to_nat (byteLength s)));
      [lia | reflexivity].
Qed.

Lemma byteLength_mono (a b : Z) : 0 <= a <= b -> byteLength a <= byteLength b.
Proof.
  intros H. apply byteLength_le; [apply byteLength_nonneg|].
  pose proof (byteLength_upper b ltac:(lia)). lia.
Qed.

Lemma no_divisor_sound (n : nat) (d p : Z) :
  0 < d -> no_divisor n d p = true ->
  forall m, d <= m < d + Z.of_nat n -> ~ (m | p).
Proof.
  revert d. induction n as [|n IH]; intros d Hd H m Hm.
  - lia.
  - cbn [no_divisor] in H. apply andb_true_iff in H. destruct H as [H1 H2].
    destruct (Z.eq_dec m d) as [->|Hne].
    + apply negb_true_iff, Z.eqb_neq in H1. intros Hdiv.
      apply Z.mod_divide in Hdiv; lia.
    + apply (IH (d + 1)); [lia | exact H2 | lia].
Qed.

Lemma prime_by_trial_sound (p : Z) : prime_by_trial p = true -> Z.prime p.
Proof.
  unfold prime_by_trial. intros H.
  apply andb_true_iff in H. destruct H as [H1 H2]. apply Z.ltb_lt in H1.
  split; [exact H1|]. intros m Hm.
  apply (no_divisor_sound _ 2 p ltac:(lia) H2). lia.
Qed.

Lemma toy_key_invariants : key_invariants toy_key.
Proof.
  unfold key_invariants. cbv zeta.
  split; [apply prime_by_trial_sound; vm_compute; reflexivity|].
  split; [apply prime_by_trial_sound; vm_compute; reflexivity|].
  split; [vm_compute; reflexivity|].
  split; [exists 2; vm_compute; reflexivity|].
  split; [split; vm_compute; reflexivity|].
  split; [vm_compute; reflexivity|].
  split; [split; vm_compute; reflexivity|].
  vm_compute; reflexivity.
Qed.

(** The moduli of a valid key are odd (and so accepted by [modPow]):
    [q] is a prime other than 2, whose bit length is no multiple of
    eight, and [p - 1] is a positive multiple of [q]. *)
Lemma valid_key_moduli (pn qn : Z) :
  Z.prime pn -> Z.prime qn -> Z.land (bitLength qn) 7 = 0 ->
  (qn | pn - 1) ->
  2 < qn /\ Z.odd qn = true /\ 2 < pn /\ Z.odd pn = true.
Proof.
  intros Hp Hq Hbits [c Hc].
  pose proof (Z.prime_ge_2 pn Hp) as Hp2.
  pose proof (Z.prime_ge_2 qn Hq) as Hq2.
  assert (Hq3 : 2 < qn).
  { destruct (Z.eq_dec qn 2) as [->|]; [vm_compute in Hbits; discriminate|lia]. }
  assert (Hc0 : 0 < c).
  { destruct (Z.lt_ge_cases 0 c) as [|Hneg]; [assumption|].
    pose proof (Z.mul_nonpos_nonneg c qn Hneg ltac:(lia)). lia. }
  assert (Hp3 : 2 < pn).
  { pose proof (Z.mul_le_mono_nonneg_r 1 c qn ltac:(lia) ltac:(lia)). lia. }
  repeat split; try assumption; apply odd_prime; assumption.
Qed.

(** C5.  [verify] returns false whenever [r = 0], [s = 0], [r >= q] or
    [s >= q]: verification proceeds only for [0 < r < q] and
    [0 < s < q]. *)
Theorem verify_rejects_out_of_range {M : Montgomery} (msg : Buffer)
  (sig : dsasig.DSASignature) (key : dsakey.DSAKey) :
  let qn := BN_of (dsakey.q key) in
  let rn := BN_of (dsasig.r sig) in
  let sn := BN_of (dsasig.s sig) in
  rn = 0 \/ sn = 0 \/ rn >= qn \/ sn >= qn ->
  dsa.verify msg sig key = Ok false.
Proof.
  intros qn rn sn H. unfold dsa.verify. cbv zeta.
  fold qn rn sn.
  destruct (BN_of (dsakey.p key) =? 0); [reflexivity|].
  destruct (Z.eqb_spec rn 0) as [Hr0|Hr0]; [reflexivity|].
  destruct (Z.geb_spec rn qn) as [Hrq|Hrq]; [reflexivity|].
  cbn [orb].
  destruct (Z.eqb_spec sn 0) as [Hs0|Hs0]; [reflexivity|].
  destruct (Z.geb_spec sn qn) as [Hsq|Hsq]; [reflexivity|].
  exfalso. lia.
Qed.

(** At [r = 0] (and at [r = q], [s = 0], [s = q]) the toy public key
    rejects. *)
Lemma verify_rejects_out_of_range_witness :
  dsa.verify (M := zero_on_even) [x42] (dsasig.mkDSASignature 1 [x00] [x09])
    (dsakey.toPublic toy_key) = Ok false.
Proof.
  apply (verify_rejects_out_of_range (M := zero_on_even) [x42]
           (dsasig.mkDSASignature 1 [x00] [x09]) (dsakey.toPublic toy_key)).
  left. reflexivity.
Defined.

(** The loop's [r] and [s] lie strictly between 0 and [q]. *)
Lemma pass_ranges {M : Montgomery} (pn qn gn xn z k : Z) :
  0 < qn -> pass_r pn qn gn k <> 0 -> pass_s pn qn gn xn z k <> 0 ->
  0 < pass_r pn qn gn k < qn /\ 0 < pass_s pn qn gn xn z k < qn.
Proof.
  intros Hq Hr Hs. unfold pass_r, pass_s in *.
  split.
  - pose proof (Z.mod_pos_bound (redPow gn k pn) qn Hq). lia.
  - match goal with |- _ < ?a mod qn < _ =>
      pose proof (Z.mod_pos_bound a qn Hq) end. lia.
Qed.

(** C1.  For every valid private key and every message (in particular
    every message of N bits), a signature that [sign] returns is
    accepted by [verify] under the public key [toPublic] extracts. *)
Theorem sign_then_verify {M : Montgomery} (fuel : nat) (rnd : Rand) (pos : nat)
  (msg : Buffer) (key : dsakey.DSAPrivateKey) (sig : dsasig.DSASignature) :
  key_invariants key ->
  dsa.sign fuel rnd pos msg key = Some (Ok sig) ->
  dsa.verify msg sig (dsakey.toPublic key) = Ok true.
Proof.
  intros (Hpprime & Hprime & Hbits & Hdiv & Hgr & Hg & Hxr & Hy) Hsign.
  destruct (valid_key_moduli _ _ Hpprime Hprime Hbits Hdiv)
    as (Hq3 & Hqodd & Hp3 & Hpodd).
  unfold dsa.sign in Hsign.
  destruct (dsa.sign_run fuel rnd pos msg key) as [[[res tr] pos']|] eqn:Erun;
    [|discriminate].
  cbn in Hsign. injection Hsign as ->.
  apply sign_run_cases in Erun. cbv zeta in Erun.
  destruct Erun as [(Hres & _) | (Hq & Hp & Hgp & Hx & Hn & st & Hloop & _ & _ & Hres)];
    [discriminate|].
  destruct Hres as [(e & _ & Hres) | [(_ & _ & Hres) | (Hnone & Hatt & Hres)]];
    [discriminate|discriminate|].
  apply sign_loop_inv in Hloop; [|exact Hnone].
  destruct Hloop as (_ & _ & _ & Hok).
  destruct (Hok Hatt) as (_ & k & Hk & Hr & Hrn & Hs & Hsn & _).
  rewrite Hr in Hrn. rewrite Hs in Hsn.
  destruct (pass_ranges _ _ _ _ _ _ Hq Hrn Hsn) as [Hrr Hsr].
  symmetry in Hres. apply signature_built in Hres; [|lia|lia].
  destruct Hres as (Hsigr & Hsigs & _).
  rewrite Hr in Hsigr. rewrite Hs in Hsigs.
  unfold dsa.verify, dsakey.toPublic. cbv zeta.
  cbn [dsakey.p dsakey.q dsakey.g dsakey.y dsakey.params].
  rewrite Hsigr, Hsigs.
  destruct (Z.eqb_spec (BN_of (dsakey.p key)) 0) as [Hp0|_]; [lia|].
  destruct (Z.eqb_spec (pass_r (BN_of (dsakey.p key)) (BN_of (dsakey.q key))
                          (BN_of (dsakey.g key)) k) 0) as [E|_]; [lia|].
  destruct (Z.geb_spec (pass_r (BN_of (dsakey.p key)) (BN_of (dsakey.q key))
                          (BN_of (dsakey.g key)) k) (BN_of (dsakey.q key)))
    as [E|_]; [lia|].
  cbn [orb].
  destruct (Z.eqb_spec (pass_s (BN_of (dsakey.p key)) (BN_of (dsakey.q key))
                          (BN_of (dsakey.g key)) (BN_of (dsakey.x key))
                          (BN_of msg) k) 0) as [E|_]; [lia|].
  destruct (Z.geb_spec (pass_s (BN_of (dsakey.p key)) (BN_of (dsakey.q key))
                          (BN_of (dsakey.g key)) (BN_of (dsakey.x key))
                          (BN_of msg) k) (BN_of (dsakey.q key)))
    as [E|_]; [lia|].
  cbn [orb].
  rewrite Hn. cbn [Z.eqb negb].
  rewrite !modPow_ok by lia. cbn [bind].
  f_equal. apply Z.eqb_eq.
  rewrite Hy.
  apply dsa_equation; try assumption; try lia.
  - apply BN_of_nonneg.
Qed.

(** The toy key signs the message 0x42 with [k = 7], and the
    signature verifies. *)
Lemma sign_then_verify_witness :
  key_invariants toy_key /\
  dsa.sign (M := zero_on_even) 1 (constant_rand x07) 0 [x42] toy_key
    = Some (Ok (dsasig.mkDSASignature 1 [x4e] [x09])) /\
  dsa.verify (M := zero_on_even) [x42] (dsasig.mkDSASignature 1 [x4e] [x09])
    (dsakey.toPublic toy_key) = Ok true.
Proof.
  split; [exact toy_key_invariants|].
  split; [vm_compute; reflexivity|].
  apply (sign_then_verify (M := zero_on_even) 1 (constant_rand x07) 0 [x42]
           toy_key).
  - exact toy_key_invariants.
  - vm_compute. reflexivity.
Defined.

(** ** DSA: the retry budget and the width of signatures *)

Lemma land7_shiftr3 (x : Z) : Z.land x 7 = 0 -> x = 8 * Z.shiftr x 3.
Proof.
  intros H. change 7 with (Z.ones 3) in H.
  rewrite Z.land_ones in H by lia. rewrite Z.shiftr_div_pow2 by lia.
  change (2 ^ 3) with 8 in *.
  pose proof (Z.div_mod x 8 ltac:(lia)). lia.
Qed.

(** With the bit length of [q] a multiple of eight, the blocks drawn
    cover every value below [q]. *)
Lemma q_below_block (qn : Z) :
  0 < qn -> Z.land (bitLength qn) 7 = 0 ->
  qn < 256 ^ Z.of_nat (Z.to_nat (Z.shiftr (bitLength qn) 3)).
Proof.
  intros Hq Hn. pose proof (land7_shiftr3 _ Hn) as E.
  pose proof (bitLength_nonneg qn).
  assert (0 <= Z.shiftr (bitLength qn) 3) by (apply Z.shiftr_nonneg; lia).
  rewrite Z2Nat.id by lia. rewrite pow256 by lia. rewrite <- E.
  apply bitLength_upper. lia.
Qed.

(** Values below [q] fit the signature container built for [q]. *)
Lemma signature_fits (qn r s : Z) (key : dsakey.DSAPrivateKey) :
  qn = BN_of (dsakey.q key) -> 0 < r < qn -> 0 < s < qn ->
  exists sig,
    (sg <- dsasig.setR (dsasig.new_DSASignature (dsakey.size key))
             (toBuffer r) ;;
     dsasig.setS sg (toBuffer s)) = Ok sig.
Proof.
  intros Hq Hr Hs.
  assert (Hsize : dsakey.size key = byteLength qn)
    by (rewrite Hq; apply size_spec).
  pose proof (byteLength_mono r qn ltac:(lia)).
  pose proof (byteLength_mono s qn ltac:(lia)).
  pose proof (byteLength_nonneg r). pose proof (byteLength_nonneg s).
  unfold dsasig.setR, dsasig.setS, dsasig.new_DSASignature.
  cbn [dsasig.size dsasig.r dsasig.s].
  rewrite leftPad_fits by (rewrite length_toBuffer; lia).
  cbn [bind dsasig.size dsasig.r dsasig.s].
  rewrite leftPad_fits by (rewrite length_toBuffer; lia).
  cbn [bind]. eexists. reflexivity.
Qed.

(** The loop stops at its first pass when that pass gives non-zero [r]
    and [s]. *)
Lemma sign_loop_first_pass {M : Montgomery} (budget fuel : nat) (rnd : Rand)
  (pos n : nat) (pn qn gn xn : Z) (msg : Buffer) (r0 s0 k : Z) (pos1 : nat) :
  dsa.sample_k fuel rnd pos n qn = Some (k, pos1) ->
  1 < pn ->
  pass_r pn qn gn k <> 0 ->
  pass_s pn qn gn xn (BN_of msg) k <> 0 ->
  dsa.sign_loop (S budget) fuel rnd pos n pn qn gn xn msg r0 s0
  = Some (dsa.mkLoopState (S budget) (pass_r pn qn gn k)
            (pass_s pn qn gn xn (BN_of msg) k)
            [(k, pass_r pn qn gn k, Some (pass_s pn qn gn xn (BN_of msg) k))]
            pos1 None).
Proof.
  intros Hk Hp Hr Hs. cbn [dsa.sign_loop]. rewrite Hk.
  rewrite (pass_inverse k qn (sample_k_range _ _ _ _ _ _ _ Hk)).
  rewrite (modPow_ok gn k pn Hp). cbv zeta.
  fold (pass_r pn qn gn k). fold (pass_s pn qn gn xn (BN_of msg) k).
  destruct (Z.eqb_spec (pass_r pn qn gn k) 0); [contradiction|].
  destruct (Z.eqb_spec (pass_s pn qn gn xn (BN_of msg) k) 0);
    [contradiction|].
  reflexivity.
Qed.

(** [sign] returns a signature as soon as the first [k] drawn gives
    non-zero [r] and [s]. *)
Lemma sign_first_pass {M : Montgomery} (fuel : nat) (rnd : Rand) (pos : nat)
  (msg : Buffer) (key : dsakey.DSAPrivateKey) (k : Z) (pos1 : nat) :
  let pn := BN_of (dsakey.p key) in
  let qn := BN_of (dsakey.q key) in
  let gn := BN_of (dsakey.g key) in
  let xn := BN_of (dsakey.x key) in
  0 < qn -> 1 < pn -> 0 < gn -> 0 < xn ->
  Z.land (bitLength qn) 7 = 0 ->
  dsa.sample_k fuel rnd pos (Z.to_nat (Z.shiftr (bitLength qn) 3)) qn
    = Some (k, pos1) ->
  pass_r pn qn gn k <> 0 ->
  pass_s pn qn gn xn (BN_of msg) k <> 0 ->
  exists sig,
    dsa.sign fuel rnd pos msg key = Some (Ok sig) /\
    BN_of (dsasig.r sig) = pass_r pn qn gn k /\
    BN_of (dsasig.s sig) = pass_s pn qn gn xn (BN_of msg) k.
Proof.
  intros pn qn gn xn Hq Hp Hg Hx Hn Hk Hr Hs.
  destruct (pass_ranges _ _ _ _ _ _ Hq Hr Hs) as [Hrr Hsr].
  destruct (signature_fits qn _ _ key eq_refl Hrr Hsr) as [sig Hsig].
  exists sig.
  pose proof Hsig as Hbuilt. apply signature_built in Hbuilt; [|lia|lia].
  destruct Hbuilt as (Hvr & Hvs & _).
  split; [|split; assumption].
  unfold dsa.sign, dsa.sign_run. cbv zeta. fold pn qn gn xn.
  destruct (Z.leb_spec qn 0); [lia|]. destruct (Z.leb_spec pn 0); [lia|].
  destruct (Z.leb_spec gn 0); [lia|]. destruct (Z.leb_spec xn 0); [lia|].
  rewrite Hn. cbn [orb negb Z.eqb].
  rewrite (sign_loop_first_pass 9 fuel rnd pos _ pn qn gn xn msg 0 0 k pos1
             Hk Hp Hr Hs).
  cbn [dsa.attempts dsa.loop_r dsa.loop_s dsa.passes dsa.cursor dsa.raised
       Nat.eqb option_map fst].
  rewrite Hsig. reflexivity.
Qed.

(** C6.  [sign] makes at most ten passes of its loop; it fails with
    'Could not sign.' exactly when it made ten passes and each gave
    [r = 0] or [s = 0]; every pass works from a [k] in [1, q - 1].  The
    [k]s are drawn by rejection from the random source: each is the
    reading of the first block of [bitLength(q) / 8] bytes, after the
    blocks read before, whose value lies in [1, q - 1], and each value
    of [1, q - 1] is the reading of exactly one block, so that uniform
    bytes give a uniform [k].  (With [p = 1] the first pass draws its
    [k] the same way and then ends in the assertion of [BN.mont].) *)
Theorem sign_retry_budget {M : Montgomery} (fuel : nat) (rnd : Rand)
  (pos : nat) (msg : Buffer) (key : dsakey.DSAPrivateKey)
  (res : Result dsasig.DSASignature) (tr : list dsa.Attempt) (pos' : nat) :
  dsa.sign_run fuel rnd pos msg key = Some (res, tr, pos') ->
  let pn := BN_of (dsakey.p key) in
  let qn := BN_of (dsakey.q key) in
  let gn := BN_of (dsakey.g key) in
  let xn := BN_of (dsakey.x key) in
  let n := Z.to_nat (Z.shiftr (bitLength qn) 3) in
  (List.length tr <= 10)%nat /\
  (res = Throw CouldNotSign <->
   List.length tr = 10%nat /\ forallb dsa.attempt_failed tr = true) /\
  Forall (fun a => 1 <= dsa.attempt_k a < qn /\
                   a = pass_of pn qn gn xn (BN_of msg) (dsa.attempt_k a)) tr /\
  (res <> Throw InvalidKey ->
   (forall v, 1 <= v < qn ->
      exists! buf : Buffer, List.length buf = n /\ BN_of buf = v) /\
   (1 < pn ->
      sampled_by_rejection rnd n qn pos (map dsa.attempt_k tr) pos') /\
   (pn <= 1 ->
      res = Throw AssertionError /\ tr = [] /\
      exists k, first_accepted rnd n qn pos k pos')).
Proof.
  intros Hrun pn qn gn xn n.
  apply sign_run_cases in Hrun. cbv zeta in Hrun. fold pn qn gn xn in Hrun.
  destruct Hrun as [(Hres & Htr & _)
                   | (Hq & Hp & Hg & Hx & Hn & st & Hloop & Htr & Hpos' & Hres)].
  - subst res tr. cbn [List.length].
    split; [lia|].
    split; [split; [discriminate | intros [H _]; discriminate H]|].
    split; [constructor|]. intros H. congruence.
  - fold n in Hloop.
    assert (Huniform : forall v, 1 <= v < qn ->
              exists! buf : Buffer, List.length buf = n /\ BN_of buf = v).
    { intros v Hv. apply block_of_value.
      pose proof (q_below_block qn Hq Hn). fold n in H. lia. }
    pose proof (sign_loop_raised _ _ _ _ _ _ _ _ _ _ _ _ _ Hloop) as Hraised.
    destruct Hres as [(e & He & Hres) | Hres].
    + (* the first pass ended in an exception *)
      rewrite He in Hraised.
      destruct Hraised as (-> & Hp1 & Hnil & k & Hfirst).
      rewrite Hnil in Htr. subst tr pos'. cbn [List.length].
      split; [lia|].
      split; [split; [rewrite Hres; discriminate
                     | intros [H _]; discriminate H]|].
      split; [constructor|]. intros _.
      split; [exact Huniform|].
      split; [intros H; lia|]. intros _.
      split; [exact Hres|]. split; [reflexivity|]. exists k. exact Hfirst.
    + assert (Hnone : dsa.raised st = None) by (destruct Hres as [H|H]; apply H).
      rewrite Hnone in Hraised.
      assert (Hp1 : 1 < pn) by (destruct Hraised; [discriminate | assumption]).
      pose proof (sign_loop_draws _ _ _ _ _ _ _ _ _ _ _ _ _ Hloop Hnone)
        as Hdraws.
      apply sign_loop_inv in Hloop; [|exact Hnone].
      destruct Hloop as (Hlen & Hall & Hzero & Hpos). subst tr pos'.
      assert (Hrest : res <> Throw InvalidKey ->
                (forall v, 1 <= v < qn ->
                   exists! buf : Buffer, List.length buf = n /\ BN_of buf = v) /\
                (1 < pn ->
                   sampled_by_rejection rnd n qn pos
                     (map dsa.attempt_k (dsa.passes st)) (dsa.cursor st)) /\
                (pn <= 1 ->
                   res = Throw AssertionError /\ dsa.passes st = [] /\
                   exists k, first_accepted rnd n qn pos k (dsa.cursor st))).
      { intros _. split; [exact Huniform|].
        split; [intros _; exact Hdraws | intros H; lia]. }
      destruct Hres as [(_ & Hatt & Hres) | (_ & Hatt & Hres)].
      * destruct (Hzero Hatt) as [Hten Hfail].
        split; [lia|].
        split; [split; [intros _; split; assumption | intros _; exact Hres]|].
        split; [exact Hall | exact Hrest].
      * destruct (Hpos Hatt)
          as (Hle & k & Hk & Hr & Hrn & Hs & Hsn & before & Hb & Hbf).
        rewrite Hr in Hrn. rewrite Hs in Hsn.
        destruct (pass_ranges _ _ _ _ _ _ Hq Hrn Hsn) as [Hrr Hsr].
        rewrite <- Hr in Hrr. rewrite <- Hs in Hsr.
        destruct (signature_fits qn _ _ key eq_refl Hrr Hsr) as [sig Hsig].
        rewrite Hsig in Hres.
        split; [lia|].
        split; [|split; [exact Hall | exact Hrest]].
        split.
        -- subst res. discriminate.
        -- intros [_ Hfail]. exfalso.
           rewrite Hb, forallb_app in Hfail.
           apply andb_true_iff in Hfail. destruct Hfail as [_ Hlast].
           cbn in Hlast. rewrite andb_true_r in Hlast.
           apply Z.eqb_eq in Hlast. lia.
Qed.

(** With [g = q] and a random source that always yields [k = 1], every
    pass has [r = 0]: ten passes are made, each from one block of the
    source, and [sign] gives up. *)
Lemma sign_retry_budget_witness :
  dsa.sign_run (M := zero_on_even) 1 (constant_rand x01) 0 [x42] stuck_key
    = Some (Throw CouldNotSign, repeat (1, 0, None) 10, 10%nat) /\
  (List.length (repeat (1, 0, @None Z) 10) <= 10)%nat /\
  sampled_by_rejection (constant_rand x01) 1 (BN_of (dsakey.q stuck_key)) 0
    (repeat 1 10) 10.
Proof.
  split; [vm_compute; reflexivity|].
  pose proof (sign_retry_budget (M := zero_on_even) 1 (constant_rand x01) 0
                [x42] stuck_key (Throw CouldNotSign) (repeat (1, 0, None) 10)
                10%nat ltac:(vm_compute; reflexivity)) as H.
  cbv zeta in H. destruct H as (Hlen & _ & _ & Hdraw).
  split; [exact Hlen|].
  destruct (Hdraw ltac:(discriminate)) as (_ & Hs & _).
  apply Hs. vm_compute. reflexivity.
Defined.




(** ** base64-url: encoding, decoding and padding *)

Lemma sextet_char_roundtrip (v : Z) :
  0 <= v < 64 ->
  base64.sextet_of_char (base64.char_of_sextet v) = Some v.
Proof.
  intros Hv.
  assert (H : forall n : nat, (n < 64)%nat ->
            base64.sextet_of_char (base64.char_of_sextet (Z.of_nat n))
            = Some (Z.of_nat n)).
  { intros n Hn.
    do 64 (destruct n as [|n]; [vm_compute; reflexivity|]). lia. }
  rewrite <- (Z2Nat.id v) by lia. apply H. lia.
Qed.

(** The padding character is not in the table. *)
Lemma equals_sign_foreign : base64.sextet_of_char "="%char = None.
Proof. vm_compute. reflexivity. Qed.

Lemma sextets_in_range (buf : Buffer) :
  Forall (fun v => 0 <= v < 64) (base64.sextets_of_bytes buf).
Proof.
  assert (H : forall (n : nat) (b : Buffer), (List.length b <= n)%nat ->
            Forall (fun v => 0 <= v < 64) (base64.sextets_of_bytes b)).
  { induction n as [|n IH]; intros b Hlen.
    - destruct b; [constructor | cbn in Hlen; lia].
    - destruct b as [|b0 [|b1 [|b2 rest]]]; cbn [base64.sextets_of_bytes].
      + constructor.
      + pose proof (u8_range b0).
        repeat constructor; try (apply Z.mod_pos_bound; lia);
          try (apply Z.div_pos; lia); try (apply Z.div_lt_upper_bound; lia).
      + pose proof (u8_range b0). pose proof (u8_range b1).
        repeat constructor; try (apply Z.mod_pos_bound; lia);
          try (apply Z.div_pos; lia); try (apply Z.div_lt_upper_bound; lia).
      + pose proof (u8_range b0). pose proof (u8_range b1).
        pose proof (u8_range b2).
        repeat (apply Forall_cons); try (apply Z.mod_pos_bound; lia).
        * split; [apply Z.div_pos; lia | apply Z.div_lt_upper_bound; lia].
        * apply IH. cbn [List.length] in Hlen. lia. }
  apply (H (List.length buf)). lia.
Qed.

Lemma chars_roundtrip (sx : list Z) :
  Forall (fun v => 0 <= v < 64) sx ->
  base64.sextets_of_chars (map base64.char_of_sextet sx) = Ok sx.
Proof.
  induction 1 as [|v sx Hv _ IH].
  - reflexivity.
  - cbn [map base64.sextets_of_chars].
    rewrite sextet_char_roundtrip by exact Hv. rewrite IH. reflexivity.
Qed.

(** A '=' after table characters makes the decoder refuse the text. *)
Lemma chars_with_padding (sx : list Z) (rest : list ascii) :
  Forall (fun v => 0 <= v < 64) sx ->
  base64.sextets_of_chars (map base64.char_of_sextet sx ++ "="%char :: rest)
  = Throw DecodeError.
Proof.
  induction 1 as [|v sx Hv _ IH].
  - cbn [map app base64.sextets_of_chars].
    rewrite equals_sign_foreign. reflexivity.
  - cbn [map app base64.sextets_of_chars].
    rewrite sextet_char_roundtrip by exact Hv. rewrite IH. reflexivity.
Qed.

Lemma mk_u8_congr (z : Z) (b : byte) : z mod 256 = u8 b -> mk_u8 z = b.
Proof. intros H. rewrite <- mk_u8_mod, H. apply mk_u8_u8. Qed.

Ltac byte_arith := Z.div_mod_to_equations; lia.

Lemma bytes_roundtrip (buf : Buffer) :
  base64.bytes_of_sextets (base64.sextets_of_bytes buf) = Ok buf.
Proof.
  assert (H : forall (n : nat) (b : Buffer), (List.length b <= n)%nat ->
            base64.bytes_of_sextets (base64.sextets_of_bytes b) = Ok b).
  { induction n as [|n IH]; intros b Hlen.
    - destruct b; [reflexivity | cbn in Hlen; lia].
    - destruct b as [|b0 [|b1 [|b2 rest]]];
        cbn [base64.sextets_of_bytes base64.bytes_of_sextets].
      + reflexivity.
      + pose proof (u8_range b0).
        rewrite (mk_u8_congr _ b0) by byte_arith. reflexivity.
      + pose proof (u8_range b0). pose proof (u8_range b1).
        rewrite (mk_u8_congr _ b0) by byte_arith.
        rewrite (mk_u8_congr _ b1) by byte_arith. reflexivity.
      + pose proof (u8_range b0). pose proof (u8_range b1).
        pose proof (u8_range b2).
        rewrite IH by (cbn [List.length] in Hlen; lia). cbn [bind].
        set (n0 := u8 b0 * 65536 + u8 b1 * 256 + u8 b2).
        assert (E : ((n0 / 262144 * 64 + n0 / 4096 mod 64) * 64
                     + n0 / 64 mod 64) * 64 + n0 mod 64 = n0)
          by (subst n0; byte_arith).
        rewrite E. subst n0.
        rewrite (mk_u8_congr _ b0) by byte_arith.
        rewrite (mk_u8_congr _ b1) by byte_arith.
        rewrite (mk_u8_congr _ b2) by byte_arith. reflexivity. }
  apply (H (List.length buf)). lia.
Qed.

Lemma list_ascii_of_string_app (s1 s2 : string) :
  list_ascii_of_string (s1 ++ s2)
  = list_ascii_of_string s1 ++ list_ascii_of_string s2.
Proof.
  induction s1 as [|c s1 IH]; cbn; [reflexivity | rewrite IH; reflexivity].
Qed.

(** The decoder inverts the encoder. *)
Lemma decodeURL_encodeURL (buf : Buffer) :
  base64.decodeURL (base64.encodeURL buf) = Ok buf.
Proof.
  unfold base64.decodeURL, base64.encodeURL.
  rewrite list_ascii_of_string_of_list_ascii.
  rewrite chars_roundtrip by apply sextets_in_range. cbn [bind].
  apply bytes_roundtrip.
Qed.

(** C8, as stated, fails: the encoding "Zg" of the byte 0x66 is
    decoded, and the same text with its padding, "Zg==", is refused
    (the first entry of [urlInvalid]). *)
Lemma decodeURL_refuses_padding :
  base64.encodeURL [x66] = "Zg"%string /\
  base64.decodeURL "Zg" = Ok [x66] /\
  base64.padded (base64.encodeURL [x66]) 2 = "Zg=="%string /\
  base64.decodeURL (base64.padded (base64.encodeURL [x66]) 2)
  = Throw DecodeError.
Proof. repeat split. Qed.

(** C8, amended.  For every buffer [b], [decodeURL] succeeds on
    [encodeURL(b)] and returns [b]; on the same text followed by one or
    more '=' it fails. *)
Theorem decodeURL_unpadded_only (b : Buffer) :
  base64.decodeURL (base64.encodeURL b) = Ok b /\
  forall n : nat,
    base64.decodeURL (base64.padded (base64.encodeURL b) (S n))
    = Throw DecodeError.
Proof.
  split; [apply decodeURL_encodeURL|].
  intros n. unfold base64.decodeURL, base64.padded, base64.encodeURL.
  rewrite list_ascii_of_string_app, !list_ascii_of_string_of_list_ascii.
  cbn [repeat].
  rewrite chars_with_padding by apply sextets_in_range. reflexivity.
Qed.

(** The model agrees with the vectors of the test suite. *)
Lemma urlVectors_pass :
  forallb (fun v =>
             String.eqb (base64.encodeURL (fst v)) (snd v)
             && base64.testURL (snd v)
             && match base64.decodeURL (snd v) with
                | Ok d => if list_eq_dec Byte.byte_eq_dec d (fst v)
                          then true else false
                | Throw _ => false
                end)
          base64.urlVectors = true.
Proof. vm_compute. reflexivity. Qed.

Lemma urlInvalid_refused :
  forallb (fun str => negb (base64.testURL str)) base64.urlInvalid = true.
Proof. vm_compute. reflexivity. Qed.

(** ** The native engine: message lengths *)

(** C10.  For a message of length 0 or of more than 64 bytes,
    [bcrypto_dsa_sign] fails and [bcrypto_dsa_verify] returns false,
    whatever the key and the signature. *)
Theorem native_message_length
  (DSA_do_sign : Buffer -> native.DSA -> option native.DSA_SIG)
  (DSA_do_verify : Buffer -> native.DSA_SIG -> native.DSA -> Z)
  (m : Buffer) (priv pub : option native.bcrypto_dsa_key_t)
  (r s : option Buffer) :
  (List.length m = 0 \/ 64 < List.length m)%nat ->
  native.bcrypto_dsa_sign DSA_do_sign (Some m) priv = Ok None /\
  native.bcrypto_dsa_verify DSA_do_verify (Some m) r s pub = false.
Proof.
  intros H. unfold native.bcrypto_dsa_sign, native.bcrypto_dsa_verify.
  cbv zeta.
  assert (E : (Z.of_nat (List.length m) <? 1)
              || (Z.of_nat (List.length m) >? 64) = true).
  { apply orb_true_iff. destruct H as [H|H].
    - left. apply Z.ltb_lt. lia.
    - right. apply Z.gtb_lt. lia. }
  rewrite E. split; reflexivity.
Qed.

(** A null message is refused as well. *)
Lemma native_null_message
  (DSA_do_sign : Buffer -> native.DSA -> option native.DSA_SIG)
  (DSA_do_verify : Buffer -> native.DSA_SIG -> native.DSA -> Z)
  (priv pub : option native.bcrypto_dsa_key_t) (r s : option Buffer) :
  native.bcrypto_dsa_sign DSA_do_sign None priv = Ok None /\
  native.bcrypto_dsa_verify DSA_do_verify None r s pub = false.
Proof. split; reflexivity. Qed.

(** The branch built against an older OpenSSL refuses every message. *)
Lemma native_stub_refuses (msg r s : option Buffer)
  (priv pub : option native.bcrypto_dsa_key_t) :
  native.bcrypto_dsa_sign_stub msg priv = Ok None /\
  native.bcrypto_dsa_verify_stub msg r s pub = false.
Proof. split; reflexivity. Qed.

(** The empty message and a message of 65 bytes, under a sane key and
    primitives that would accept. *)
Lemma native_message_length_witness :
  (native.bcrypto_dsa_sign fixed_DSA_do_sign (Some []) (Some sane_native_key)
     = Ok None /\
   native.bcrypto_dsa_verify accepting_DSA_do_verify (Some [])
     (Some (repeat x00 19 ++ [x05])) (Some (repeat x00 19 ++ [x07]))
     (Some sane_native_key) = false)
  /\
  (native.bcrypto_dsa_sign fixed_DSA_do_sign (Some (repeat x01 65))
     (Some sane_native_key) = Ok None /\
   native.bcrypto_dsa_verify accepting_DSA_do_verify (Some (repeat x01 65))
     (Some (repeat x00 19 ++ [x05])) (Some (repeat x00 19 ++ [x07]))
     (Some sane_native_key) = false).
Proof.
  split.
  - apply (native_message_length fixed_DSA_do_sign accepting_DSA_do_verify []).
    left. reflexivity.
  - apply (native_message_length fixed_DSA_do_sign accepting_DSA_do_verify
             (repeat x01 65)).
    right. cbn. lia.
Defined.

(** A message of 64 bytes is signed and verified by the same
    primitives: the bounds are the limits. *)
Lemma native_message_length_inside :
  is_ok (native.bcrypto_dsa_sign fixed_DSA_do_sign (Some (repeat x01 64))
           (Some sane_native_key)) = true /\
  native.bcrypto_dsa_sign fixed_DSA_do_sign (Some (repeat x01 64))
    (Some sane_native_key) <> Ok None /\
  native.bcrypto_dsa_verify accepting_DSA_do_verify (Some (repeat x01 64))
    (Some (repeat x00 19 ++ [x05])) (Some (repeat x00 19 ++ [x07]))
    (Some sane_native_key) = true.
Proof.
  split; [vm_compute; reflexivity|].
  split; [vm_compute; discriminate | vm_compute; reflexivity].
Qed.

(** ** The verify family and errors *)

(** C4 fails on DSA [verify]: it guards [p = 0] but not [p = 1].  The
    toy key's signature, checked against the toy public key with [p]
    replaced by 1, passes the guards and reaches [modPow], where
    [BN.mont] refuses the modulus: [verify] raises.  In general
    [verify] raises exactly when [p = 1], [0 < r < q], [0 < s < q] and
    the bit length of [q] is a multiple of eight, and returns a
    boolean on every other input. *)
Theorem verify_raises_on_unit_modulus {M : Montgomery} :
  dsa.verify [x42] (dsasig.mkDSASignature 1 [x4e] [x09]) unit_modulus_key
    = Throw AssertionError
  /\
  forall (msg : Buffer) (sig : dsasig.DSASignature) (key : dsakey.DSAKey),
    let pn := BN_of (dsakey.p key) in
    let qn := BN_of (dsakey.q key) in
    let rn := BN_of (dsasig.r sig) in
    let sn := BN_of (dsasig.s sig) in
    (pn = 1 /\ 0 < rn < qn /\ 0 < sn < qn /\
     Z.land (bitLength qn) 7 = 0 ->
     dsa.verify msg sig key = Throw AssertionError) /\
    (pn <> 1 \/ rn = 0 \/ qn <= rn \/ sn = 0 \/ qn <= sn \/
     Z.land (bitLength qn) 7 <> 0 ->
     exists b : bool, dsa.verify msg sig key = Ok b).
Proof.
  split; [vm_compute; reflexivity|].
  intros msg sig key pn qn rn sn.
  unfold dsa.verify. cbv zeta. fold pn qn rn sn.
  pose proof (BN_of_nonneg (dsakey.p key)) as Hp0. fold pn in Hp0.
  destruct (Z.eqb_spec pn 0) as [Hp|Hp].
  { split; [intros (H & _); lia | intros _; eexists; reflexivity]. }
  destruct (Z.eqb_spec rn 0) as [Hr|Hr]; cbn [orb].
  { split; [intros (_ & H & _); lia | intros _; eexists; reflexivity]. }
  destruct (Z.geb_spec rn qn) as [Hrq|Hrq].
  { split; [intros (_ & H & _); lia | intros _; eexists; reflexivity]. }
  destruct (Z.eqb_spec sn 0) as [Hs|Hs]; cbn [orb].
  { split; [intros (_ & _ & H & _); lia | intros _; eexists; reflexivity]. }
  destruct (Z.geb_spec sn qn) as [Hsq|Hsq].
  { split; [intros (_ & _ & H & _); lia | intros _; eexists; reflexivity]. }
  destruct (Z.eqb_spec (Z.land (bitLength qn) 7) 0) as [Hn|Hn]; cbn [negb].
  2:{ split; [intros (_ & _ & _ & H); contradiction
             | intros _; eexists; reflexivity]. }
  destruct (Z.eq_dec pn 1) as [Hp1|Hp1].
  - rewrite (modPow_small _ _ pn) by lia. cbn [bind].
    split; [reflexivity|]. intros H. exfalso. lia.
  - rewrite !modPow_ok by lia. cbn [bind].
    split; [intros (H & _); contradiction | intros _; eexists; reflexivity].
Qed.

(** With a modulus above one DSA [verify] returns a boolean. *)
Lemma verify_total {M : Montgomery} (msg : Buffer)
  (sig : dsasig.DSASignature) (key : dsakey.DSAKey) :
  BN_of (dsakey.p key) <> 1 ->
  exists b : bool, dsa.verify msg sig key = Ok b.
Proof.
  intros Hp. unfold dsa.verify. cbv zeta.
  pose proof (BN_of_nonneg (dsakey.p key)) as Hp0.
  destruct (Z.eqb_spec (BN_of (dsakey.p key)) 0); [eexists; reflexivity|].
  destruct ((BN_of (dsasig.r sig) =? 0)
            || (BN_of (dsasig.r sig) >=? BN_of (dsakey.q key)));
    [eexists; reflexivity|].
  destruct ((BN_of (dsasig.s sig) =? 0)
            || (BN_of (dsasig.s sig) >=? BN_of (dsakey.q key)));
    [eexists; reflexivity|].
  destruct (negb (Z.land (bitLength (BN_of (dsakey.q key))) 7 =? 0));
    [eexists; reflexivity|].
  rewrite !modPow_ok by lia. cbn [bind]. eexists. reflexivity.
Qed.

(** The RSA wrappers, on a key given as bytes and with [hash], [msg]
    and [sig] of the types their assertions ask for: a key that fails
    to decode yields false, and a decoded key is handed to the
    binding, whose answer is returned. *)
Lemma rsa_wrappers_catch_decoding :
  (forall decode binding_verify (hash : rsa.Hash) (msg sig key : Buffer),
     (exists b : bool,
        rsa.verify decode binding_verify hash msg sig key = Ok b) /\
     (is_ok (decode key) = false ->
      rsa.verify decode binding_verify hash msg sig key = Ok false))
  /\
  (forall decode binding_publicKeyVerify (key : Buffer),
     (exists b : bool,
        rsa.publicKeyVerify decode binding_publicKeyVerify key = Ok b) /\
     (is_ok (decode key) = false ->
      rsa.publicKeyVerify decode binding_publicKeyVerify key = Ok false))
  /\
  (forall decode binding_privateKeyVerify (key : Buffer),
     (exists b : bool,
        rsa.privateKeyVerify decode binding_privateKeyVerify key = Ok b) /\
     (is_ok (decode key) = false ->
      rsa.privateKeyVerify decode binding_privateKeyVerify key = Ok false)).
Proof.
  split; [|split].
  - intros decode binding_verify hash msg sig key.
    unfold rsa.verify, rsa.verifyKey.
    destruct (decode key) as [k|e]; cbn [is_ok].
    + split; [eexists; reflexivity | discriminate].
    + split; [eexists; reflexivity | reflexivity].
  - intros decode binding key.
    unfold rsa.publicKeyVerify, rsa.publicVerify.
    destruct (decode key) as [k|e]; cbn [is_ok].
    + split; [eexists; reflexivity | discriminate].
    + split; [eexists; reflexivity | reflexivity].
  - intros decode binding key.
    unfold rsa.privateKeyVerify, rsa.privateVerify.
    destruct (decode key) as [k|e]; cbn [is_ok].
    + split; [eexists; reflexivity | discriminate].
    + split; [eexists; reflexivity | reflexivity].
Qed.

(** [sign] raises on a key without fields, and the RSA
    [publicKeyCreate] lets the error of its decoder through. *)
Lemma sign_can_raise {M : Montgomery} :
  dsa.sign 1 (constant_rand x01) 0 [x42]
    (dsakey.new_DSAPrivateKey [] [] [] [] []) = Some (Throw InvalidKey).
Proof. vm_compute. reflexivity. Qed.

Lemma publicKeyCreate_can_raise (decode : Buffer -> Result rsa.RSAPrivateKey)
  (encode : rsa.RSAPublicKey -> Buffer) (key : Buffer) (e : Error) :
  decode key = Throw e -> rsa.publicKeyCreate decode encode key = Throw e.
Proof. intros H. unfold rsa.publicKeyCreate. rewrite H. reflexivity. Qed.

(** ** Key objects: canonical fields *)

Lemma new_DSAParams_canonical (p q g : Buffer) :
  dsakey.params_canonical (dsakey.new_DSAParams p q g).
Proof. repeat split; apply canonical_trimLeft. Qed.

Lemma new_DSAKey_canonical (p q g y : Buffer) :
  dsakey.key_canonical (dsakey.new_DSAKey p q g y).
Proof. repeat split; apply canonical_trimLeft. Qed.

Lemma new_DSAPrivateKey_canonical (p q g y x : Buffer) :
  dsakey.private_canonical (dsakey.new_DSAPrivateKey p q g y x).
Proof. repeat split; apply canonical_trimLeft. Qed.

Lemma setters_canonical (k : dsakey.DSAParams) (v : Buffer) :
  dsakey.params_canonical k ->
  dsakey.params_canonical (dsakey.setP k v) /\
  dsakey.params_canonical (dsakey.setQ k v) /\
  dsakey.params_canonical (dsakey.setG k v).
Proof.
  intros (Hp & Hq & Hg).
  repeat split; cbn; try assumption; apply canonical_trimLeft.
Qed.

Lemma setY_canonical (k : dsakey.DSAKey) (v : Buffer) :
  dsakey.key_canonical k -> dsakey.key_canonical (dsakey.setY k v).
Proof.
  intros (Hp & Hy). split; [exact Hp | apply canonical_trimLeft].
Qed.

Lemma setX_canonical (k : dsakey.DSAPrivateKey) (v : Buffer) :
  dsakey.private_canonical k -> dsakey.private_canonical (dsakey.setX k v).
Proof.
  intros (Hk & Hx). split; [exact Hk | apply canonical_trimLeft].
Qed.

Lemma setParams_canonical (k : dsakey.DSAKey) (ps : dsakey.DSAParams) :
  dsakey.key_canonical k -> dsakey.params_canonical ps ->
  dsakey.key_canonical (dsakey.setParams k ps).
Proof.
  intros (_ & Hy) (Hp & Hq & Hg). repeat split; assumption.
Qed.

Lemma toPublic_canonical (k : dsakey.DSAPrivateKey) :
  dsakey.private_canonical k -> dsakey.key_canonical (dsakey.toPublic k).
Proof.
  intros (((Hp & Hq & Hg) & Hy) & _). repeat split; assumption.
Qed.

(** C9 fails on [fromJSON]: the field [p] decoded from "AAE" is kept
    as the bytes 00 01, with its leading zero byte, where the
    constructor and [setP] store 01; the same happens in
    [DSAPrivateKey.fromJSON]. *)
Theorem fromJSON_keeps_leading_zero :
  dsakey.fromJSON_params leading_zero_json
    = Ok {| dsakey.p := [x00; x01]; dsakey.q := []; dsakey.g := [] |} /\
  ~ canonical [x00; x01] /\
  dsakey.p (dsakey.new_DSAParams [x00; x01] [] []) = [x01] /\
  dsakey.p (dsakey.setP (dsakey.new_DSAParams [] [] []) [x00; x01]) = [x01] /\
  (exists k, dsakey.fromJSON_private leading_zero_json = Ok k /\
             ~ dsakey.private_canonical k).
Proof.
  split; [vm_compute; reflexivity|].
  split; [intros H; discriminate H|].
  split; [reflexivity|].
  split; [reflexivity|].
  eexists. split; [vm_compute; reflexivity|].
  intros (((Hp & _) & _) & _). discriminate Hp.
Qed.

(** On the text [toJSON] writes for a canonical field, [fromJSON]
    reads the field back unchanged, hence canonical: the invariant is
    lost only on input that did not come from [toJSON]. *)
Lemma fromJSON_of_toJSON (k : dsakey.DSAParams) :
  dsakey.fromJSON_params
    {| dsakey.kty := "DSA";
       dsakey.json_p := base64.encodeURL (dsakey.p k);
       dsakey.json_q := base64.encodeURL (dsakey.q k);
       dsakey.json_g := base64.encodeURL (dsakey.g k);
       dsakey.json_y := None;
       dsakey.json_x := "" |} = Ok k.
Proof.
  unfold dsakey.fromJSON_params, dsakey.DSAParams_fromJSON.
  cbn [dsakey.kty dsakey.json_p dsakey.json_q dsakey.json_g].
  change (String.eqb "DSA" "DSA") with true. cbn [assert bind].
  rewrite !decodeURL_encodeURL. cbn [bind]. destruct k. reflexivity.
Qed.

(** ** Parameter generation: the candidates *)

Lemma length_or_at (i : nat) (m : Z) (buf : Buffer) :
  List.length (or_at i m buf) = List.length buf.
Proof.
  unfold or_at. destruct (nth_error buf i) as [b|] eqn:E; [|reflexivity].
  assert (Hi : (i < List.length buf)%nat)
    by (apply nth_error_Some; congruence).
  rewrite length_app. cbn [List.length].
  rewrite length_firstn, length_skipn. lia.
Qed.

Lemma top_bit_byte (b : byte) : 128 <= u8 (mk_u8 (Z.lor (u8 b) 128)).
Proof. destruct b; apply Z.leb_le; reflexivity. Qed.

(** After [buf[0] |= 0x80] a buffer of [n] bytes holds a number of
    exactly [8 n] bits. *)
Lemma top_bit_set (buf : Buffer) :
  buf <> [] ->
  let v := BN_of (or_at 0 128 buf) in
  let n := Z.of_nat (List.length buf) in
  2 ^ (8 * n - 1) <= v < 2 ^ (8 * n).
Proof.
  intros Hne v n.
  pose proof (BN_of_range (or_at 0 128 buf)) as Hr.
  rewrite length_or_at in Hr. fold v n in Hr. rewrite pow256 in Hr by lia.
  split; [|lia].
  destruct buf as [|b t]; [congruence|].
  subst v n. unfold or_at. cbn [nth_error firstn skipn app List.length].
  rewrite BN_of_cons.
  pose proof (top_bit_byte b). pose proof (BN_of_nonneg t).
  rewrite Nat2Z.inj_succ.
  replace (8 * Z.succ (Z.of_nat (List.length t)) - 1)
    with (7 + 8 * Z.of_nat (List.length t)) by lia.
  rewrite Z.pow_add_r, pow256 by lia.
  assert (0 < 2 ^ (8 * Z.of_nat (List.length t)))
    by (apply Z.pow_pos_nonneg; lia).
  change (2 ^ 7) with 128. nia.
Qed.

Lemma length_randomFill (rnd : Rand) (pos n : nat) :
  List.length (fst (randomFill rnd pos n)) = n.
Proof. unfold randomFill. cbn [fst]. rewrite length_map, length_seq. reflexivity. Qed.

(** A candidate as [generate] draws it: [n] random bytes with the low
    bit of the last and the high bit of the first forced. *)
Lemma candidate_range (rnd : Rand) (pos n : nat) :
  (0 < n)%nat ->
  let pb := fst (randomFill rnd pos n) in
  let v := BN_of (or_at 0 128 (or_at (List.length pb - 1) 1 pb)) in
  2 ^ (8 * Z.of_nat n - 1) <= v < 2 ^ (8 * Z.of_nat n).
Proof.
  intros Hn pb v.
  pose proof (length_randomFill rnd pos n) as Hlen. fold pb in Hlen.
  pose proof (top_bit_set (or_at (List.length pb - 1) 1 pb)) as H.
  rewrite length_or_at, Hlen in H. cbv zeta in H.
  subst v. rewrite Hlen. apply H.
  intros E. apply (f_equal (@List.length byte)) in E.
  rewrite length_or_at, Hlen in E. cbn in E. lia.
Qed.

(** A number of two bits or more is above one. *)
Lemma bitLength_above_one (n L : Z) : 2 <= L -> L <= bitLength n -> 1 < n.
Proof.
  intros HL Hn. destruct (Z.lt_ge_cases 1 n) as [|Hle]; [assumption|exfalso].
  unfold bitLength in Hn. destruct (Z.leb_spec n 0); [lia|].
  replace n with 1 in Hn by lia. cbn in Hn. lia.
Qed.

Section GenerationFacts.

Context {M : Montgomery}.
Variable probablyPrime : Rand -> nat -> Z -> Z -> bool * nat.

Lemma search_p_inv (count : nat) (rnd : Rand) (pos : nat) (L qn pn : Z)
  (pos' : nat) :
  dsa.search_p probablyPrime count rnd pos L qn = (Some pn, pos') ->
  exists (cand : Z) (pos1 : nat),
    ((0 < Z.to_nat (Z.shiftr L 3))%nat ->
     0 <= cand < 2 ^ (8 * Z.of_nat (Z.to_nat (Z.shiftr L 3)))) /\
    pn = cand - (cand mod qn - 1) /\
    L <= bitLength pn /\
    fst (probablyPrime rnd pos1 pn 64) = true.
Proof.
  revert pos. induction count as [|count IH]; intros pos;
    cbn [dsa.search_p]; [discriminate|].
  set (n := Z.to_nat (Z.shiftr L 3)).
  pose proof (candidate_range rnd pos n) as Hcand. cbv zeta in Hcand.
  unfold randomFill in *. cbn [fst] in Hcand.
  set (cand := BN_of (or_at 0 128
                 (or_at (List.length (map rnd (seq pos n)) - 1) 1
                    (map rnd (seq pos n))))) in *.
  destruct (Z.ltb_spec (bitLength (cand - (cand mod qn - 1))) L) as [Hlt|Hge].
  - apply IH.
  - destruct (probablyPrime rnd (pos + n)%nat (cand - (cand mod qn - 1)) 64)
      as [prime pos2] eqn:Epp.
    destruct prime; cbn [negb].
    + intros [= <- <-]. exists cand, (pos + n)%nat.
      repeat split.
      * assert (0 < 2 ^ (8 * Z.of_nat n - 1))
          by (apply Z.pow_pos_nonneg; lia).
        specialize (Hcand H). lia.
      * apply Hcand. exact H.
      * exact Hge.
      * rewrite Epp. reflexivity.
    + apply IH.
Qed.

Lemma search_pq_inv (fuel : nat) (rnd : Rand) (pos : nat) (L N pn qn : Z)
  (pos' : nat) :
  dsa.search_pq probablyPrime fuel rnd pos L N = Some (pn, qn, pos') ->
  ((0 < Z.to_nat (Z.shiftr N 3))%nat ->
   2 ^ (8 * Z.of_nat (Z.to_nat (Z.shiftr N 3)) - 1) <= qn
     < 2 ^ (8 * Z.of_nat (Z.to_nat (Z.shiftr N 3)))) /\
  exists (cand : Z) (pos1 : nat),
    ((0 < Z.to_nat (Z.shiftr L 3))%nat ->
     0 <= cand < 2 ^ (8 * Z.of_nat (Z.to_nat (Z.shiftr L 3)))) /\
    pn = cand - (cand mod qn - 1) /\
    L <= bitLength pn /\
    fst (probablyPrime rnd pos1 pn 64) = true.
Proof.
  revert pos. induction fuel as [|fuel IH]; intros pos;
    cbn [dsa.search_pq]; [discriminate|].
  set (n := Z.to_nat (Z.shiftr N 3)).
  pose proof (candidate_range rnd pos n) as Hcand. cbv zeta in Hcand.
  unfold randomFill in *. cbn [fst] in Hcand.
  set (cand := BN_of (or_at 0 128
                 (or_at (List.length (map rnd (seq pos n)) - 1) 1
                    (map rnd (seq pos n))))) in *.
  destruct (probablyPrime rnd (pos + n)%nat cand 64) as [prime pos2].
  destruct prime; cbn [negb]; [|apply IH].
  destruct (dsa.search_p probablyPrime (Z.to_nat (4 * L)) rnd pos2 L cand)
    as [[pn'|] pos3] eqn:Ep; [|apply IH].
  intros [= <- <- <-]. split; [exact Hcand|].
  apply search_p_inv in Ep. exact Ep.
Qed.

Lemma search_g_inv (fuel : nat) (h e pn gn : Z) :
  dsa.search_g fuel h e pn = Some (Ok gn) ->
  1 < pn /\
  exists h', h <= h' /\ gn = redPow h' e pn /\ gn <> 1 /\
             forall j, h <= j < h' -> redPow j e pn = 1.
Proof.
  revert h. induction fuel as [|fuel IH]; intros h;
    cbn [dsa.search_g]; [discriminate|].
  destruct (modPow h e pn) as [v|err] eqn:Emod; [|discriminate].
  apply modPow_inv in Emod. destruct Emod as [Hp ->].
  destruct (Z.eqb_spec (redPow h e pn) 1) as [E|E].
  - intros H. apply IH in H. destruct H as (_ & h' & Hh & Hg & Hne & Hall).
    split; [exact Hp|].
    exists h'. repeat split; try assumption; try lia.
    intros j Hj. destruct (Z.eq_dec j h) as [->|]; [exact E|].
    apply Hall. lia.
  - intros [= <-]. split; [exact Hp|].
    exists h. repeat split; try assumption; lia.
Qed.

(** With a modulus above one the closing loop raises no error. *)
Lemma search_g_total (fuel : nat) (h e pn : Z) (res : Result Z) :
  1 < pn -> dsa.search_g fuel h e pn = Some res -> exists gn, res = Ok gn.
Proof.
  intros Hp. revert h. induction fuel as [|fuel IH]; intros h;
    cbn [dsa.search_g]; [discriminate|].
  rewrite (modPow_ok h e pn Hp).
  destruct (redPow h e pn =? 1); [apply IH|].
  intros [= <-]. eexists. reflexivity.
Qed.

End GenerationFacts.

(** The generator of the subgroup of order [q]: with [p] prime and
    [q] a proper divisor of [p - 1], the first [h >= 2] such that
    [h^((p-1)/q) mod p] is not one lies below [p], and that power has
    order dividing [q]. *)
Lemma generator_order {M : Montgomery} (p q h g : Z) :
  Z.prime p -> 2 <= q -> (q | p - 1) -> q < p - 1 ->
  2 <= h ->
  g = redPow h ((p - 1) / q) p -> g <> 1 ->
  (forall j, 2 <= j < h -> redPow j ((p - 1) / q) p = 1) ->
  g ^ q mod p = 1.
Proof.
  intros Hp Hq Hdiv Hlt Hh Hg Hne Hall.
  pose proof (Z.prime_ge_2 p Hp) as Hp2.
  assert (Hodd : Z.odd p = true) by (apply odd_prime; [exact Hp | lia]).
  destruct Hdiv as (e & He).
  assert (Ee : (p - 1) / q = e) by (rewrite He; apply Z.div_mul; lia).
  rewrite Ee in *.
  assert (He1 : 1 <= e < p - 1) by nia.
  assert (Hhp : h < p).
  { destruct (Z.lt_ge_cases h p) as [|Hge]; [assumption|exfalso].
    apply (not_all_roots_of_unity p e Hp He1).
    intros j Hj. destruct (Z.eq_dec j 1) as [->|Hj1].
    - rewrite Z.pow_1_l by lia. apply Z.mod_1_l. lia.
    - rewrite <- (redPow_odd j e p Hodd). apply Hall. lia. }
  rewrite Hg, redPow_odd by exact Hodd.
  rewrite Z.mod_pow_l, <- Z.pow_mul_r by lia.
  replace (e * q) with (p - 1) by lia.
  apply Z.fermat_nz; [exact Hp|].
  rewrite Z.mod_small by lia. lia.
Qed.

Lemma pow2_not_prime (k : Z) : 2 <= k -> ~ Z.prime (2 ^ k).
Proof.
  intros Hk [_ H]. apply (H 2).
  - assert (2 ^ 2 <= 2 ^ k) by (apply Z.pow_le_mono_r; lia).
    change (2 ^ 2) with 4 in *. lia.
  - exists (2 ^ (k - 1)).
    replace k with (Z.succ (k - 1)) at 1 by lia.
    rewrite Z.pow_succ_r by lia. ring.
Qed.

(** ** [paramsGenerate] and the sizes it accepts *)

(** C2, as stated, fails: 1025 lies in [1024, 3072] and
    [paramsGenerate(1025)] fails with 'Invalid parameter sizes.' *)
Lemma paramsGenerate_1025_refused :
  1024 <= 1025 <= 3072 /\
  dsa.paramsGenerate (M := zero_on_even) credulous_probablyPrime 1
    (constant_rand x00) 0 (Some 1025) = Some (Throw InvalidParameterSizes).
Proof. split; [lia | vm_compute; reflexivity]. Qed.

(** Once the sizes are accepted, [generate] raises no error: the [p]
    it finds has [L] bits, a modulus [modPow] accepts. *)
Lemma generate_returns {M : Montgomery}
  (probablyPrime : Rand -> nat -> Z -> Z -> bool * nat)
  (fuel : nat) (rnd : Rand) (pos : nat) (L N : Z)
  (res : Result dsakey.DSAParams) :
  2 <= L ->
  (if negb (dsa.is_uint32 L) || negb (dsa.is_uint32 N)
   then Throw AssertionError else dsa.generate_sizes L N) = Ok tt ->
  dsa.generate probablyPrime fuel rnd pos L N = Some res ->
  exists params, res = Ok params.
Proof.
  intros HL Hsizes. unfold dsa.generate.
  destruct (negb (dsa.is_uint32 L) || negb (dsa.is_uint32 N));
    [discriminate|].
  rewrite Hsizes.
  destruct (dsa.search_pq probablyPrime fuel rnd pos L N)
    as [[[pn qn] pos']|] eqn:Epq; [|discriminate].
  apply search_pq_inv in Epq.
  destruct Epq as (_ & cand & pos1 & _ & _ & Hbits & _).
  apply bitLength_above_one in Hbits; [|exact HL].
  cbv zeta.
  destruct (dsa.search_g fuel 2 ((pn - 1) / qn) pn) as [r|] eqn:Eg;
    [|discriminate].
  destruct (search_g_total _ _ _ _ _ Hbits Eg) as [gn ->].
  intros [= <-]. eexists. reflexivity.
Qed.

(** C2, amended.  For [bits] one of 1024, 2048 and 3072,
    [paramsGenerate(bits)] is [generate(L, N)] with [L = bits] and
    [N = 160] when [bits < 2048], [N = 256] otherwise, and it raises no
    error; for every other integer [bits] it fails: with the range
    error (or a failed assertion) outside [1024, 3072], with 'Invalid
    parameter sizes.' inside. *)
Theorem paramsGenerate_sizes {M : Montgomery}
  (probablyPrime : Rand -> nat -> Z -> Z -> bool * nat)
  (fuel : nat) (rnd : Rand) (pos : nat) (bits : Z) :
  (bits = 1024 \/ bits = 2048 \/ bits = 3072 ->
   let N := if bits <? 2048 then 160 else 256 in
   dsa.paramsGenerate probablyPrime fuel rnd pos (Some bits)
   = dsa.generate probablyPrime fuel rnd pos bits N /\
   dsa.generate_sizes bits N = Ok tt /\
   forall res,
     dsa.paramsGenerate probablyPrime fuel rnd pos (Some bits) = Some res ->
     exists params, res = Ok params)
  /\
  (~ (bits = 1024 \/ bits = 2048 \/ bits = 3072) ->
   exists e,
     dsa.paramsGenerate probablyPrime fuel rnd pos (Some bits)
     = Some (Throw e) /\
     (bits < 1024 \/ 3072 < bits -> e = AssertionError \/ e = RangeError) /\
     (1024 <= bits <= 3072 -> e = InvalidParameterSizes)).
Proof.
  split.
  - intros H N.
    assert (Hgen : forall res,
              dsa.generate probablyPrime fuel rnd pos bits N = Some res ->
              exists params, res = Ok params).
    { intros res. apply generate_returns; [lia|].
      destruct H as [-> | [-> | ->]]; reflexivity. }
    assert (Hpg : dsa.paramsGenerate probablyPrime fuel rnd pos (Some bits)
                  = dsa.generate probablyPrime fuel rnd pos bits N).
    { unfold dsa.paramsGenerate.
      destruct H as [-> | [-> | ->]]; reflexivity. }
    split; [exact Hpg|]. split.
    + destruct H as [-> | [-> | ->]]; reflexivity.
    + intros res Hres. rewrite Hpg in Hres. apply Hgen. exact Hres.
  - intros H. unfold dsa.paramsGenerate, dsa.generate, dsa.is_uint32.
    destruct (Z.leb_spec 0 bits) as [H0|H0]; cbn [andb negb].
    2:{ exists AssertionError. repeat split; auto. lia. }
    destruct (Z.ltb_spec bits (2 ^ 32)) as [H32|H32]; cbn [negb].
    2:{ exists AssertionError. repeat split; auto. lia. }
    destruct (Z.ltb_spec bits 1024) as [Hlo|Hlo]; cbn [orb].
    { exists RangeError. repeat split; auto. lia. }
    destruct (Z.gtb_spec bits 3072) as [Hhi|Hhi].
    { exists RangeError. repeat split; auto. lia. }
    destruct (Z.leb_spec 0 bits); [|lia].
    destruct (Z.ltb_spec bits (2 ^ 32)); [|lia]. cbn [andb negb orb].
    exists InvalidParameterSizes.
    split; [|split; [lia | reflexivity]].
    unfold dsa.generate_sizes.
    destruct (Z.ltb_spec bits 2048).
    + cbn. destruct (Z.eqb_spec bits 1024); [lia|].
      destruct (Z.eqb_spec bits 2048); [lia|].
      destruct (Z.eqb_spec bits 3072); [lia|]. reflexivity.
    + cbn. destruct (Z.eqb_spec bits 1024); [lia|].
      destruct (Z.eqb_spec bits 2048); [lia|].
      destruct (Z.eqb_spec bits 3072); [lia|]. reflexivity.
Qed.

(** A missing argument stands for 2048 bits. *)
Lemma paramsGenerate_default {M : Montgomery}
  (probablyPrime : Rand -> nat -> Z -> Z -> bool * nat)
  (fuel : nat) (rnd : Rand) (pos : nat) :
  dsa.paramsGenerate probablyPrime fuel rnd pos None
  = dsa.generate probablyPrime fuel rnd pos 2048 256.
Proof. reflexivity. Qed.


(** ** Running modular exponentiation on large numbers *)

Lemma big_pow_mod_spec (a : bigN) (e : positive) (n : bigN) :
  BigN.to_Z (big_pow_mod a e n)
  = Zpow_mod_pos (BigN.to_Z a) e (BigN.to_Z n).
Proof.
  induction e as [e IH|e IH|]; cbn [big_pow_mod Zpow_mod_pos].
  - rewrite BigN.spec_modulo, !BigN.spec_mul, IH.
    destruct (Zpow_mod_pos (BigN.to_Z a) e (BigN.to_Z n)); reflexivity.
  - rewrite BigN.spec_modulo, BigN.spec_mul, IH.
    destruct (Zpow_mod_pos (BigN.to_Z a) e (BigN.to_Z n)); reflexivity.
  - apply BigN.spec_modulo.
Qed.

Lemma Zpow_mod_big (x : Z) (e : positive) (m : Z) :
  0 <= x -> 0 <= m ->
  Zpow_mod x (Zpos e) m
  = BigN.to_Z (big_pow_mod (BigN.of_N (Z.to_N x)) e (BigN.of_N (Z.to_N m))).
Proof.
  intros Hx Hm. rewrite big_pow_mod_spec, !BigN.spec_of_N, !Z2N.id by lia.
  reflexivity.
Qed.

(** Evaluates [Zpow_mod x e m] for closed [x], [e], [m] in a goal
    [Zpow_mod x e m = v]. *)
Ltac run_pow_mod :=
  match goal with
  | |- Zpow_mod ?x ?e ?m = _ =>
      let e' := eval vm_compute in e in
      change e with e';
      rewrite Zpow_mod_big by (vm_compute; discriminate);
      vm_compute; reflexivity
  end.

(** The same for [x ^ e mod m]. *)
Ltac run_power :=
  rewrite <- Zpow_mod_correct by (vm_compute; discriminate); run_pow_mod.

(** [modPow] on a closed odd modulus above one, in a goal
    [modPow x e m = Ok v]. *)
Ltac run_modPow :=
  match goal with
  | |- modPow ?x ?e ?m = Ok _ =>
      rewrite (modPow_ok x e m) by (vm_compute; reflexivity);
      apply (f_equal Ok); unfold redPow;
      replace (Z.odd m) with true by (vm_compute; reflexivity);
      run_pow_mod
  end.

(** ** The primes of the run *)

Lemma witness_Q_prime : Z.prime witness_Q.
Proof.
  apply (pocklington witness_Q 2 81 17).
  - exact Z.prime_2.
  - lia.
  - vm_compute. reflexivity.
  - apply Z.mod_divide; [vm_compute; discriminate | vm_compute; reflexivity].
  - vm_compute. reflexivity.
  - run_power.
  - replace (17 ^ ((witness_Q - 1) / 2) mod witness_Q)
      with (witness_Q - 1) by (symmetry; run_power).
    vm_compute. reflexivity.
Qed.

Lemma witness_P_prime : Z.prime witness_P.
Proof.
  apply (pocklington witness_P 2 520 5).
  - exact Z.prime_2.
  - lia.
  - vm_compute. reflexivity.
  - apply Z.mod_divide; [vm_compute; discriminate | vm_compute; reflexivity].
  - vm_compute. reflexivity.
  - run_power.
  - replace (5 ^ ((witness_P - 1) / 2) mod witness_P)
      with (witness_P - 1) by (symmetry; run_power).
    vm_compute. reflexivity.
Qed.

Lemma certified_probablyPrime_sound (rnd : Rand) (pos : nat) (n reps : Z) :
  fst (certified_probablyPrime rnd pos n reps) = true -> Z.prime n.
Proof.
  unfold certified_probablyPrime. cbn [fst]. intros H.
  apply orb_true_iff in H. destruct H as [H|H]; apply Z.eqb_eq in H; subst n.
  - exact witness_Q_prime.
  - exact witness_P_prime.
Qed.

(** ** The run *)

Lemma witness_search_pq :
  dsa.search_pq certified_probablyPrime 1 witness_rand 0 1024 160
  = Some (witness_P, witness_Q, 148%nat).
Proof. vm_compute. reflexivity. Qed.

Lemma witness_modPow {M : Montgomery} :
  modPow 2 ((witness_P - 1) / witness_Q) witness_P = Ok witness_G.
Proof. run_modPow. Qed.

Lemma witness_search_g {M : Montgomery} :
  dsa.search_g 1 2 ((witness_P - 1) / witness_Q) witness_P
  = Some (Ok witness_G).
Proof.
  cbn [dsa.search_g]. rewrite (witness_modPow (M := M)).
  replace (witness_G =? 1) with false by (vm_compute; reflexivity).
  reflexivity.
Qed.

Lemma witness_generate {M : Montgomery} :
  dsa.generate certified_probablyPrime 1 witness_rand 0 1024 160
  = Some (Ok witness_params).
Proof.
  unfold dsa.generate.
  replace (negb (dsa.is_uint32 1024) || negb (dsa.is_uint32 160))
    with false by reflexivity.
  replace (dsa.generate_sizes 1024 160) with (@Ok unit tt) by reflexivity.
  rewrite witness_search_pq. cbv zeta.
  rewrite (witness_search_g (M := M)). reflexivity.
Qed.

(** [paramsGenerate(1024)] is that run. *)
Lemma paramsGenerate_runs {M : Montgomery} :
  dsa.paramsGenerate certified_probablyPrime 1 witness_rand 0 (Some 1024)
  = Some (Ok witness_params).
Proof.
  change (dsa.generate certified_probablyPrime 1 witness_rand 0 1024 160
          = Some (Ok witness_params)).
  exact witness_generate.
Qed.


(** ** A run with a test that accepts everything *)





(* ================================================================== *)
(** * Part III. Further properties of the code                         *)
(* ================================================================== *)

(** ** Canonical buffers and minimal encodings *)

Lemma trimLeft_length_eq (l : Buffer) :
  List.length (trimLeft l) = List.length l -> trimLeft l = l.
Proof.
  destruct l as [|b rest]; [reflexivity|]. cbn [trimLeft].
  destruct (Byte.eqb b x00); [|reflexivity].
  intros H. pose proof (length_trimLeft rest). cbn [List.length] in H. lia.
Qed.

Lemma bitLength_byte (b : byte) : b <> x00 -> 1 <= bitLength (u8 b) <= 8.
Proof.
  intros Hb. pose proof (u8_range b) as Hr.
  assert (u8 b <> 0) by (intros E; apply Hb, u8_zero_iff, E).
  split.
  - pose proof (bitLength_pos (u8 b) ltac:(lia)). lia.
  - apply bitLength_le; [lia|]. change (2 ^ 8) with 256. lia.
Qed.

(** A canonical buffer is as long as the byte length of its value. *)
Lemma canonical_length (l : Buffer) :
  canonical l -> Z.of_nat (List.length l) = byteLength (BN_of l).
Proof.
  destruct l as [|b rest]; intros Hc.
  - reflexivity.
  - apply canonical_head in Hc.
    pose proof (bitLength_byte b Hc) as Hb.
    pose proof (u8_range b) as Hr.
    assert (u8 b <> 0) by (intros E; apply Hc, u8_zero_iff, E).
    pose proof (BN_of_range rest) as Hrest.
    rewrite BN_of_cons, pow256 by lia.
    unfold byteLength.
    rewrite pow256 in Hrest by lia.
    rewrite bitLength_leading by lia.
    cbn [List.length]. rewrite Nat2Z.inj_succ.
    set (n := Z.of_nat (List.length rest)) in *.
    apply Z.div_unique with (r := bitLength (u8 b) - 1); lia.
Qed.

(** [toBuffer(new BN(buf))] is [buf] without its leading zeros. *)
Lemma toBuffer_BN_of (l : Buffer) : toBuffer (BN_of l) = trimLeft l.
Proof.
  apply BN_of_inj.
  - rewrite length_toBuffer, <- (BN_of_trimLeft l).
    rewrite <- (canonical_length (trimLeft l)) by apply canonical_trimLeft.
    apply Nat2Z.id.
  - rewrite BN_of_toBuffer by apply BN_of_nonneg.
    symmetry. apply BN_of_trimLeft.
Qed.

Lemma toBuffer_nonpos (n : Z) : n <= 0 -> toBuffer n = [].
Proof.
  intros H. unfold toBuffer, byteLength, bitLength.
  destruct (Z.leb_spec n 0); [reflexivity|lia].
Qed.

(** What [toBuffer] returns is canonical. *)
Lemma toBuffer_canonical (n : Z) : canonical (toBuffer n).
Proof.
  destruct (Z.le_gt_cases n 0) as [H|H].
  - rewrite toBuffer_nonpos by exact H. apply canonical_nil.
  - rewrite <- (BN_of_toBuffer n) at 1 by lia.
    unfold canonical. rewrite toBuffer_BN_of. apply trimLeft_idem.
Qed.

(** ** Key creation: [privateKeyCreate] and [computeY] *)

Lemma sample_k_block (fuel : nat) (rnd : Rand) (pos n : nat) (qn k : Z)
  (pos' : nat) :
  dsa.sample_k fuel rnd pos n qn = Some (k, pos') ->
  k < 256 ^ Z.of_nat n.
Proof.
  intros H. apply sample_k_rejection in H.
  destruct H as (j & _ & _ & -> & _).
  pose proof (BN_of_range (map rnd (seq (pos + j * n) n))) as Hr.
  rewrite length_map, length_seq in Hr. lia.
Qed.

Lemma sample_k_empty (fuel : nat) (rnd : Rand) (pos : nat) (qn : Z) :
  dsa.sample_k fuel rnd pos 0 qn = None.
Proof.
  revert pos. induction fuel as [|fuel IH]; intros pos; [reflexivity|].
  cbn. apply IH.
Qed.

(** The two ways [privateKeyCreate] ends once an [x] is found. *)
Lemma privateKeyCreate_cases {M : Montgomery} (fuel : nat) (rnd : Rand)
  (pos : nat) (params : dsakey.DSAParams)
  (res : Result dsakey.DSAPrivateKey) :
  dsa.privateKeyCreate fuel rnd pos params = Some res ->
  let pn := BN_of (dsakey.p params) in
  let qn := BN_of (dsakey.q params) in
  let gn := BN_of (dsakey.g params) in
  exists xn pos',
    dsa.sample_k fuel rnd pos (Z.to_nat (Z.shiftr (bitLength qn) 3)) qn
      = Some (xn, pos') /\
    ((pn <= 1 /\ res = Throw AssertionError) \/
     (1 < pn /\
      res = Ok (dsakey.mkDSAPrivateKey
                  (dsakey.mkDSAKey params (toBuffer (redPow gn xn pn)))
                  (toBuffer xn)))).
Proof.
  unfold dsa.privateKeyCreate, dsa.privateKeyCreate_run.
  cbv zeta. rewrite length_alloc.
  destruct (dsa.sample_k fuel rnd pos
              (Z.to_nat (Z.shiftr (bitLength (BN_of (dsakey.q params))) 3))
              (BN_of (dsakey.q params))) as [[xn pos1]|] eqn:Ek;
    [|discriminate].
  intros Hrun. exists xn, pos1. split; [reflexivity|].
  destruct (Z.le_gt_cases (BN_of (dsakey.p params)) 1) as [Hp|Hp].
  - rewrite modPow_small in Hrun by exact Hp.
    cbn in Hrun. injection Hrun as <-. left. split; [exact Hp|reflexivity].
  - rewrite modPow_ok in Hrun by lia.
    cbn in Hrun. injection Hrun as <-. right. split; [lia|].
    destruct params. reflexivity.
Qed.

Lemma privateKeyCreate_params {M : Montgomery} (fuel : nat) (rnd : Rand)
  (pos : nat) (params : dsakey.DSAParams) (key : dsakey.DSAPrivateKey) :
  dsa.privateKeyCreate fuel rnd pos params = Some (Ok key) ->
  let pn := BN_of (dsakey.p params) in
  let qn := BN_of (dsakey.q params) in
  let gn := BN_of (dsakey.g params) in
  let xn := BN_of (dsakey.x key) in
  let yn := BN_of (dsakey.y key) in
  1 < pn /\
  dsakey.p key = dsakey.p params /\
  dsakey.q key = dsakey.q params /\
  dsakey.g key = dsakey.g params /\
  1 <= xn < qn /\
  dsakey.y key = toBuffer (redPow gn xn pn) /\
  (Z.odd pn = true -> yn = gn ^ xn mod pn) /\
  canonical (dsakey.x key) /\ canonical (dsakey.y key).
Proof.
  intros Hrun. apply privateKeyCreate_cases in Hrun. cbv zeta in Hrun.
  destruct Hrun as (k & pos1 & Ek & [(_ & Hres) | (Hp & Hres)]);
    [discriminate|].
  injection Hres as ->.
  pose proof (sample_k_range _ _ _ _ _ _ _ Ek) as Hk.
  cbn [dsakey.p dsakey.q dsakey.g dsakey.x dsakey.y dsakey.params dsakey.pub].
  rewrite (BN_of_toBuffer k) by lia.
  repeat split; try lia; try apply toBuffer_canonical.
  intros Hodd.
  pose proof (redPow_range (BN_of (dsakey.g params)) k
                (BN_of (dsakey.p params)) ltac:(lia) Hodd) as Hy.
  rewrite BN_of_toBuffer by lia. apply redPow_odd. exact Hodd.
Qed.

(** X1.  [privateKeyCreate(params)], once it has drawn its [x], ends
    in the assertion of [BN.mont] when [p <= 1], and returns a key
    otherwise.  The key carries the buffers of [params] unchanged; its
    [x] lies in [1, q - 1] and below [256^(bitLength(q) >>> 3)], the
    size of the buffer it is drawn into; [x] and [y] have no leading
    zero byte, and [computeY] of the key gives back its [y]; for an
    odd [p], [y] is [g^x mod p]. *)
Theorem privateKeyCreate_key {M : Montgomery} (fuel : nat) (rnd : Rand)
  (pos : nat) (params : dsakey.DSAParams)
  (res : Result dsakey.DSAPrivateKey) :
  dsa.privateKeyCreate fuel rnd pos params = Some res ->
  let pn := BN_of (dsakey.p params) in
  let qn := BN_of (dsakey.q params) in
  let gn := BN_of (dsakey.g params) in
  (pn <= 1 -> res = Throw AssertionError) /\
  (1 < pn ->
   exists key, res = Ok key /\
     let xn := BN_of (dsakey.x key) in
     let yn := BN_of (dsakey.y key) in
     dsakey.p key = dsakey.p params /\
     dsakey.q key = dsakey.q params /\
     dsakey.g key = dsakey.g params /\
     1 <= xn < qn /\
     xn < 256 ^ Z.shiftr (bitLength qn) 3 /\
     canonical (dsakey.x key) /\ canonical (dsakey.y key) /\
     dsa.computeY key = Ok (dsakey.y key) /\
     (Z.odd pn = true -> yn = gn ^ xn mod pn)).
Proof.
  intros Hrun. cbv zeta.
  pose proof (privateKeyCreate_cases _ _ _ _ _ Hrun) as Hc. cbv zeta in Hc.
  destruct Hc as (k & pos1 & Ek & [(Hp & ->) | (Hp & ->)]).
  - split; [reflexivity | intros H; lia].
  - split; [intros H; lia|]. intros _. eexists. split; [reflexivity|].
    pose proof (privateKeyCreate_params _ _ _ _ _ Hrun) as H.
    cbv zeta in H.
    destruct H as (_ & Ep & Eq & Eg & Hx & Ey & Hy & Hcx & Hcy).
    split; [exact Ep|]. split; [exact Eq|]. split; [exact Eg|].
    split; [exact Hx|].
    pose proof (sample_k_range _ _ _ _ _ _ _ Ek) as Hk.
    pose proof (sample_k_block _ _ _ _ _ _ _ Ek) as Hblock.
    rewrite Z2Nat.id in Hblock
      by (apply Z.shiftr_nonneg, bitLength_nonneg).
    split.
    { cbn [dsakey.x]. rewrite BN_of_toBuffer by lia. exact Hblock. }
    split; [exact Hcx|]. split; [exact Hcy|].
    split; [|exact Hy].
    unfold dsa.computeY.
    cbn [dsakey.p dsakey.g dsakey.x dsakey.y dsakey.params dsakey.pub].
    rewrite (BN_of_toBuffer k) by lia.
    rewrite modPow_ok by lia. reflexivity.
Qed.

Lemma privateKeyCreate_key_witness :
  dsa.privateKeyCreate (M := zero_on_even) 1 (constant_rand x05) 0
    (dsakey.params (dsakey.toPublic toy_key)) = Some (Ok toy_key) /\
  1 <= BN_of (dsakey.x toy_key) < BN_of (dsakey.q toy_key) /\
  BN_of (dsakey.y toy_key)
  = BN_of (dsakey.g toy_key) ^ BN_of (dsakey.x toy_key)
    mod BN_of (dsakey.p toy_key) /\
  dsa.computeY (M := zero_on_even) toy_key = Ok (dsakey.y toy_key).
Proof.
  assert (Hrun : dsa.privateKeyCreate (M := zero_on_even) 1
                   (constant_rand x05) 0
                   (dsakey.params (dsakey.toPublic toy_key))
                 = Some (Ok toy_key))
    by (vm_compute; reflexivity).
  pose proof (privateKeyCreate_key (M := zero_on_even) 1 (constant_rand x05) 0
                (dsakey.params (dsakey.toPublic toy_key)) (Ok toy_key) Hrun)
    as H.
  cbv zeta in H. destruct H as (_ & H).
  destruct (H ltac:(vm_compute; reflexivity)) as (key & Ekey & Hkey).
  injection Ekey as <-.
  destruct Hkey as (_ & _ & _ & Hx & _ & _ & _ & Hc & Hy).
  split; [exact Hrun|]. split; [exact Hx|].
  split; [apply Hy; vm_compute; reflexivity | exact Hc].
Defined.

(** X2.  When [q] has fewer than eight bits, the buffer
    [privateKeyCreate] draws [x] into is empty: every draw is zero and
    is rejected, and the function returns for no amount of fuel. *)
Theorem privateKeyCreate_short_q {M : Montgomery} (fuel : nat) (rnd : Rand) (pos : nat)
  (params : dsakey.DSAParams) :
  bitLength (BN_of (dsakey.q params)) < 8 ->
  dsa.privateKeyCreate fuel rnd pos params = None.
Proof.
  intros Hq. unfold dsa.privateKeyCreate, dsa.privateKeyCreate_run.
  cbv zeta. rewrite length_alloc.
  pose proof (bitLength_nonneg (BN_of (dsakey.q params))) as H0.
  rewrite Z.shiftr_div_pow2 by lia.
  change (2 ^ 3) with 8. rewrite Z.div_small by lia.
  change (Z.to_nat 0) with 0%nat.
  rewrite sample_k_empty. reflexivity.
Qed.

Lemma privateKeyCreate_short_q_witness :
  bitLength (BN_of [x7f]) < 8 /\
  dsa.privateKeyCreate (M := zero_on_even) 1000 (constant_rand x01) 0
    (dsakey.new_DSAParams [x01; x07] [x7f] [x04]) = None.
Proof.
  split; [vm_compute; reflexivity|].
  apply privateKeyCreate_short_q. vm_compute. reflexivity.
Defined.

(** ** Signing and verifying: failures, ranges and the message *)

Lemma leftPad_throws (v : Buffer) (size : nat) (e : Error) :
  leftPad v size = Throw e -> e = AssertionError.
Proof.
  unfold leftPad. cbv zeta.
  match goal with |- context [assert ?b] => destruct b end;
    cbn [assert bind]; [discriminate|].
  intros [= <-]. reflexivity.
Qed.

Lemma signature_throws (size : Z) (rb sb : Buffer) (e : Error) :
  (sg <- dsasig.setR (dsasig.new_DSASignature size) rb ;;
   dsasig.setS sg sb) = Throw e ->
  e = AssertionError.
Proof.
  unfold dsasig.setR, dsasig.setS, bind.
  destruct (leftPad rb _) as [pr|e1] eqn:E1.
  - cbn [dsasig.size]. destruct (leftPad sb _) as [ps|e2] eqn:E2;
      [discriminate|].
    intros [= <-]. exact (leftPad_throws _ _ _ E2).
  - intros [= <-]. exact (leftPad_throws _ _ _ E1).
Qed.

(** X3.  [sign] raises 'Invalid key.' exactly when one of [p], [q],
    [g], [x] is zero (an empty or all-zero buffer) or the bit length of
    [q] is not a multiple of eight, whatever the random source holds;
    and for a [q] of such a bit length [verify] answers [false] to
    every signature. *)
Theorem unusable_keys {M : Montgomery} (fuel : nat) (rnd : Rand) (pos : nat) (msg : Buffer)
  (key : dsakey.DSAPrivateKey) :
  let pn := BN_of (dsakey.p key) in
  let qn := BN_of (dsakey.q key) in
  let gn := BN_of (dsakey.g key) in
  let xn := BN_of (dsakey.x key) in
  (dsa.sign fuel rnd pos msg key = Some (Throw InvalidKey) <->
   qn = 0 \/ pn = 0 \/ gn = 0 \/ xn = 0 \/ Z.land (bitLength qn) 7 <> 0) /\
  (Z.land (bitLength qn) 7 <> 0 ->
   forall sig, dsa.verify msg sig (dsakey.toPublic key) = Ok false).
Proof.
  cbv zeta.
  pose proof (BN_of_nonneg (dsakey.p key)) as Hp0.
  pose proof (BN_of_nonneg (dsakey.q key)) as Hq0.
  pose proof (BN_of_nonneg (dsakey.g key)) as Hg0.
  pose proof (BN_of_nonneg (dsakey.x key)) as Hx0.
  split; [split|].
  - intros Hsign. unfold dsa.sign in Hsign.
    destruct (dsa.sign_run fuel rnd pos msg key) as [[[res tr] pos']|] eqn:Erun;
      [|discriminate].
    cbn in Hsign. injection Hsign as ->.
    apply sign_run_cases in Erun. cbv zeta in Erun.
    destruct Erun
      as [(_ & _ & Hbad) | (_ & _ & _ & _ & _ & st & Hloop & _ & _ & Hres)].
    + lia.
    + destruct Hres as [(e & He & Hres) | [(_ & _ & Hres) | (_ & _ & Hres)]].
      * apply sign_loop_raised in Hloop. rewrite He in Hloop.
        destruct Hloop as (-> & _). discriminate.
      * discriminate.
      * symmetry in Hres. apply signature_throws in Hres. discriminate.
  - intros Hbad. unfold dsa.sign, dsa.sign_run. cbv zeta.
    assert (E : (BN_of (dsakey.q key) <=? 0) || (BN_of (dsakey.p key) <=? 0)
                || (BN_of (dsakey.g key) <=? 0) || (BN_of (dsakey.x key) <=? 0)
                || negb (Z.land (bitLength (BN_of (dsakey.q key))) 7 =? 0)
                = true).
    { destruct (Z.leb_spec (BN_of (dsakey.q key)) 0); [reflexivity|].
      destruct (Z.leb_spec (BN_of (dsakey.p key)) 0); [reflexivity|].
      destruct (Z.leb_spec (BN_of (dsakey.g key)) 0); [reflexivity|].
      destruct (Z.leb_spec (BN_of (dsakey.x key)) 0); [reflexivity|].
      destruct (Z.eqb_spec (Z.land (bitLength (BN_of (dsakey.q key))) 7) 0);
        [lia|reflexivity]. }
    rewrite E. reflexivity.
  - intros Hbits sig. unfold dsa.verify, dsakey.toPublic. cbv zeta.
    cbn [dsakey.p dsakey.q dsakey.g dsakey.y dsakey.params].
    destruct (BN_of (dsakey.p key) =? 0); [reflexivity|].
    destruct ((BN_of (dsasig.r sig) =? 0)
              || (BN_of (dsasig.r sig) >=? BN_of (dsakey.q key)));
      [reflexivity|].
    destruct ((BN_of (dsasig.s sig) =? 0)
              || (BN_of (dsasig.s sig) >=? BN_of (dsakey.q key)));
      [reflexivity|].
    destruct (Z.eqb_spec (Z.land (bitLength (BN_of (dsakey.q key))) 7) 0);
      [contradiction|reflexivity].
Qed.

(** X4.  A signature that [sign] returns comes from the last pass of
    the loop, every earlier pass having failed: [r] and [s] are the
    values that pass computes from its [k], and both lie strictly
    between 0 and [q], so that the range checks of [verify] let it
    through.  The key has [p > 1]; when [p] is odd,
    [r = (g^k mod p) mod q], and when [q] is odd,
    [s = ((x r + z) k^(q-2)) mod q]. *)
Theorem sign_signature_in_range {M : Montgomery} (fuel : nat) (rnd : Rand)
  (pos : nat) (msg : Buffer) (key : dsakey.DSAPrivateKey)
  (sig : dsasig.DSASignature) (tr : list dsa.Attempt) (pos' : nat) :
  dsa.sign_run fuel rnd pos msg key = Some (Ok sig, tr, pos') ->
  let pn := BN_of (dsakey.p key) in
  let qn := BN_of (dsakey.q key) in
  let gn := BN_of (dsakey.g key) in
  let xn := BN_of (dsakey.x key) in
  let rn := BN_of (dsasig.r sig) in
  let sn := BN_of (dsasig.s sig) in
  1 < pn /\ 0 < rn < qn /\ 0 < sn < qn /\
  exists (k : Z) (before : list dsa.Attempt),
    1 <= k < qn /\
    rn = pass_r pn qn gn k /\
    sn = pass_s pn qn gn xn (BN_of msg) k /\
    tr = before ++ [(k, rn, Some sn)] /\
    forallb dsa.attempt_failed before = true /\
    (Z.odd pn = true -> rn = (gn ^ k mod pn) mod qn) /\
    (Z.odd qn = true ->
     sn = ((xn * rn + BN_of msg) mod qn * (k ^ (qn - 2) mod qn)) mod qn).
Proof.
  intros Erun. cbv zeta.
  apply sign_run_cases in Erun. cbv zeta in Erun.
  destruct Erun as [(Hres & _) | (Hq & Hp & Hgp & Hx & Hn & st & Hloop & Htr & _ & Hres)];
    [discriminate|].
  destruct Hres as [(e & _ & Hres) | [(_ & _ & Hres) | (Hnone & Hatt & Hres)]];
    [discriminate|discriminate|].
  pose proof (sign_loop_raised _ _ _ _ _ _ _ _ _ _ _ _ _ Hloop) as Hraised.
  rewrite Hnone in Hraised.
  assert (Hp1 : 1 < BN_of (dsakey.p key))
    by (destruct Hraised; [discriminate | assumption]).
  apply sign_loop_inv in Hloop; [|exact Hnone].
  destruct Hloop as (_ & _ & _ & Hok).
  destruct (Hok Hatt) as (_ & k & Hk & Hr & Hrn & Hs & Hsn & before & Hpasses & Hfail).
  rewrite Hr in Hrn. rewrite Hs in Hsn.
  destruct (pass_ranges _ _ _ _ _ _ Hq Hrn Hsn) as [Hrr Hsr].
  symmetry in Hres. apply signature_built in Hres; [|lia|lia].
  destruct Hres as (Hsigr & Hsigs & _).
  rewrite Hsigr, Hsigs, Hr, Hs.
  split; [exact Hp1|]. split; [exact Hrr|]. split; [exact Hsr|].
  exists k, before.
  split; [exact Hk|]. split; [reflexivity|]. split; [reflexivity|].
  split; [rewrite Htr, Hpasses, Hr, Hs; reflexivity|].
  split; [exact Hfail|].
  split.
  - intros Hodd. unfold pass_r. rewrite redPow_odd by exact Hodd. reflexivity.
  - intros Hodd. unfold pass_s. rewrite (redPow_odd k) by exact Hodd.
    reflexivity.
Qed.

Lemma sign_signature_in_range_witness :
  dsa.sign_run (M := zero_on_even) 1 (constant_rand x07) 0 [x42] toy_key
    = Some (Ok (dsasig.mkDSASignature 1 [x4e] [x09]),
            [(7, 78, Some 9)], 1%nat) /\
  0 < 78 < 131 /\ 0 < 9 < 131 /\ 78 = (4 ^ 7 mod 263) mod 131.
Proof.
  assert (Hrun : dsa.sign_run (M := zero_on_even) 1 (constant_rand x07) 0
                   [x42] toy_key
                 = Some (Ok (dsasig.mkDSASignature 1 [x4e] [x09]),
                         [(7, 78, Some 9)], 1%nat))
    by (vm_compute; reflexivity).
  split; [exact Hrun|].
  pose proof (sign_signature_in_range (M := zero_on_even) _ _ _ _ _ _ _ _ Hrun)
    as H.
  cbv zeta in H.
  destruct H as (_ & Hr & Hs & k & before & _ & _ & _ & Htr & _ & Hodd & _).
  split; [exact Hr|]. split; [exact Hs|].
  destruct before as [|a [|b rest]]; [|discriminate Htr|discriminate Htr].
  injection Htr as Hk. rewrite <- Hk in Hodd. apply Hodd. reflexivity.
Defined.

Lemma sum_mod_congr (a z z' q : Z) :
  z mod q = z' mod q -> (a + z) mod q = (a + z') mod q.
Proof.
  intros H. destruct (Z.eq_dec q 0) as [->|Hq].
  - rewrite !Z.mod_0_r in *. lia.
  - rewrite <- (Z.add_mod_idemp_r a z) by exact Hq.
    rewrite <- (Z.add_mod_idemp_r a z') by exact Hq.
    rewrite H. reflexivity.
Qed.

Lemma sign_loop_message {M : Montgomery} (budget fuel : nat) (rnd : Rand) (n : nat)
  (pn qn gn xn : Z) (msg msg' : Buffer) :
  BN_of msg mod qn = BN_of msg' mod qn ->
  forall (pos : nat) (r s : Z),
    dsa.sign_loop budget fuel rnd pos n pn qn gn xn msg r s
    = dsa.sign_loop budget fuel rnd pos n pn qn gn xn msg' r s.
Proof.
  intros Hz. induction budget as [|budget IH]; intros pos r s; [reflexivity|].
  cbn [dsa.sign_loop].
  destruct (dsa.sample_k fuel rnd pos n qn) as [[k pos1]|]; [|reflexivity].
  destruct (fermatInverse k qn) as [ki|e]; [|reflexivity].
  destruct (modPow gn k pn) as [v|e]; [|reflexivity].
  cbv zeta.
  rewrite (sum_mod_congr (xn * (v mod qn)) _ _ qn Hz).
  destruct (v mod qn =? 0).
  - rewrite IH. reflexivity.
  - destruct (negb _); [reflexivity|]. rewrite IH. reflexivity.
Qed.

(** X5.  [sign] and [verify] read the message as a big-endian integer
    and use it modulo [q] only: two messages whose integers are
    congruent modulo [q] (a message and the same message behind zero
    bytes, for one) get the same signature from the same random bytes,
    and every signature is accepted for both or for neither. *)
Theorem message_modulo_q {M : Montgomery} (fuel : nat) (rnd : Rand) (pos : nat)
  (msg msg' : Buffer) (key : dsakey.DSAPrivateKey)
  (sig : dsasig.DSASignature) :
  BN_of msg mod BN_of (dsakey.q key) = BN_of msg' mod BN_of (dsakey.q key) ->
  dsa.sign fuel rnd pos msg key = dsa.sign fuel rnd pos msg' key /\
  dsa.verify msg sig (dsakey.toPublic key)
  = dsa.verify msg' sig (dsakey.toPublic key).
Proof.
  intros Hz. split.
  - unfold dsa.sign, dsa.sign_run. cbv zeta.
    rewrite (sign_loop_message _ _ _ _ _ _ _ _ msg msg' Hz). reflexivity.
  - unfold dsa.verify, dsakey.toPublic. cbv zeta.
    cbn [dsakey.p dsakey.q dsakey.g dsakey.y dsakey.params].
    rewrite (mod_mul_congr (BN_of msg) (BN_of msg') _ _ Hz). reflexivity.
Qed.

Lemma message_modulo_q_witness :
  BN_of [x42] mod BN_of (dsakey.q toy_key)
  = BN_of [x00; xc5] mod BN_of (dsakey.q toy_key) /\
  dsa.sign (M := zero_on_even) 1 (constant_rand x07) 0 [x00; xc5] toy_key
    = Some (Ok (dsasig.mkDSASignature 1 [x4e] [x09])) /\
  dsa.verify (M := zero_on_even) [x00; xc5]
    (dsasig.mkDSASignature 1 [x4e] [x09])
    (dsakey.toPublic toy_key) = Ok true.
Proof.
  assert (Hz : BN_of [x42] mod BN_of (dsakey.q toy_key)
               = BN_of [x00; xc5] mod BN_of (dsakey.q toy_key))
    by (vm_compute; reflexivity).
  split; [exact Hz|].
  destruct (message_modulo_q (M := zero_on_even) 1 (constant_rand x07) 0
              [x42] [x00; xc5]
              toy_key (dsasig.mkDSASignature 1 [x4e] [x09]) Hz)
    as [Hs Hv].
  split.
  - rewrite <- Hs. vm_compute. reflexivity.
  - rewrite <- Hv. vm_compute. reflexivity.
Defined.

(** ** Parameter and key generation, whatever the primality test *)

Lemma low_bit_byte (b : byte) : u8 (mk_u8 (Z.lor (u8 b) 1)) mod 2 = 1.
Proof. destruct b; reflexivity. Qed.

Lemma low_bit_kept (b : byte) :
  u8 (mk_u8 (Z.lor (u8 (mk_u8 (Z.lor (u8 b) 1))) 128)) mod 2 = 1.
Proof. destruct b; reflexivity. Qed.

Lemma or_at_last (l : Buffer) (b : byte) (m : Z) :
  or_at (List.length (l ++ [b]) - 1) m (l ++ [b])
  = l ++ [mk_u8 (Z.lor (u8 b) m)].
Proof.
  rewrite length_app. cbn [List.length].
  replace (List.length l + 1 - 1)%nat with (List.length l) by lia.
  unfold or_at.
  rewrite nth_error_app2 by lia. rewrite Nat.sub_diag. cbn [nth_error].
  rewrite firstn_app, Nat.sub_diag, firstn_all. cbn [firstn].
  rewrite app_nil_r.
  rewrite skipn_all2 by (rewrite length_app; cbn [List.length]; lia).
  reflexivity.
Qed.

Lemma BN_of_parity (l : Buffer) (b : byte) :
  BN_of (l ++ [b]) mod 2 = u8 b mod 2.
Proof.
  rewrite BN_of_snoc.
  replace (BN_of l * 256 + u8 b) with (u8 b + (BN_of l * 128) * 2) by lia.
  apply Z.mod_add. lia.
Qed.

(** A candidate as [generate] draws it is odd. *)
Lemma candidate_odd (rnd : Rand) (pos n : nat) :
  (0 < n)%nat ->
  let pb := fst (randomFill rnd pos n) in
  BN_of (or_at 0 128 (or_at (List.length pb - 1) 1 pb)) mod 2 = 1.
Proof.
  intros Hn pb.
  pose proof (length_randomFill rnd pos n) as Hlen. fold pb in Hlen.
  destruct (exists_last (l := pb)) as (l & b & E).
  { intros E. rewrite E in Hlen. cbn in Hlen. lia. }
  rewrite E, or_at_last.
  destruct l as [|a l'].
  - unfold or_at. cbn [app nth_error firstn skipn].
    change [mk_u8 (Z.lor (u8 (mk_u8 (Z.lor (u8 b) 1))) 128)]
      with ([] ++ [mk_u8 (Z.lor (u8 (mk_u8 (Z.lor (u8 b) 1))) 128)]).
    rewrite BN_of_parity. apply low_bit_kept.
  - unfold or_at. cbn [app nth_error firstn skipn].
    rewrite app_comm_cons, BN_of_parity. apply low_bit_byte.
Qed.

Section GenerationRuns.

Context {M : Montgomery}.
Variable probablyPrime : Rand -> nat -> Z -> Z -> bool * nat.

(** The [q] the search returns was accepted by the test, and is odd. *)
Lemma search_pq_accepts (fuel : nat) (rnd : Rand) (pos : nat) (L N pn qn : Z)
  (pos' : nat) :
  dsa.search_pq probablyPrime fuel rnd pos L N = Some (pn, qn, pos') ->
  (exists pos1 : nat, fst (probablyPrime rnd pos1 qn 64) = true) /\
  ((0 < Z.to_nat (Z.shiftr N 3))%nat -> qn mod 2 = 1).
Proof.
  revert pos. induction fuel as [|fuel IH]; intros pos;
    cbn [dsa.search_pq]; [discriminate|].
  set (n := Z.to_nat (Z.shiftr N 3)).
  pose proof (candidate_odd rnd pos n) as Hodd. cbv zeta in Hodd.
  unfold randomFill in *. cbn [fst] in Hodd.
  set (cand := BN_of (or_at 0 128
                 (or_at (List.length (map rnd (seq pos n)) - 1) 1
                    (map rnd (seq pos n))))) in *.
  destruct (probablyPrime rnd (pos + n)%nat cand 64) as [prime pos2] eqn:Epp.
  destruct prime; cbn [negb]; [|apply IH].
  destruct (dsa.search_p probablyPrime (Z.to_nat (4 * L)) rnd pos2 L cand)
    as [[pn'|] pos3] eqn:Ep; [|apply IH].
  intros [= <- <- <-]. split; [|exact Hodd].
  exists (pos + n)%nat. rewrite Epp. reflexivity.
Qed.

(** [generate_run] and [paramsGenerate_run] return what [generate] and
    [paramsGenerate] return. *)
Lemma generate_run_fst (fuel : nat) (rnd : Rand) (pos : nat) (L N : Z) :
  option_map fst (dsa.generate_run probablyPrime fuel rnd pos L N)
  = dsa.generate probablyPrime fuel rnd pos L N.
Proof.
  unfold dsa.generate_run, dsa.generate.
  destruct (negb (dsa.is_uint32 L) || negb (dsa.is_uint32 N)); [reflexivity|].
  destruct (dsa.generate_sizes L N); [|reflexivity].
  destruct (dsa.search_pq probablyPrime fuel rnd pos L N)
    as [[[pn qn] pos1]|]; [|reflexivity].
  cbv zeta.
  destruct (dsa.search_g fuel 2 ((pn - 1) / qn) pn) as [[gn|err]|];
    reflexivity.
Qed.

Lemma paramsGenerate_run_fst (fuel : nat) (rnd : Rand) (pos : nat)
  (bits : option Z) :
  option_map fst (dsa.paramsGenerate_run probablyPrime fuel rnd pos bits)
  = dsa.paramsGenerate probablyPrime fuel rnd pos bits.
Proof.
  unfold dsa.paramsGenerate_run, dsa.paramsGenerate. cbv zeta.
  destruct (negb (dsa.is_uint32 _)); [reflexivity|].
  destruct ((_ <? 1024) || (_ >? 3072)); [reflexivity|].
  apply generate_run_fst.
Qed.

(** What [generate] hands back, with no assumption on the test. *)
Lemma generate_facts (fuel : nat) (rnd : Rand) (pos : nat) (L N : Z)
  (params : dsakey.DSAParams) :
  dsa.generate probablyPrime fuel rnd pos L N = Some (Ok params) ->
  exists pn qn gn h : Z,
    params = {| dsakey.p := toBuffer pn; dsakey.q := toBuffer qn;
                dsakey.g := toBuffer gn |} /\
    ((L = 1024 /\ N = 160) \/ (L = 2048 /\ N = 224) \/
     (L = 2048 /\ N = 256) \/ (L = 3072 /\ N = 256)) /\
    2 ^ (N - 1) <= qn < 2 ^ N /\ qn mod 2 = 1 /\
    (exists pos1 : nat, fst (probablyPrime rnd pos1 qn 64) = true) /\
    (exists pos1 : nat, fst (probablyPrime rnd pos1 pn 64) = true) /\
    (qn | pn - 1) /\ 2 ^ (L - 1) <= pn <= 2 ^ L /\
    2 <= h /\ gn = redPow h ((pn - 1) / qn) pn /\ gn <> 1 /\
    (forall j, 2 <= j < h -> redPow j ((pn - 1) / qn) pn = 1).
Proof.
  intros Hgen. unfold dsa.generate in Hgen.
  destruct (negb (dsa.is_uint32 L) || negb (dsa.is_uint32 N));
    [discriminate|].
  destruct (dsa.generate_sizes L N) as [[]|err] eqn:Esizes; [|discriminate].
  destruct (dsa.search_pq probablyPrime fuel rnd pos L N)
    as [[[pn qn] pos1]|] eqn:Epq; [|discriminate].
  cbv zeta in Hgen.
  destruct (dsa.search_g fuel 2 ((pn - 1) / qn) pn) as [[gn|err]|] eqn:Eg;
    [|discriminate|discriminate].
  injection Hgen as <-.
  assert (HLN : (L = 1024 /\ N = 160) \/ (L = 2048 /\ N = 224) \/
                (L = 2048 /\ N = 256) \/ (L = 3072 /\ N = 256)).
  { unfold dsa.generate_sizes in Esizes.
    destruct (Z.eqb_spec L 1024), (Z.eqb_spec L 2048), (Z.eqb_spec L 3072),
             (Z.eqb_spec N 160), (Z.eqb_spec N 224), (Z.eqb_spec N 256);
      cbn in Esizes; try discriminate; lia. }
  assert (ELn : 8 * Z.of_nat (Z.to_nat (Z.shiftr L 3)) = L /\
                (0 < Z.to_nat (Z.shiftr L 3))%nat).
  { destruct HLN as [[-> _] | [[-> _] | [[-> _] | [-> _]]]];
      (split; [reflexivity | apply Nat.ltb_lt; reflexivity]). }
  assert (ENn : 8 * Z.of_nat (Z.to_nat (Z.shiftr N 3)) = N /\
                (0 < Z.to_nat (Z.shiftr N 3))%nat).
  { destruct HLN as [[_ ->] | [[_ ->] | [[_ ->] | [_ ->]]]];
      (split; [reflexivity | apply Nat.ltb_lt; reflexivity]). }
  destruct ELn as [EL HLpos]. destruct ENn as [EN HNpos].
  pose proof (search_pq_accepts _ _ _ _ _ _ _ _ Epq) as [Hacc Hodd].
  specialize (Hodd HNpos).
  apply search_pq_inv in Epq.
  destruct Epq as (Hq & cand & pos2 & Hcand & Hpn & Hbits & Hpp).
  specialize (Hq HNpos). specialize (Hcand HLpos).
  rewrite EN in Hq. rewrite EL in Hcand.
  assert (Hq0 : 0 < 2 ^ (N - 1)) by (apply Z.pow_pos_nonneg; lia).
  pose proof (Z.mod_pos_bound cand qn ltac:(lia)) as Hm.
  assert (HL0 : 0 < 2 ^ (L - 1)) by (apply Z.pow_pos_nonneg; lia).
  assert (Hpos : 0 < pn).
  { destruct (Z.leb_spec pn 0) as [Hle|]; [|assumption].
    unfold bitLength in Hbits.
    destruct (Z.leb_spec pn 0); lia. }
  assert (Hlow : 2 ^ (L - 1) <= pn).
  { pose proof (bitLength_spec pn Hpos) as [Hs _].
    assert (2 ^ (L - 1) <= 2 ^ (bitLength pn - 1))
      by (apply Z.pow_le_mono_r; lia).
    lia. }
  apply search_g_inv in Eg.
  destruct Eg as (_ & h & Hh & Hg & Hne & Hall).
  exists pn, qn, gn, h.
  split; [reflexivity|]. split; [exact HLN|]. split; [exact Hq|].
  split; [exact Hodd|]. split; [exact Hacc|].
  split; [exists pos2; exact Hpp|].
  split; [exists (cand / qn); pose proof (Z.div_mod cand qn ltac:(lia)); lia|].
  split; [lia|].
  split; [exact Hh|]. split; [exact Hg|]. split; [exact Hne|exact Hall].
Qed.

End GenerationRuns.

(** X6.  Whatever the primality test answers, the parameters
    [generate(L, N)] returns are for one of the four size pairs, and
    have: a [q] of exactly [N] bits that is odd and divides [p - 1]; a
    [p] with [2^(L-1) <= p <= 2^L]; a [g] other than one; and buffers
    with no leading zero byte.  When [p] is odd, [0 <= g < p] and [g]
    is of the form [h^((p-1)/q) mod p] for some [h >= 2]. *)
Theorem generate_shape {M : Montgomery}
  (probablyPrime : Rand -> nat -> Z -> Z -> bool * nat)
  (fuel : nat) (rnd : Rand) (pos : nat) (L N : Z)
  (params : dsakey.DSAParams) :
  dsa.generate probablyPrime fuel rnd pos L N = Some (Ok params) ->
  let p := BN_of (dsakey.p params) in
  let q := BN_of (dsakey.q params) in
  let g := BN_of (dsakey.g params) in
  ((L = 1024 /\ N = 160) \/ (L = 2048 /\ N = 224) \/
   (L = 2048 /\ N = 256) \/ (L = 3072 /\ N = 256)) /\
  bitLength q = N /\ q mod 2 = 1 /\ (q | p - 1) /\
  2 ^ (L - 1) <= p <= 2 ^ L /\
  g <> 1 /\
  (Z.odd p = true ->
   0 <= g < p /\ exists h, 2 <= h /\ g = h ^ ((p - 1) / q) mod p) /\
  dsakey.params_canonical params.
Proof.
  intros Hgen. cbv zeta.
  apply generate_facts in Hgen.
  destruct Hgen as (pn & qn & gn & h & -> & HLN & Hq & Hodd & _ & _ & Hdiv
                    & Hp & Hh & Hg & Hne & _).
  cbn [dsakey.p dsakey.q dsakey.g].
  assert (HL : 1024 <= L) by lia.
  assert (HN : 160 <= N) by lia.
  assert (Hq0 : 0 < 2 ^ (N - 1)) by (apply Z.pow_pos_nonneg; lia).
  assert (HL0 : 0 < 2 ^ (L - 1)) by (apply Z.pow_pos_nonneg; lia).
  rewrite (BN_of_toBuffer pn), (BN_of_toBuffer qn) by lia.
  split; [exact HLN|].
  split; [apply bitLength_unique; lia|].
  split; [exact Hodd|]. split; [exact Hdiv|]. split; [exact Hp|].
  split.
  { destruct (Z.le_gt_cases 0 gn) as [Hg0|Hg0].
    - rewrite BN_of_toBuffer by exact Hg0. exact Hne.
    - rewrite toBuffer_nonpos by lia. discriminate. }
  split.
  - intros Hpodd.
    assert (Hgr : 0 <= gn < pn)
      by (rewrite Hg; apply redPow_range; [lia | exact Hpodd]).
    rewrite BN_of_toBuffer by lia.
    split; [exact Hgr|].
    exists h. split; [exact Hh|]. rewrite Hg. apply redPow_odd. exact Hpodd.
  - repeat split; apply toBuffer_canonical.
Qed.

Lemma generate_shape_witness :
  dsa.generate (M := zero_on_even) certified_probablyPrime 1 witness_rand 0
    1024 160 = Some (Ok witness_params) /\
  bitLength (BN_of (dsakey.q witness_params)) = 160 /\
  BN_of (dsakey.q witness_params) mod 2 = 1 /\
  (BN_of (dsakey.q witness_params) | BN_of (dsakey.p witness_params) - 1) /\
  dsakey.params_canonical witness_params.
Proof.
  split; [exact witness_generate|].
  pose proof (generate_shape (M := zero_on_even) certified_probablyPrime 1
                witness_rand 0 1024 160 witness_params witness_generate) as H.
  cbv zeta in H.
  destruct H as (_ & Hq & Hodd & Hdiv & _ & _ & _ & Hc).
  split; [exact Hq|]. split; [exact Hodd|]. split; [exact Hdiv|exact Hc].
Defined.

(** The key [privateKeyGenerate] returns, under a primality test that
    accepts only primes. *)
Lemma privateKeyGenerate_inv {M : Montgomery}
  (probablyPrime : Rand -> nat -> Z -> Z -> bool * nat)
  (fuel : nat) (rnd : Rand) (pos : nat) (bits : option Z)
  (key : dsakey.DSAPrivateKey) :
  (forall rnd pos n reps,
     fst (probablyPrime rnd pos n reps) = true -> Z.prime n) ->
  dsa.privateKeyGenerate probablyPrime fuel rnd pos bits = Some (Ok key) ->
  let L := match bits with None => 2048 | Some b => b end in
  let pn := BN_of (dsakey.p key) in
  let qn := BN_of (dsakey.q key) in
  let gn := BN_of (dsakey.g key) in
  let xn := BN_of (dsakey.x key) in
  Z.prime pn /\ Z.prime qn /\ (qn | pn - 1) /\
  bitLength pn = L /\ bitLength qn = (if L <? 2048 then 160 else 256) /\
  gn <> 1 /\ 1 <= xn < qn /\
  key_invariants key /\ dsakey.private_canonical key.
Proof.
  intros Hsound Hrun. cbv zeta.
  unfold dsa.privateKeyGenerate in Hrun.
  pose proof (paramsGenerate_run_fst probablyPrime fuel rnd pos bits) as Hfst.
  destruct (dsa.paramsGenerate_run probablyPrime fuel rnd pos bits)
    as [[[params|e] pos1]|] eqn:Eparams; [|discriminate|discriminate].
  cbn [option_map fst] in Hfst. symmetry in Hfst.
  rename Hrun into Ekey.
  (* the parameters *)
  unfold dsa.paramsGenerate in Hfst. cbv zeta in Hfst.
  set (L := match bits with None => 2048 | Some b => b end) in *.
  destruct (negb (dsa.is_uint32 L)); [discriminate|].
  destruct ((L <? 1024) || (L >? 3072)); [discriminate|].
  set (N := if L <? 2048 then 160 else 256) in *.
  apply generate_facts in Hfst.
  destruct Hfst as (pn & qn & gn & h & Eparams' & HLN & Hq & Hodd & [pq Haq]
                    & [pp Hap] & Hdiv & Hp & Hh & Hg & Hne & Hall).
  apply Hsound in Haq. apply Hsound in Hap.
  assert (HL : 1024 <= L) by lia.
  assert (HN : 160 <= N <= 256) by lia.
  assert (HNL : N < L - 1) by lia.
  assert (Hq0 : 0 < 2 ^ (N - 1)) by (apply Z.pow_pos_nonneg; lia).
  assert (HL0 : 0 < 2 ^ (L - 1)) by (apply Z.pow_pos_nonneg; lia).
  assert (Hmono : 2 ^ N < 2 ^ (L - 1)) by (apply Z.pow_lt_mono_r; lia).
  assert (H4L : 4 <= 2 ^ (L - 1)).
  { change 4 with (2 ^ 2). apply Z.pow_le_mono_r; lia. }
  assert (Hpodd : Z.odd pn = true) by (apply odd_prime; [exact Hap | lia]).
  assert (Hgr : 0 <= gn < pn)
    by (rewrite Hg; apply redPow_range; [lia | exact Hpodd]).
  assert (Hne2 : pn <> 2 ^ L).
  { intros E. rewrite E in Hap. apply (pow2_not_prime L); [lia|exact Hap]. }
  assert (HqN : bitLength qn = N) by (apply bitLength_unique; lia).
  assert (HpL : bitLength pn = L).
  { apply bitLength_unique; [lia|]. lia. }
  assert (Hq2 : 2 <= 2 ^ (N - 1)).
  { change 2 with (2 ^ 1) at 1. apply Z.pow_le_mono_r; lia. }
  assert (Hord : gn ^ qn mod pn = 1).
  { apply (generator_order pn qn h gn); try assumption; lia. }
  assert (Hg1 : 1 < gn).
  { destruct (Z.eq_dec gn 0) as [E0|]; [|lia].
    rewrite E0, Z.pow_0_l, Z.mod_0_l in Hord by lia. discriminate. }
  (* the key *)
  pose proof (privateKeyCreate_params fuel rnd pos1 params key Ekey) as Hk.
  cbv zeta in Hk.
  destruct Hk as (_ & Ep & Eq & Eg & Hx & _ & Hy & Hcx & Hcy).
  rewrite Ep, Eq, Eg in *.
  rewrite Eparams' in *. cbn [dsakey.p dsakey.q dsakey.g] in *.
  rewrite !BN_of_toBuffer in * by lia.
  split; [exact Hap|]. split; [exact Haq|]. split; [exact Hdiv|].
  split; [exact HpL|]. split; [exact HqN|]. split; [exact Hne|].
  split; [exact Hx|].
  split.
  - unfold key_invariants. cbv zeta.
    rewrite Ep, Eq, Eg. rewrite !BN_of_toBuffer by lia.
    split; [exact Hap|]. split; [exact Haq|].
    split; [rewrite HqN; subst N; destruct (L <? 2048); reflexivity|].
    split; [exact Hdiv|]. split; [lia|]. split; [exact Hord|].
    split; [lia|]. apply Hy. exact Hpodd.
  - unfold dsakey.private_canonical, dsakey.key_canonical,
      dsakey.params_canonical.
    rewrite Ep, Eq, Eg.
    repeat split; try assumption; apply toBuffer_canonical.
Qed.

(** X7.  With a primality test that accepts only primes, the key
    [privateKeyGenerate(bits)] returns has [p] and [q] prime of
    [bits] and 160 or 256 bits, [q] dividing [p - 1], a [g] other
    than one with [g^q mod p = 1], an [x] in [1, q - 1] and
    [y = g^x mod p]: it satisfies the invariants on which signing and
    verifying rest. *)
Theorem privateKeyGenerate_valid {M : Montgomery}
  (probablyPrime : Rand -> nat -> Z -> Z -> bool * nat)
  (fuel : nat) (rnd : Rand) (pos : nat) (bits : option Z)
  (key : dsakey.DSAPrivateKey) :
  (forall rnd pos n reps,
     fst (probablyPrime rnd pos n reps) = true -> Z.prime n) ->
  dsa.privateKeyGenerate probablyPrime fuel rnd pos bits = Some (Ok key) ->
  let L := match bits with None => 2048 | Some b => b end in
  let pn := BN_of (dsakey.p key) in
  let qn := BN_of (dsakey.q key) in
  let gn := BN_of (dsakey.g key) in
  let xn := BN_of (dsakey.x key) in
  Z.prime pn /\ Z.prime qn /\ (qn | pn - 1) /\
  bitLength pn = L /\ bitLength qn = (if L <? 2048 then 160 else 256) /\
  gn <> 1 /\ 1 <= xn < qn /\
  key_invariants key /\ dsakey.private_canonical key.
Proof.
  intros Hsound Hrun.
  exact (privateKeyGenerate_inv probablyPrime fuel rnd pos bits key
           Hsound Hrun).
Qed.

(** The run of [privateKeyGenerate(1024)] on the tape [keygen_tape]. *)
Lemma keygen_paramsGenerate_run {M : Montgomery} :
  dsa.paramsGenerate_run certified_probablyPrime 1 keygen_rand 0 (Some 1024)
  = Some (Ok witness_params, 148%nat).
Proof.
  unfold dsa.paramsGenerate_run. cbv zeta.
  replace (negb (dsa.is_uint32 1024)) with false by reflexivity.
  replace ((1024 <? 1024) || (1024 >? 3072)) with false by reflexivity.
  replace (if 1024 <? 2048 then 160 else 256) with 160 by reflexivity.
  unfold dsa.generate_run.
  replace (negb (dsa.is_uint32 1024) || negb (dsa.is_uint32 160))
    with false by reflexivity.
  replace (dsa.generate_sizes 1024 160) with (@Ok unit tt) by reflexivity.
  replace (dsa.search_pq certified_probablyPrime 1 keygen_rand 0 1024 160)
    with (Some (witness_P, witness_Q, 148%nat))
    by (vm_compute; reflexivity).
  cbv zeta. rewrite (witness_search_g (M := M)). reflexivity.
Qed.

Lemma keygen_privateKeyCreate {M : Montgomery} :
  dsa.privateKeyCreate 1 keygen_rand 148 witness_params
  = Some (Ok witness_key).
Proof. vm_compute. reflexivity. Qed.

Lemma keygen_privateKeyGenerate {M : Montgomery} :
  dsa.privateKeyGenerate certified_probablyPrime 1 keygen_rand 0 (Some 1024)
  = Some (Ok witness_key).
Proof.
  unfold dsa.privateKeyGenerate.
  rewrite (keygen_paramsGenerate_run (M := M)).
  exact (keygen_privateKeyCreate (M := M)).
Qed.

Lemma privateKeyGenerate_valid_witness :
  dsa.privateKeyGenerate (M := zero_on_even) certified_probablyPrime 1
    keygen_rand 0 (Some 1024) = Some (Ok witness_key) /\
  Z.prime (BN_of (dsakey.p witness_key)) /\
  Z.prime (BN_of (dsakey.q witness_key)) /\
  bitLength (BN_of (dsakey.p witness_key)) = 1024 /\
  bitLength (BN_of (dsakey.q witness_key)) = 160 /\
  key_invariants witness_key.
Proof.
  split; [exact keygen_privateKeyGenerate|].
  pose proof (privateKeyGenerate_valid (M := zero_on_even)
                certified_probablyPrime 1 keygen_rand
                0 (Some 1024) witness_key certified_probablyPrime_sound
                keygen_privateKeyGenerate) as H.
  cbv zeta in H.
  destruct H as (Hp & Hq & _ & HL & HN & _ & _ & Hinv & _).
  split; [exact Hp|]. split; [exact Hq|]. split; [exact HL|].
  split; [exact HN|exact Hinv].
Defined.

(** ** Key objects: normal forms, sizes and JSON *)

(** Canonical buffers holding the same number are the same buffer. *)
Lemma canonical_inj (l1 l2 : Buffer) :
  canonical l1 -> canonical l2 -> BN_of l1 = BN_of l2 -> l1 = l2.
Proof.
  intros H1 H2 E. apply BN_of_inj; [|exact E].
  apply Nat2Z.inj.
  rewrite (canonical_length l1 H1), (canonical_length l2 H2), E.
  reflexivity.
Qed.

Lemma trimLeft_eq_iff (l1 l2 : Buffer) :
  trimLeft l1 = trimLeft l2 <-> BN_of l1 = BN_of l2.
Proof.
  split.
  - intros E. rewrite <- (BN_of_trimLeft l1), <- (BN_of_trimLeft l2), E.
    reflexivity.
  - intros E. apply canonical_inj; try apply canonical_trimLeft.
    rewrite !BN_of_trimLeft. exact E.
Qed.

(** X8.  The constructor of a key object stores each field without
    its leading zero bytes and with its value unchanged; two
    constructions give the same object exactly when the buffers they
    are given hold the same five integers.  [toParams] puts the
    parameters of any key object into that form again. *)
Theorem constructor_normal_form (p q g y x p' q' g' y' x' : Buffer) :
  let key := dsakey.new_DSAPrivateKey p q g y x in
  dsakey.private_canonical key /\
  (BN_of (dsakey.p key) = BN_of p /\ BN_of (dsakey.q key) = BN_of q /\
   BN_of (dsakey.g key) = BN_of g /\ BN_of (dsakey.y key) = BN_of y /\
   BN_of (dsakey.x key) = BN_of x) /\
  (key = dsakey.new_DSAPrivateKey p' q' g' y' x' <->
   BN_of p = BN_of p' /\ BN_of q = BN_of q' /\ BN_of g = BN_of g' /\
   BN_of y = BN_of y' /\ BN_of x = BN_of x') /\
  dsakey.toParams (dsakey.mkDSAKey (dsakey.mkDSAParams p q g) y)
  = dsakey.params (dsakey.pub key).
Proof.
  cbv zeta. split; [apply new_DSAPrivateKey_canonical|].
  split.
  - cbn [dsakey.new_DSAPrivateKey dsakey.new_DSAKey dsakey.new_DSAParams
         dsakey.p dsakey.q dsakey.g dsakey.y dsakey.x dsakey.pub
         dsakey.params].
    rewrite !BN_of_trimLeft. repeat split; reflexivity.
  - split; [|reflexivity].
    unfold dsakey.new_DSAPrivateKey, dsakey.new_DSAKey, dsakey.new_DSAParams.
    split.
    + intros [= Ep Eq Eg Ey Ex].
      apply trimLeft_eq_iff in Ep, Eq, Eg, Ey, Ex. repeat split; assumption.
    + intros (Ep & Eq & Eg & Ey & Ex).
      apply trimLeft_eq_iff in Ep, Eq, Eg, Ey, Ex.
      rewrite Ep, Eq, Eg, Ey, Ex. reflexivity.
Qed.

(** X9.  Setters and conversions keep key objects canonical: after
    [setP], [setQ], [setG], [setY], [setX], [setParams] (given
    canonical parameters) and [toPublic], an object whose fields had
    no leading zero byte still has none; and the public key
    [toPublic] returns has the four public fields of the private
    key. *)
Theorem setters_keep_canonical (k : dsakey.DSAPrivateKey)
  (ps : dsakey.DSAParams) (v : Buffer) :
  dsakey.private_canonical k ->
  dsakey.params_canonical ps ->
  dsakey.params_canonical (dsakey.setP k v) /\
  dsakey.params_canonical (dsakey.setQ k v) /\
  dsakey.params_canonical (dsakey.setG k v) /\
  dsakey.key_canonical (dsakey.setY k v) /\
  dsakey.private_canonical (dsakey.setX k v) /\
  dsakey.key_canonical (dsakey.setParams k ps) /\
  dsakey.key_canonical (dsakey.toPublic k) /\
  dsakey.toPublic k = dsakey.pub k.
Proof.
  intros Hk Hps.
  pose proof Hk as [[Hpar Hy] Hx].
  destruct (setters_canonical k v Hpar) as (HP & HQ & HG).
  split; [exact HP|]. split; [exact HQ|]. split; [exact HG|].
  split; [apply setY_canonical; split; assumption|].
  split; [apply setX_canonical; exact Hk|].
  split; [apply setParams_canonical; [split; assumption|exact Hps]|].
  split; [apply toPublic_canonical; exact Hk|].
  destruct k as [[[kp kq kg] ky] kx]. reflexivity.
Qed.

Lemma setters_keep_canonical_witness :
  dsakey.private_canonical toy_key /\
  dsakey.private_canonical (dsakey.setX toy_key [x00; x00; x09]) /\
  dsakey.x (dsakey.setX toy_key [x00; x00; x09]) = [x09] /\
  dsakey.toPublic toy_key = dsakey.pub toy_key.
Proof.
  assert (Hk : dsakey.private_canonical toy_key)
    by (repeat split; reflexivity).
  assert (Hps : dsakey.params_canonical (dsakey.params (dsakey.pub toy_key)))
    by (repeat split; reflexivity).
  pose proof (setters_keep_canonical toy_key
                (dsakey.params (dsakey.pub toy_key)) [x00; x00; x09] Hk Hps)
    as (_ & _ & _ & _ & HX & _ & _ & HT).
  split; [exact Hk|]. split; [exact HX|]. split; [reflexivity|exact HT].
Defined.

(** X10.  The size accessors of a key object: [L()] and [bits()] are
    the bit length of the integer [p] holds and [N()] that of [q];
    [size()] is [ceil(N() / 8)], which for a [q] with no leading zero
    byte is the length of the buffer; none of them changes when zero
    bytes are put in front of a field. *)
Theorem size_accessors (k : dsakey.DSAParams) (zp zq : nat) :
  dsakey.L k = bitLength (BN_of (dsakey.p k)) /\
  dsakey.bits k = dsakey.L k /\
  dsakey.N k = bitLength (BN_of (dsakey.q k)) /\
  dsakey.size k = (dsakey.N k + 7) / 8 /\
  (canonical (dsakey.q k) ->
   dsakey.size k = Z.of_nat (List.length (dsakey.q k))) /\
  let k' := dsakey.mkDSAParams (alloc zp ++ dsakey.p k)
              (alloc zq ++ dsakey.q k) (dsakey.g k) in
  dsakey.L k' = dsakey.L k /\ dsakey.N k' = dsakey.N k /\
  dsakey.size k' = dsakey.size k.
Proof.
  assert (HL : forall k, dsakey.L k = bitLength (BN_of (dsakey.p k)))
    by (intros; apply countLeft_spec).
  assert (HN : forall k, dsakey.N k = bitLength (BN_of (dsakey.q k)))
    by (intros; apply countLeft_spec).
  assert (HS : forall k, dsakey.size k = (dsakey.N k + 7) / 8).
  { intros k0. unfold dsakey.size, dsakey.N.
    rewrite Z.shiftr_div_pow2 by lia. reflexivity. }
  split; [apply HL|]. split; [reflexivity|]. split; [apply HN|].
  split; [apply HS|].
  split.
  - intros Hc. rewrite size_spec. symmetry. apply canonical_length, Hc.
  - cbv zeta. rewrite !HS, !HL, !HN. cbn [dsakey.p dsakey.q].
    rewrite !BN_of_padded. repeat split; reflexivity.
Qed.

(** X11.  JSON round trip: reading the object [toJSON] builds from a
    private key gives that key back, field for field, whatever object
    does the reading; read as a public key or as parameters, the same
    object gives the public part or the parameters of the key. *)
Theorem private_json_roundtrip (k this : dsakey.DSAPrivateKey)
  (this_key : dsakey.DSAKey) (this_params : dsakey.DSAParams) :
  let json := dsakey.json_fields (dsakey.DSAPrivateKey_toJSON k) in
  dsakey.DSAPrivateKey_fromJSON this json = Ok k /\
  dsakey.fromJSON_private json = Ok k /\
  dsakey.DSAKey_fromJSON this_key json = Ok (dsakey.pub k) /\
  dsakey.DSAParams_fromJSON this_params json
  = Ok (dsakey.params (dsakey.pub k)) /\
  dsakey.ext (dsakey.DSAPrivateKey_toJSON k) = true.
Proof.
  cbv zeta.
  unfold dsakey.fromJSON_private, dsakey.DSAPrivateKey_fromJSON,
    dsakey.DSAKey_fromJSON, dsakey.DSAParams_fromJSON,
    dsakey.decodeURL_field, dsakey.DSAPrivateKey_toJSON.
  cbn [dsakey.json_fields dsakey.kty dsakey.json_p dsakey.json_q
       dsakey.json_g dsakey.json_y dsakey.json_x dsakey.ext].
  rewrite !decodeURL_encodeURL.
  destruct k as [[[kp kq kg] ky] kx].
  repeat split; reflexivity.
Qed.

(** ** The native engine: sizes, sanity checks and conversions *)

(** X12.  [bcrypto_count_bits] returns the bit length of the integer
    a byte string holds, big-endian: it is zero exactly for a string
    that is empty or all zero, it does not change when zero bytes are
    put in front, and a string counted [n > 0] bits holds a value in
    [2^(n-1), 2^n). *)
Theorem count_bits_meaning (buf : Buffer) (zeros : nat) :
  let n := bcrypto_count_bits buf in
  n = bitLength (BN_of buf) /\
  (n = 0 <-> BN_of buf = 0) /\
  bcrypto_count_bits (alloc zeros ++ buf) = n /\
  0 <= n <= 8 * Z.of_nat (List.length buf) /\
  (0 < n -> 2 ^ (n - 1) <= BN_of buf < 2 ^ n).
Proof.
  cbv zeta. rewrite !bcrypto_count_bits_spec, BN_of_padded.
  pose proof (BN_of_range buf) as Hr.
  pose proof (bitLength_nonneg (BN_of buf)) as Hn.
  split; [reflexivity|].
  split.
  - split.
    + intros E. destruct (Z.eq_dec (BN_of buf) 0) as [|Hne]; [assumption|].
      pose proof (bitLength_pos (BN_of buf) ltac:(lia)). lia.
    + intros ->. apply bitLength_0.
  - split; [reflexivity|].
    split.
    + split; [exact Hn|].
      apply bitLength_le; [lia|]. rewrite <- pow256 by lia. exact Hr.
    + intros Hpos. apply bitLength_spec.
      destruct (Z.eq_dec (BN_of buf) 0) as [E|]; [|lia].
      rewrite E, bitLength_0 in Hpos. lia.
Qed.

Lemma sane_params_iff (k : native.bcrypto_dsa_key_t) :
  native.bcrypto_dsa_sane_params (Some k) = true <->
  1024 <= bitLength (BN_of (native.pd k)) <= 3072 /\
  (bitLength (BN_of (native.qd k)) = 160 \/
   bitLength (BN_of (native.qd k)) = 224 \/
   bitLength (BN_of (native.qd k)) = 256) /\
  0 < BN_of (native.gd k) /\
  bitLength (BN_of (native.gd k)) <= bitLength (BN_of (native.pd k)).
Proof.
  unfold native.bcrypto_dsa_sane_params. cbv zeta.
  rewrite !bcrypto_count_bits_spec.
  pose proof (BN_of_nonneg (native.gd k)) as Hg.
  assert (Hg0 : bitLength (BN_of (native.gd k)) = 0 <-> BN_of (native.gd k) = 0).
  { split; [|intros ->; apply bitLength_0].
    intros E. destruct (Z.eq_dec (BN_of (native.gd k)) 0); [assumption|].
    pose proof (bitLength_pos (BN_of (native.gd k)) ltac:(lia)). lia. }
  destruct (Z.ltb_spec (bitLength (BN_of (native.pd k))) 1024);
    cbn [orb]; [split; [discriminate|lia]|].
  destruct (Z.gtb_spec (bitLength (BN_of (native.pd k))) 3072);
    [split; [discriminate|lia]|].
  destruct (Z.eqb_spec (bitLength (BN_of (native.qd k))) 160),
           (Z.eqb_spec (bitLength (BN_of (native.qd k))) 224),
           (Z.eqb_spec (bitLength (BN_of (native.qd k))) 256);
    cbn [negb andb]; try (split; [discriminate|lia]);
    (destruct (Z.eqb_spec (bitLength (BN_of (native.gd k))) 0);
     cbn [orb]; [split; [discriminate|lia]|];
     destruct (Z.gtb_spec (bitLength (BN_of (native.gd k)))
                 (bitLength (BN_of (native.pd k))));
     [split; [discriminate|lia]|];
     split; [intros _; lia|reflexivity]).
Qed.

Lemma bitLength_zero_iff (n : Z) : 0 <= n -> (bitLength n = 0 <-> n = 0).
Proof.
  intros Hn. split; [|intros ->; apply bitLength_0].
  intros E. destruct (Z.eq_dec n 0); [assumption|].
  pose proof (bitLength_pos n ltac:(lia)). lia.
Qed.

Lemma sane_pubkey_iff (k : native.bcrypto_dsa_key_t) :
  native.bcrypto_dsa_sane_pubkey (Some k) = true <->
  native.bcrypto_dsa_sane_params (Some k) = true /\
  0 < BN_of (native.yd k) /\
  bitLength (BN_of (native.yd k)) <= bitLength (BN_of (native.pd k)).
Proof.
  unfold native.bcrypto_dsa_sane_pubkey.
  destruct (native.bcrypto_dsa_sane_params (Some k)); cbn [negb];
    [|split; [discriminate|intros [? _]; discriminate]].
  cbv zeta. rewrite !bcrypto_count_bits_spec.
  pose proof (BN_of_nonneg (native.yd k)) as Hy.
  pose proof (bitLength_zero_iff _ Hy) as Hy0.
  destruct (Z.eqb_spec (bitLength (BN_of (native.yd k))) 0);
    cbn [orb]; [split; [discriminate|lia]|].
  destruct (Z.gtb_spec (bitLength (BN_of (native.yd k)))
              (bitLength (BN_of (native.pd k))));
    [split; [discriminate|lia]|].
  split; [intros _; split; [reflexivity|lia]|reflexivity].
Qed.

Lemma sane_privkey_iff (k : native.bcrypto_dsa_key_t) :
  native.bcrypto_dsa_sane_privkey (Some k) = true <->
  native.bcrypto_dsa_sane_pubkey (Some k) = true /\
  0 < BN_of (native.xd k) /\
  bitLength (BN_of (native.xd k)) <= bitLength (BN_of (native.qd k)).
Proof.
  unfold native.bcrypto_dsa_sane_privkey.
  destruct (native.bcrypto_dsa_sane_pubkey (Some k)); cbn [negb];
    [|split; [discriminate|intros [? _]; discriminate]].
  cbv zeta. rewrite !bcrypto_count_bits_spec.
  pose proof (BN_of_nonneg (native.xd k)) as Hx.
  pose proof (bitLength_zero_iff _ Hx) as Hx0.
  destruct (Z.eqb_spec (bitLength (BN_of (native.xd k))) 0);
    cbn [orb]; [split; [discriminate|lia]|].
  destruct (Z.gtb_spec (bitLength (BN_of (native.xd k)))
              (bitLength (BN_of (native.qd k))));
    [split; [discriminate|lia]|].
  split; [intros _; split; [reflexivity|lia]|reflexivity].
Qed.

Lemma sane_compute_iff (k : native.bcrypto_dsa_key_t) :
  native.bcrypto_dsa_sane_compute (Some k) = true <->
  native.bcrypto_dsa_sane_params (Some k) = true /\
  bitLength (BN_of (native.yd k)) <= bitLength (BN_of (native.pd k)) /\
  0 < BN_of (native.xd k) /\
  bitLength (BN_of (native.xd k)) <= bitLength (BN_of (native.qd k)).
Proof.
  unfold native.bcrypto_dsa_sane_compute, native.bcrypto_dsa_sane_params.
  cbv zeta. rewrite !bcrypto_count_bits_spec.
  pose proof (BN_of_nonneg (native.xd k)) as Hx.
  pose proof (bitLength_zero_iff _ Hx) as Hx0.
  destruct ((bitLength (BN_of (native.pd k)) <? 1024)
            || (bitLength (BN_of (native.pd k)) >? 3072));
    [split; [discriminate|intros [? _]; discriminate]|].
  destruct (negb (bitLength (BN_of (native.qd k)) =? 160)
            && negb (bitLength (BN_of (native.qd k)) =? 224)
            && negb (bitLength (BN_of (native.qd k)) =? 256));
    [split; [discriminate|intros [? _]; discriminate]|].
  destruct ((bitLength (BN_of (native.gd k)) =? 0)
            || (bitLength (BN_of (native.gd k))
                >? bitLength (BN_of (native.pd k))));
    [split; [discriminate|intros [? _]; discriminate]|].
  destruct (Z.gtb_spec (bitLength (BN_of (native.yd k)))
              (bitLength (BN_of (native.pd k))));
    [split; [discriminate|lia]|].
  destruct (Z.eqb_spec (bitLength (BN_of (native.xd k))) 0);
    cbn [orb]; [split; [discriminate|lia]|].
  destruct (Z.gtb_spec (bitLength (BN_of (native.xd k)))
              (bitLength (BN_of (native.qd k))));
    [split; [discriminate|lia]|].
  split; [intros _; repeat split; lia|reflexivity].
Qed.

Lemma needs_compute_iff (k : native.bcrypto_dsa_key_t) :
  native.bcrypto_dsa_needs_compute (Some k) = true <->
  BN_of (native.yd k) = 0.
Proof.
  unfold native.bcrypto_dsa_needs_compute.
  rewrite bcrypto_count_bits_spec, Z.eqb_eq.
  apply bitLength_zero_iff, BN_of_nonneg.
Qed.

(** X13.  The sanity checks of the native engine, in terms of the
    integers a key holds.  Parameters are sane when [p] has 1024 to
    3072 bits, [q] has 160, 224 or 256 bits, and [g] is non-zero and
    no longer than [p]; a public key adds the same condition on [y]
    against [p], a private key the same on [x] against [q].  The
    check made before computing [y] is the one for private keys
    without the demand that [y] be non-zero.  A null key passes
    none. *)
Theorem sanity_checks (k : native.bcrypto_dsa_key_t) :
  let P := BN_of (native.pd k) in
  let Q := BN_of (native.qd k) in
  let G := BN_of (native.gd k) in
  let Y := BN_of (native.yd k) in
  let X := BN_of (native.xd k) in
  (native.bcrypto_dsa_sane_params (Some k) = true <->
   1024 <= bitLength P <= 3072 /\
   (bitLength Q = 160 \/ bitLength Q = 224 \/ bitLength Q = 256) /\
   0 < G /\ bitLength G <= bitLength P) /\
  (native.bcrypto_dsa_sane_pubkey (Some k) = true <->
   native.bcrypto_dsa_sane_params (Some k) = true /\
   0 < Y /\ bitLength Y <= bitLength P) /\
  (native.bcrypto_dsa_sane_privkey (Some k) = true <->
   native.bcrypto_dsa_sane_pubkey (Some k) = true /\
   0 < X /\ bitLength X <= bitLength Q) /\
  (native.bcrypto_dsa_sane_privkey (Some k) = true <->
   native.bcrypto_dsa_sane_compute (Some k) = true /\
   native.bcrypto_dsa_needs_compute (Some k) = false) /\
  (native.bcrypto_dsa_sane_params None = false /\
   native.bcrypto_dsa_sane_pubkey None = false /\
   native.bcrypto_dsa_sane_privkey None = false /\
   native.bcrypto_dsa_sane_compute None = false).
Proof.
  cbv zeta.
  split; [apply sane_params_iff|]. split; [apply sane_pubkey_iff|].
  split; [apply sane_privkey_iff|].
  split; [|repeat split; reflexivity].
  rewrite sane_privkey_iff, sane_pubkey_iff, sane_compute_iff.
  pose proof (needs_compute_iff k) as Hn.
  pose proof (BN_of_nonneg (native.yd k)) as Hy.
  destruct (native.bcrypto_dsa_needs_compute (Some k)).
  - assert (BN_of (native.yd k) = 0) by (apply Hn; reflexivity).
    split; [lia|intros [_ ?]; discriminate].
  - assert (BN_of (native.yd k) <> 0)
      by (intros E; apply Hn in E; discriminate).
    split.
    + intros ((Hs & _ & Hyp) & Hx & Hxq). repeat split; try assumption.
    + intros ((Hs & Hyp & Hx & Hxq) & _). repeat split; try assumption. lia.
Qed.

(** ** The native engine: conversions between keys and OpenSSL objects *)

Lemma BN_bn2bin_toBuffer (a : Z) : native.BN_bn2bin a = toBuffer (Z.abs a).
Proof. reflexivity. Qed.

Lemma BN_of_BN_bn2bin (a : Z) : BN_of (native.BN_bn2bin a) = Z.abs a.
Proof. rewrite BN_bn2bin_toBuffer. apply BN_of_toBuffer. lia. Qed.

Lemma BN_bn2bin_BN_of (l : Buffer) : native.BN_bn2bin (BN_of l) = trimLeft l.
Proof.
  rewrite BN_bn2bin_toBuffer, Z.abs_eq by apply BN_of_nonneg.
  apply toBuffer_BN_of.
Qed.

Lemma dsa2key_fields (d : native.DSA) (mode : Z)
  (k : native.bcrypto_dsa_key_t) :
  native.bcrypto_dsa_dsa2key (Some d) mode = Some k ->
  0 <= mode <= 2 /\
  native.pd k = toBuffer (Z.abs (native.dsa_p d)) /\
  native.qd k = toBuffer (Z.abs (native.dsa_q d)) /\
  native.gd k = toBuffer (Z.abs (native.dsa_g d)) /\
  (if mode >? 0
   then exists y, native.dsa_y d = Some y /\
                  native.yd k = toBuffer (Z.abs y)
   else native.yd k = []) /\
  (if mode =? 2
   then exists x, native.dsa_x d = Some x /\
                  native.xd k = toBuffer (Z.abs x)
   else native.xd k = []) /\
  native_canonical k.
Proof.
  unfold native.bcrypto_dsa_dsa2key. cbv zeta.
  destruct (Z.ltb_spec mode 0); cbn [orb]; [discriminate|].
  destruct (Z.gtb_spec mode 2); [discriminate|].
  assert (Hc : forall a, canonical (native.BN_bn2bin a))
    by (intros a; rewrite BN_bn2bin_toBuffer; apply toBuffer_canonical).
  assert (Hm : mode = 0 \/ mode = 1 \/ mode = 2) by lia.
  destruct d as [dp dq dg dy dx].
  cbn [native.dsa_p native.dsa_q native.dsa_g native.dsa_y native.dsa_x].
  destruct Hm as [-> | [-> | ->]];
    cbn [Z.gtb Z.eqb Z.compare Pos.compare Pos.compare_cont andb orb].
  - cbn [native.is_null]. intros [= <-].
    cbn [native.pd native.qd native.gd native.yd native.xd].
    split; [lia|]. repeat (split; [reflexivity|]).
    repeat split; try apply Hc; apply canonical_nil.
  - destruct dy as [y|]; cbn [native.is_null orb andb]; [|discriminate].
    intros [= <-].
    cbn [native.pd native.qd native.gd native.yd native.xd].
    split; [lia|]. repeat (split; [reflexivity|]).
    split; [exists y; split; reflexivity|].
    split; [reflexivity|].
    repeat split; try apply Hc; apply canonical_nil.
  - destruct dy as [y|]; cbn [native.is_null orb andb]; [|discriminate].
    destruct dx as [x|]; cbn [native.is_null orb andb]; [|discriminate].
    intros [= <-].
    cbn [native.pd native.qd native.gd native.yd native.xd].
    split; [lia|]. repeat (split; [reflexivity|]).
    split; [exists y; split; reflexivity|].
    split; [exists x; split; reflexivity|].
    repeat split; apply Hc.
Qed.

(** X14.  The two converters are inverse to each other up to leading
    zeros.  Turning a key into an OpenSSL object and back, in the same
    mode, gives the key with every field the mode covers stripped of
    its leading zero bytes and the other fields empty; and a key that
    comes out of [bcrypto_dsa_dsa2key] is canonical and turns back
    into the magnitudes of the numbers it was made from. *)
Theorem key_conversion_roundtrip (k : native.bcrypto_dsa_key_t) (mode : Z) :
  0 <= mode <= 2 ->
  native.bcrypto_dsa_dsa2key (native.bcrypto_dsa_key2dsa (Some k) mode) mode
  = Some {| native.pd := trimLeft (native.pd k);
            native.qd := trimLeft (native.qd k);
            native.gd := trimLeft (native.gd k);
            native.yd := if mode >? 0 then trimLeft (native.yd k) else [];
            native.xd := if mode =? 2 then trimLeft (native.xd k) else [] |}
  /\
  forall (d : native.DSA) (k' : native.bcrypto_dsa_key_t),
    native.bcrypto_dsa_dsa2key (Some d) mode = Some k' ->
    native_canonical k' /\
    native.bcrypto_dsa_key2dsa (Some k') mode
    = Some {| native.dsa_p := Z.abs (native.dsa_p d);
              native.dsa_q := Z.abs (native.dsa_q d);
              native.dsa_g := Z.abs (native.dsa_g d);
              native.dsa_y := if mode >? 0
                              then option_map Z.abs (native.dsa_y d)
                              else None;
              native.dsa_x := if mode =? 2
                              then option_map Z.abs (native.dsa_x d)
                              else None |}.
Proof.
  intros Hmode.
  assert (Hm : mode = 0 \/ mode = 1 \/ mode = 2) by lia.
  split.
  - destruct Hm as [-> | [-> | ->]];
      unfold native.bcrypto_dsa_dsa2key, native.bcrypto_dsa_key2dsa;
      cbn -[BN_of native.BN_bn2bin trimLeft];
      rewrite !BN_bn2bin_BN_of; reflexivity.
  - intros d k' Hk'. apply dsa2key_fields in Hk'.
    destruct Hk' as (_ & Ep & Eq & Eg & Hy & Hx & Hc).
    split; [exact Hc|].
    unfold native.bcrypto_dsa_key2dsa.
    rewrite Ep, Eq, Eg, !BN_of_toBuffer by lia.
    destruct Hm as [-> | [-> | ->]];
      cbn -[BN_of toBuffer Z.abs] in *.
    + reflexivity.
    + destruct Hy as (y & Ey & Eyd). rewrite Ey, Eyd.
      rewrite BN_of_toBuffer by lia. reflexivity.
    + destruct Hy as (y & Ey & Eyd). destruct Hx as (x & Ex & Exd).
      rewrite Ey, Eyd, Ex, Exd, !BN_of_toBuffer by lia. reflexivity.
Qed.

Lemma key_conversion_roundtrip_witness :
  0 <= 2 <= 2 /\
  native.bcrypto_dsa_dsa2key
    (native.bcrypto_dsa_key2dsa
       (Some {| native.pd := [x00; x01; x07]; native.qd := [x83];
                native.gd := [x00; x04]; native.yd := [xeb];
                native.xd := [x00; x00; x05] |}) 2) 2
  = Some {| native.pd := [x01; x07]; native.qd := [x83];
            native.gd := [x04]; native.yd := [xeb]; native.xd := [x05] |}.
Proof.
  split; [lia|].
  exact (proj1 (key_conversion_roundtrip
                  {| native.pd := [x00; x01; x07]; native.qd := [x83];
                     native.gd := [x00; x04]; native.yd := [xeb];
                     native.xd := [x00; x00; x05] |} 2
                  ltac:(lia))).
Defined.

(** ** The native engine: signing, verifying and checking keys *)

Lemma BN_num_bits_BN_of (l : Buffer) :
  native.BN_num_bits (BN_of l) = bitLength (BN_of l).
Proof.
  unfold native.BN_num_bits. rewrite Z.abs_eq by apply BN_of_nonneg.
  reflexivity.
Qed.

Lemma BN_bn2binpad_value (a size : Z) (buf : Buffer) (ret : Z) :
  native.BN_bn2binpad a size = Some (buf, ret) ->
  0 <= size ->
  BN_of buf = Z.abs a /\ Z.of_nat (List.length buf) = size /\ ret = size.
Proof.
  unfold native.BN_bn2binpad.
  destruct (Z.ltb_spec size (native.BN_num_bytes a)) as [|Hfit];
    [discriminate|].
  intros [= <- <-] Hsize.
  rewrite length_be_bytes, BN_of_be_bytes, Z2Nat.id by lia.
  split; [|split; reflexivity].
  apply Z.mod_small. split; [lia|].
  pose proof (byteLength_upper (Z.abs a) ltac:(lia)) as Hup.
  change (byteLength (Z.abs a)) with (native.BN_num_bytes a) in Hup.
  assert (0 <= native.BN_num_bytes a).
  { unfold native.BN_num_bytes, native.BN_num_bits.
    pose proof (bitLength_nonneg (Z.abs a)).
    apply Z.div_pos; lia. }
  assert (256 ^ native.BN_num_bytes a <= 256 ^ size)
    by (apply Z.pow_le_mono_r; lia).
  lia.
Qed.

(** X15.  What the native [sign] stores, the native [verify] reads
    back as it was: when [bcrypto_dsa_sign] succeeds, [r] and [s] have
    the width [verify] demands, the key passes the checks of
    [verify], and [verify] hands OpenSSL the very numbers OpenSSL's
    signing primitive produced (in magnitude) and answers as OpenSSL's
    verifying primitive does on them. *)
Theorem native_sign_then_verify
  (DSA_do_sign : Buffer -> native.DSA -> option native.DSA_SIG)
  (DSA_do_verify : Buffer -> native.DSA_SIG -> native.DSA -> Z)
  (m : Buffer) (k : native.bcrypto_dsa_key_t)
  (r s : Buffer) (r_len s_len : Z) :
  native.bcrypto_dsa_sign DSA_do_sign (Some m) (Some k)
  = Ok (Some (r, r_len, s, s_len)) ->
  exists (priv_d pub_d : native.DSA) (rn sn : Z),
    native.bcrypto_dsa_key2priv (Some k) = Some priv_d /\
    native.bcrypto_dsa_key2pub (Some k) = Some pub_d /\
    DSA_do_sign m priv_d = Some (rn, sn) /\
    native.bcrypto_dsa_rs2sig r s = Some (Z.abs rn, Z.abs sn) /\
    Z.of_nat (List.length r) = native.bcrypto_dsa_subprime_size (Some k) /\
    Z.of_nat (List.length s) = native.bcrypto_dsa_subprime_size (Some k) /\
    r_len = Z.of_nat (List.length r) /\ s_len = Z.of_nat (List.length s) /\
    native.bcrypto_dsa_verify DSA_do_verify (Some m) (Some r) (Some s)
      (Some k)
    = (0 <? DSA_do_verify m (Z.abs rn, Z.abs sn) pub_d).
Proof.
  unfold native.bcrypto_dsa_sign. cbv zeta.
  destruct ((Z.of_nat (List.length m) <? 1) || (Z.of_nat (List.length m) >? 64))
    eqn:Elen; [discriminate|].
  destruct (native.bcrypto_dsa_sane_privkey (Some k)) eqn:Esane;
    cbn [negb]; [|discriminate].
  unfold native.bcrypto_dsa_key2priv, native.bcrypto_dsa_key2pub,
    native.bcrypto_dsa_key2dsa.
  cbn [Z.ltb Z.gtb Z.eqb Z.compare Pos.compare Pos.compare_cont Pos.eqb orb].
  set (priv_d := native.mk_DSA _ _ _ _ _).
  destruct (DSA_do_sign m priv_d) as [[rn sn]|] eqn:Esign; [|discriminate].
  unfold native.bcrypto_dsa_sig2rs. cbv zeta.
  cbn [native.dsa_q priv_d].
  rewrite BN_num_bits_BN_of.
  set (size := (bitLength (BN_of (native.qd k)) + 7) / 8).
  assert (Hsize : 0 <= size).
  { pose proof (bitLength_nonneg (BN_of (native.qd k))).
    apply Z.div_pos; lia. }
  destruct (native.BN_num_bytes rn <=? size); cbn [assert bind];
    [|discriminate].
  destruct (native.BN_num_bytes sn <=? size); cbn [assert bind];
    [|discriminate].
  destruct (native.BN_bn2binpad rn size) as [[r_buf ret_r]|] eqn:Er;
    [|discriminate].
  destruct (ret_r >? 0); cbn [assert bind]; [|discriminate].
  destruct (native.BN_bn2binpad sn size) as [[s_buf ret_s]|] eqn:Es;
    [|discriminate].
  destruct (ret_s >? 0); cbn [assert bind]; [|discriminate].
  intros [= <- <- <- <-].
  destruct (BN_bn2binpad_value _ _ _ _ Er Hsize) as (Hrv & Hrl & _).
  destruct (BN_bn2binpad_value _ _ _ _ Es Hsize) as (Hsv & Hsl & _).
  apply sane_privkey_iff in Esane. destruct Esane as (Hpub & _).
  assert (Hq : native.bcrypto_dsa_subprime_size (Some k) = size).
  { unfold native.bcrypto_dsa_subprime_size.
    rewrite bcrypto_count_bits_spec. reflexivity. }
  exists priv_d,
    {| native.dsa_p := BN_of (native.pd k);
       native.dsa_q := BN_of (native.qd k);
       native.dsa_g := BN_of (native.gd k);
       native.dsa_y := Some (BN_of (native.yd k));
       native.dsa_x := None |}, rn, sn.
  split; [reflexivity|]. split; [reflexivity|]. split; [exact Esign|].
  split; [unfold native.bcrypto_dsa_rs2sig; rewrite Hrv, Hsv; reflexivity|].
  rewrite Hq.
  split; [exact Hrl|]. split; [exact Hsl|].
  split; [symmetry; exact Hrl|]. split; [symmetry; exact Hsl|].
  unfold native.bcrypto_dsa_verify. cbv zeta.
  rewrite Elen, Hq, Hrl, Hsl, Z.eqb_refl, Hpub. cbn [negb].
  unfold native.bcrypto_dsa_key2pub, native.bcrypto_dsa_key2dsa,
    native.bcrypto_dsa_rs2sig.
  cbn [Z.ltb Z.gtb Z.eqb Z.compare Pos.compare Pos.compare_cont Pos.eqb orb].
  rewrite Hrv, Hsv.
  destruct (Z.leb_spec (DSA_do_verify m (Z.abs rn, Z.abs sn)
              {| native.dsa_p := BN_of (native.pd k);
                 native.dsa_q := BN_of (native.qd k);
                 native.dsa_g := BN_of (native.gd k);
                 native.dsa_y := Some (BN_of (native.yd k));
                 native.dsa_x := None |}) 0) as [Hle|Hgt];
    symmetry; [apply Z.ltb_ge|apply Z.ltb_lt]; assumption.
Qed.

Lemma native_sign_then_verify_witness :
  native.bcrypto_dsa_sign fixed_DSA_do_sign (Some [x42])
    (Some sane_native_key)
  = Ok (Some (repeat x00 19 ++ [x05], 20, repeat x00 19 ++ [x07], 20)) /\
  native.bcrypto_dsa_verify accepting_DSA_do_verify (Some [x42])
    (Some (repeat x00 19 ++ [x05])) (Some (repeat x00 19 ++ [x07]))
    (Some sane_native_key) = true.
Proof.
  assert (Hs : native.bcrypto_dsa_sign fixed_DSA_do_sign (Some [x42])
                 (Some sane_native_key)
               = Ok (Some (repeat x00 19 ++ [x05], 20,
                           repeat x00 19 ++ [x07], 20)))
    by (vm_compute; reflexivity).
  split; [exact Hs|].
  destruct (native_sign_then_verify fixed_DSA_do_sign accepting_DSA_do_verify
              _ _ _ _ _ _ Hs)
    as (priv_d & pub_d & rn & sn & _ & Hp & _ & _ & _ & _ & _ & _ & Hv).
  refine (eq_trans Hv _). reflexivity.
Defined.

(** X16.  The native [verify] accepts only under all its guards: a
    message of 1 to 64 bytes, a key that passes the public-key sanity
    check, [r] and [s] of exactly the subprime size (which for such a
    key is 20, 28 or 32 bytes), and a positive answer from OpenSSL on
    the numbers [r] and [s] hold.  In particular a signature whose
    [r] or [s] lacks its zero padding is refused. *)
Theorem native_verify_guards
  (DSA_do_verify : Buffer -> native.DSA_SIG -> native.DSA -> Z)
  (msg r s : option Buffer) (pub : option native.bcrypto_dsa_key_t) :
  native.bcrypto_dsa_verify DSA_do_verify msg r s pub = true <->
  exists (m rb sb : Buffer) (k : native.bcrypto_dsa_key_t)
         (pub_d : native.DSA) (size : Z),
    msg = Some m /\ r = Some rb /\ s = Some sb /\ pub = Some k /\
    1 <= Z.of_nat (List.length m) <= 64 /\
    native.bcrypto_dsa_sane_pubkey (Some k) = true /\
    native.bcrypto_dsa_key2pub (Some k) = Some pub_d /\
    size = byteLength (BN_of (native.qd k)) /\
    (size = 20 \/ size = 28 \/ size = 32) /\
    Z.of_nat (List.length rb) = size /\
    Z.of_nat (List.length sb) = size /\
    0 < DSA_do_verify m (BN_of rb, BN_of sb) pub_d.
Proof.
  unfold native.bcrypto_dsa_verify. cbv zeta. split.
  - destruct msg as [m|]; [|discriminate].
    destruct (Z.ltb_spec (Z.of_nat (List.length m)) 1); cbn [orb];
      [discriminate|].
    destruct (Z.gtb_spec (Z.of_nat (List.length m)) 64); [discriminate|].
    destruct r as [rb|]; [|discriminate].
    destruct (Z.eqb_spec (Z.of_nat (List.length rb))
                (native.bcrypto_dsa_subprime_size pub)) as [Hr|];
      cbn [negb]; [|discriminate].
    destruct s as [sb|]; [|discriminate].
    destruct (Z.eqb_spec (Z.of_nat (List.length sb))
                (native.bcrypto_dsa_subprime_size pub)) as [Hs|];
      cbn [negb]; [|discriminate].
    destruct (native.bcrypto_dsa_sane_pubkey pub) eqn:Esane; cbn [negb];
      [|discriminate].
    destruct pub as [k|]; [|discriminate].
    destruct (native.bcrypto_dsa_key2pub (Some k)) as [pub_d|] eqn:Epub;
      [|discriminate].
    unfold native.bcrypto_dsa_rs2sig.
    destruct (Z.leb_spec (DSA_do_verify m (BN_of rb, BN_of sb) pub_d) 0);
      [discriminate|].
    intros _.
    exists m, rb, sb, k, pub_d, (byteLength (BN_of (native.qd k))).
    assert (Hq : native.bcrypto_dsa_subprime_size (Some k)
                 = byteLength (BN_of (native.qd k))).
    { unfold native.bcrypto_dsa_subprime_size.
      rewrite bcrypto_count_bits_spec. reflexivity. }
    rewrite Hq in Hr, Hs.
    repeat (split; [first [reflexivity | assumption | lia]|]).
    split.
    + apply sane_pubkey_iff in Esane. destruct Esane as (Hp & _).
      apply sane_params_iff in Hp. destruct Hp as (_ & Hqb & _).
      unfold byteLength.
      destruct Hqb as [-> | [-> | ->]];
        [left | right; left | right; right]; reflexivity.
    + split; [exact Hr|]. split; [exact Hs|assumption].
  - intros (m & rb & sb & k & pub_d & size & -> & -> & -> & -> & Hm & Hsane
            & Hpub & Hsize & _ & Hr & Hs & Hv).
    assert (Hq : native.bcrypto_dsa_subprime_size (Some k) = size).
    { unfold native.bcrypto_dsa_subprime_size.
      rewrite bcrypto_count_bits_spec. symmetry. exact Hsize. }
    destruct (Z.ltb_spec (Z.of_nat (List.length m)) 1); [lia|].
    destruct (Z.gtb_spec (Z.of_nat (List.length m)) 64); [lia|].
    cbn [orb]. rewrite Hq, Hr, Hs, Z.eqb_refl, Hsane, Hpub. cbn [negb].
    unfold native.bcrypto_dsa_rs2sig.
    destruct (Z.leb_spec (DSA_do_verify m (BN_of rb, BN_of sb) pub_d) 0);
      [lia|reflexivity].
Qed.

(** ** The native engine: checking and completing keys *)

Lemma big_BN_mod_exp_spec (c : bool) (a e m r : Z) :
  big_BN_mod_exp c a e m = Some r -> r = a ^ e mod m.
Proof.
  unfold big_BN_mod_exp.
  destruct (Z.leb_spec m 0); cbn [orb]; [discriminate|].
  destruct (Z.ltb_spec a 0); [discriminate|].
  destruct e as [|e|e]; [| |discriminate].
  - intros [= <-]. reflexivity.
  - intros [= <-]. rewrite <- Zpow_mod_big by lia.
    apply Zpow_mod_correct. lia.
Qed.

Lemma sane_params_bounds (k : native.bcrypto_dsa_key_t) :
  native.bcrypto_dsa_sane_params (Some k) = true ->
  2 ^ 1023 <= BN_of (native.pd k) /\ 2 ^ 159 <= BN_of (native.qd k) /\
  0 < BN_of (native.gd k).
Proof.
  intros H. apply sane_params_iff in H.
  destruct H as (Hp & Hq & Hg & _).
  assert (Hp0 : 0 < BN_of (native.pd k)).
  { pose proof (BN_of_nonneg (native.pd k)).
    destruct (Z.eq_dec (BN_of (native.pd k)) 0) as [E|]; [|lia].
    rewrite E, bitLength_0 in Hp. lia. }
  assert (Hq0 : 0 < BN_of (native.qd k)).
  { pose proof (BN_of_nonneg (native.qd k)).
    destruct (Z.eq_dec (BN_of (native.qd k)) 0) as [E|]; [|lia].
    rewrite E, bitLength_0 in Hq. lia. }
  pose proof (bitLength_spec _ Hp0) as [Hpl _].
  pose proof (bitLength_spec _ Hq0) as [Hql _].
  assert (2 ^ 1023 <= 2 ^ (bitLength (BN_of (native.pd k)) - 1))
    by (apply Z.pow_le_mono_r; lia).
  assert (2 ^ 159 <= 2 ^ (bitLength (BN_of (native.qd k)) - 1))
    by (apply Z.pow_le_mono_r; lia).
  repeat split; lia.
Qed.

Section NativeChecks.

Variable BN_mod_exp : bool -> Z -> Z -> Z -> option Z.

Hypothesis BN_mod_exp_spec :
  forall (c : bool) (a e m r : Z),
    BN_mod_exp c a e m = Some r -> r = a ^ e mod m.

Lemma params_verify_inv (k : native.bcrypto_dsa_key_t) :
  native.bcrypto_dsa_params_verify BN_mod_exp (Some k) = true ->
  let P := BN_of (native.pd k) in
  let Q := BN_of (native.qd k) in
  let G := BN_of (native.gd k) in
  native.bcrypto_dsa_sane_params (Some k) = true /\
  (Q | P - 1) /\
  G ^ ((P - 1) / Q) mod P <> 1.
Proof.
  unfold native.bcrypto_dsa_params_verify. cbv zeta.
  destruct (native.bcrypto_dsa_sane_params (Some k)) eqn:Esane;
    cbn [negb]; [|discriminate].
  pose proof (sane_params_bounds k Esane) as (HP & HQ & HG).
  assert (0 < 2 ^ 1023) by (apply Z.pow_pos_nonneg; lia).
  assert (0 < 2 ^ 159) by (apply Z.pow_pos_nonneg; lia).
  unfold native.bcrypto_dsa_key2params, native.bcrypto_dsa_key2dsa.
  cbn [Z.ltb Z.gtb Z.eqb Z.compare Pos.compare Pos.compare_cont Pos.eqb orb
       native.dsa_p native.dsa_q native.dsa_g].
  destruct (Z.eqb_spec (BN_of (native.qd k)) 0); [discriminate|].
  rewrite Z.rem_mod_nonneg, Z.quot_div_nonneg by lia.
  destruct (Z.eqb_spec ((BN_of (native.pd k) - 1) mod BN_of (native.qd k)) 0)
    as [Hmod|]; cbn [negb]; [|discriminate].
  destruct (BN_mod_exp false (BN_of (native.gd k))
              ((BN_of (native.pd k) - 1) / BN_of (native.qd k))
              (BN_of (native.pd k))) as [x|] eqn:Ex; [|discriminate].
  apply BN_mod_exp_spec in Ex.
  destruct (Z.eqb_spec x 1); [discriminate|].
  intros _. split; [reflexivity|].
  split; [apply Z.mod_divide; [lia|exact Hmod]|].
  rewrite <- Ex. assumption.
Qed.

End NativeChecks.

(** X17.  With a [BN_mod_exp] that returns the modular power whenever
    it succeeds, [bcrypto_dsa_params_verify] accepts only parameters
    that pass the sanity check, whose [q] divides [p - 1], and whose
    [g] raised to [(p - 1)/q] is not one modulo [p], so that [g] is
    not congruent to one; [bcrypto_dsa_pubkey_verify] accepts only
    keys that pass that check and the public-key sanity check. *)
Theorem native_params_verify
  (BN_mod_exp : bool -> Z -> Z -> Z -> option Z)
  (k : native.bcrypto_dsa_key_t) :
  (forall (c : bool) (a e m r : Z),
     BN_mod_exp c a e m = Some r -> r = a ^ e mod m) ->
  let P := BN_of (native.pd k) in
  let Q := BN_of (native.qd k) in
  let G := BN_of (native.gd k) in
  (native.bcrypto_dsa_params_verify BN_mod_exp (Some k) = true ->
   native.bcrypto_dsa_sane_params (Some k) = true /\
   (Q | P - 1) /\
   G ^ ((P - 1) / Q) mod P <> 1 /\
   G mod P <> 1) /\
  (native.bcrypto_dsa_pubkey_verify BN_mod_exp (Some k) = true <->
   native.bcrypto_dsa_params_verify BN_mod_exp (Some k) = true /\
   native.bcrypto_dsa_sane_pubkey (Some k) = true) /\
  native.bcrypto_dsa_params_verify BN_mod_exp None = false.
Proof.
  intros Hspec. cbv zeta. split; [|split; [|reflexivity]].
  - intros Hv.
    destruct (params_verify_inv BN_mod_exp Hspec k Hv) as (Hs & Hd & Hx).
    split; [exact Hs|]. split; [exact Hd|]. split; [exact Hx|].
    pose proof (sane_params_bounds k Hs) as (HP & HQ & _).
    assert (0 < 2 ^ 1023) by (apply Z.pow_pos_nonneg; lia).
    assert (0 < 2 ^ 159) by (apply Z.pow_pos_nonneg; lia).
    intros E. apply Hx.
    rewrite <- Z.mod_pow_l, E, Z.pow_1_l.
    + apply Z.mod_1_l. lia.
    + apply Z.div_pos; lia.
  - unfold native.bcrypto_dsa_pubkey_verify.
    destruct (native.bcrypto_dsa_params_verify BN_mod_exp (Some k));
      cbn [negb].
    + split; [intros E; split; [reflexivity|exact E]|intros [_ E]; exact E].
    + split; [discriminate|intros [E _]; discriminate].
Qed.

Lemma base2_params_verify :
  native.bcrypto_dsa_params_verify big_BN_mod_exp
    (Some witness_native_params_base2) = true.
Proof.
  unfold native.bcrypto_dsa_params_verify.
  replace (native.bcrypto_dsa_sane_params (Some witness_native_params_base2))
    with true by (vm_compute; reflexivity).
  cbn [negb]. vm_compute. reflexivity.
Qed.

(** The parameters with the base 2 in place of [g] are accepted, though
    2 does not have order [q]. *)
Lemma native_params_verify_witness :
  native.bcrypto_dsa_params_verify big_BN_mod_exp
    (Some witness_native_params_base2) = true /\
  (BN_of (native.qd witness_native_params_base2)
   | BN_of (native.pd witness_native_params_base2) - 1) /\
  2 ^ witness_Q mod witness_P <> 1.
Proof.
  split; [exact base2_params_verify|].
  split.
  - exact (proj1 (proj2 (proj1 (native_params_verify big_BN_mod_exp
                                  witness_native_params_base2
                                  big_BN_mod_exp_spec)
                           base2_params_verify))).
  - intros E.
    rewrite <- Zpow_mod_correct in E by (vm_compute; discriminate).
    assert (E' : (Zpow_mod 2 witness_Q witness_P =? 1) = true)
      by (apply Z.eqb_eq; exact E).
    revert E'. unfold witness_Q.
    rewrite Zpow_mod_big by (vm_compute; discriminate).
    vm_compute. discriminate.
Defined.

(** X18.  With a [BN_mod_exp] that returns the modular power whenever
    it succeeds, [bcrypto_dsa_privkey_verify] never fails an
    assertion, and it accepts only keys that pass the private-key
    sanity check and the public-key verification and for which
    [y = g^x mod p]; it also refuses every key with [x >= y]. *)
Theorem native_privkey_verify
  (BN_mod_exp : bool -> Z -> Z -> Z -> option Z)
  (key : option native.bcrypto_dsa_key_t) :
  (forall (c : bool) (a e m r : Z),
     BN_mod_exp c a e m = Some r -> r = a ^ e mod m) ->
  (exists b : bool,
     native.bcrypto_dsa_privkey_verify BN_mod_exp key = Ok b) /\
  (native.bcrypto_dsa_privkey_verify BN_mod_exp key = Ok true ->
   exists k : native.bcrypto_dsa_key_t,
     key = Some k /\
     native.bcrypto_dsa_sane_privkey (Some k) = true /\
     native.bcrypto_dsa_pubkey_verify BN_mod_exp (Some k) = true /\
     BN_of (native.xd k) < BN_of (native.yd k) /\
     BN_of (native.yd k)
     = BN_of (native.gd k) ^ BN_of (native.xd k) mod BN_of (native.pd k)).
Proof.
  intros Hspec. unfold native.bcrypto_dsa_privkey_verify.
  destruct (native.bcrypto_dsa_sane_privkey key) eqn:Esane; cbn [negb];
    [|split; [exists false; reflexivity|discriminate]].
  destruct (native.bcrypto_dsa_pubkey_verify BN_mod_exp key) eqn:Epub;
    cbn [negb]; [|split; [exists false; reflexivity|discriminate]].
  destruct key as [k|]; [|discriminate].
  unfold native.bcrypto_dsa_key2priv, native.bcrypto_dsa_key2dsa.
  cbn [Z.ltb Z.gtb Z.eqb Z.compare Pos.compare Pos.compare_cont Pos.eqb orb
       native.dsa_p native.dsa_q native.dsa_g native.dsa_y native.dsa_x].
  pose proof (BN_of_nonneg (native.xd k)) as Hx.
  pose proof (BN_of_nonneg (native.yd k)) as Hy.
  rewrite !(Z.abs_eq (BN_of _)) by apply BN_of_nonneg.
  destruct (Z.geb_spec (BN_of (native.xd k)) (BN_of (native.yd k)))
    as [Hge|Hlt]; [split; [exists false; reflexivity|discriminate]|].
  destruct (BN_mod_exp false (BN_of (native.gd k)) (BN_of (native.xd k))
              (BN_of (native.pd k))) as [y2|] eqn:Ey;
    [|split; [exists false; reflexivity|discriminate]].
  apply Hspec in Ey.
  destruct (Z.eqb_spec (Z.abs y2) (BN_of (native.yd k))) as [E|E];
    cbn [negb]; [|split; [exists false; reflexivity|discriminate]].
  split; [exists true; reflexivity|]. intros _.
  exists k. split; [reflexivity|]. split; [exact Esane|].
  split; [exact Epub|]. split; [exact Hlt|].
  rewrite <- E. subst y2. apply Z.abs_eq.
  apply sane_privkey_iff in Esane. destruct Esane as (Hpk & _).
  apply sane_pubkey_iff in Hpk. destruct Hpk as (Hpar & _).
  pose proof (sane_params_bounds k Hpar) as (HP & _).
  assert (0 < 2 ^ 1023) by (apply Z.pow_pos_nonneg; lia).
  apply Z.mod_pos_bound. lia.
Qed.

Lemma witness_privkey_verify :
  native.bcrypto_dsa_privkey_verify big_BN_mod_exp (Some witness_native_key)
  = Ok true.
Proof. vm_compute. reflexivity. Qed.

Lemma native_privkey_verify_witness :
  native.bcrypto_dsa_privkey_verify big_BN_mod_exp (Some witness_native_key)
    = Ok true /\
  BN_of (native.xd witness_native_key) < BN_of (native.yd witness_native_key)
  /\
  BN_of (native.yd witness_native_key)
  = BN_of (native.gd witness_native_key)
    ^ BN_of (native.xd witness_native_key)
    mod BN_of (native.pd witness_native_key).
Proof.
  split; [exact witness_privkey_verify|].
  destruct (proj2 (native_privkey_verify big_BN_mod_exp
                     (Some witness_native_key) big_BN_mod_exp_spec)
              witness_privkey_verify)
    as (k & [= <-] & _ & _ & Hlt & Hy).
  split; [exact Hlt|exact Hy].
Defined.

(** X19.  [bcrypto_dsa_privkey_compute] and the JavaScript [computeY]
    agree on a key whose [p] is odd.  With a [BN_mod_exp] that returns the modular power
    whenever it succeeds, what the native function stores for a key
    that lacks [y] is [g^x mod p] in its shortest big-endian form,
    with its length, and for an odd [p] it is byte for byte what
    [computeY] returns for the same key; for a key that has [y] it reports success, stores a null
    pointer and leaves the length it was given untouched. *)
Theorem native_privkey_compute {M : Montgomery}
  (BN_mod_exp : bool -> Z -> Z -> Z -> option Z)
  (k : native.bcrypto_dsa_key_t) (out_len0 : Z) :
  (forall (c : bool) (a e m r : Z),
     BN_mod_exp c a e m = Some r -> r = a ^ e mod m) ->
  let key := dsakey.mkDSAPrivateKey
               (dsakey.mkDSAKey
                  (dsakey.mkDSAParams (native.pd k) (native.qd k)
                     (native.gd k))
                  (native.yd k))
               (native.xd k) in
  (forall (out : Buffer) (out_len : Z),
     native.bcrypto_dsa_privkey_compute BN_mod_exp (Some k) out_len0
     = Some (Some out, out_len) ->
     BN_of (native.yd k) = 0 /\
     (Z.odd (BN_of (native.pd k)) = true -> dsa.computeY key = Ok out) /\
     out_len = Z.of_nat (List.length out) /\
     BN_of out
     = BN_of (native.gd k) ^ BN_of (native.xd k) mod BN_of (native.pd k) /\
     canonical out) /\
  (native.bcrypto_dsa_sane_compute (Some k) = true ->
   BN_of (native.yd k) <> 0 ->
   native.bcrypto_dsa_privkey_compute BN_mod_exp (Some k) out_len0
   = Some (None, out_len0)).
Proof.
  intros Hspec. cbv zeta.
  unfold native.bcrypto_dsa_privkey_compute.
  pose proof (needs_compute_iff k) as Hneeds.
  split.
  - intros out out_len.
    destruct (native.bcrypto_dsa_sane_compute (Some k)) eqn:Esane;
      cbn [negb]; [|discriminate].
    destruct (native.bcrypto_dsa_needs_compute (Some k)); cbn [negb];
      [|discriminate].
    cbv zeta.
    destruct (BN_mod_exp true (BN_of (native.gd k)) (BN_of (native.xd k))
                (BN_of (native.pd k))) as [y|] eqn:Ey; [|discriminate].
    apply Hspec in Ey. intros [= <- <-].
    apply sane_compute_iff in Esane. destruct Esane as (Hpar & _).
    pose proof (sane_params_bounds k Hpar) as (HP & _).
    assert (0 < 2 ^ 1023) by (apply Z.pow_pos_nonneg; lia).
    assert (Hy : 0 <= y)
      by (rewrite Ey; apply Z.mod_pos_bound; lia).
    rewrite BN_bn2bin_toBuffer, Z.abs_eq by exact Hy.
    split; [apply Hneeds; reflexivity|].
    split.
    + intros Hodd. unfold dsa.computeY.
      cbn [dsakey.p dsakey.g dsakey.x dsakey.params dsakey.pub].
      rewrite modPow_spec by (lia || exact Hodd).
      rewrite Ey. reflexivity.
    + split.
      * rewrite length_toBuffer. unfold native.BN_num_bytes,
          native.BN_num_bits. rewrite Z.abs_eq by exact Hy.
        rewrite Z2Nat.id by apply byteLength_nonneg. reflexivity.
      * split; [rewrite BN_of_toBuffer by exact Hy; exact Ey|].
        apply toBuffer_canonical.
  - intros -> Hy.
    destruct (native.bcrypto_dsa_needs_compute (Some k)); [|reflexivity].
    exfalso. apply Hy, Hneeds. reflexivity.
Qed.

Lemma witness_privkey_compute :
  native.bcrypto_dsa_privkey_compute big_BN_mod_exp
    (Some witness_native_key_no_y) 7
  = Some (Some (toBuffer witness_Y), 128).
Proof. vm_compute. reflexivity. Qed.

Lemma native_privkey_compute_witness :
  native.bcrypto_dsa_privkey_compute big_BN_mod_exp
    (Some witness_native_key_no_y) 7
    = Some (Some (toBuffer witness_Y), 128) /\
  dsa.computeY (M := zero_on_even)
    (dsakey.mkDSAPrivateKey
       (dsakey.mkDSAKey
          (dsakey.mkDSAParams (native.pd witness_native_key_no_y)
             (native.qd witness_native_key_no_y)
             (native.gd witness_native_key_no_y))
          (native.yd witness_native_key_no_y))
       (native.xd witness_native_key_no_y))
  = Ok (toBuffer witness_Y) /\
  native.bcrypto_dsa_privkey_compute big_BN_mod_exp
    (Some witness_native_key) 7 = Some (None, 7).
Proof.
  split; [exact witness_privkey_compute|].
  split.
  - apply (proj1 (proj2 (proj1 (native_privkey_compute (M := zero_on_even)
                                  big_BN_mod_exp witness_native_key_no_y 7
                                  big_BN_mod_exp_spec)
                           _ _ witness_privkey_compute))).
    vm_compute. reflexivity.
  - apply (native_privkey_compute (M := zero_on_even) big_BN_mod_exp
             witness_native_key 7 big_BN_mod_exp_spec).
    + vm_compute. reflexivity.
    + vm_compute. discriminate.
Defined.

(** X20.  The native generators.  [bcrypto_dsa_params_generate]
    returns null for a bit count outside 1024..3072 and otherwise
    hands back what OpenSSL generated, whatever its size: [p], [q]
    and [g] in their shortest big-endian form and no [y] or [x].
    [bcrypto_dsa_privkey_create] returns null unless the parameters
    pass the sanity check, and otherwise hands back the key OpenSSL
    made from exactly those parameters, all five fields in shortest
    form. *)
Theorem native_generators
  (DSA_generate_parameters_ex : Z -> option native.DSA)
  (DSA_generate_key : native.DSA -> option native.DSA)
  (bits : Z) (params : option native.bcrypto_dsa_key_t) :
  (bits < 1024 \/ 3072 < bits ->
   native.bcrypto_dsa_params_generate DSA_generate_parameters_ex bits
   = None) /\
  (forall k,
     native.bcrypto_dsa_params_generate DSA_generate_parameters_ex bits
     = Some k ->
     1024 <= bits <= 3072 /\
     exists d,
       DSA_generate_parameters_ex bits = Some d /\
       BN_of (native.pd k) = Z.abs (native.dsa_p d) /\
       BN_of (native.qd k) = Z.abs (native.dsa_q d) /\
       BN_of (native.gd k) = Z.abs (native.dsa_g d) /\
       native.yd k = [] /\ native.xd k = [] /\
       native_canonical k) /\
  (native.bcrypto_dsa_sane_params params = false ->
   native.bcrypto_dsa_privkey_create DSA_generate_key params = None) /\
  (forall k,
     native.bcrypto_dsa_privkey_create DSA_generate_key params = Some k ->
     exists ps d y x,
       params = Some ps /\
       native.bcrypto_dsa_sane_params (Some ps) = true /\
       DSA_generate_key
         {| native.dsa_p := BN_of (native.pd ps);
            native.dsa_q := BN_of (native.qd ps);
            native.dsa_g := BN_of (native.gd ps);
            native.dsa_y := None;
            native.dsa_x := None |} = Some d /\
       native.dsa_y d = Some y /\ native.dsa_x d = Some x /\
       BN_of (native.pd k) = Z.abs (native.dsa_p d) /\
       BN_of (native.qd k) = Z.abs (native.dsa_q d) /\
       BN_of (native.gd k) = Z.abs (native.dsa_g d) /\
       BN_of (native.yd k) = Z.abs y /\
       BN_of (native.xd k) = Z.abs x /\
       native_canonical k).
Proof.
  split; [|split; [|split]].
  - intros Hb. unfold native.bcrypto_dsa_params_generate.
    destruct (Z.ltb_spec bits 1024); cbn [orb]; [reflexivity|].
    destruct (Z.gtb_spec bits 3072); [reflexivity|lia].
  - intros k. unfold native.bcrypto_dsa_params_generate.
    destruct (Z.ltb_spec bits 1024); cbn [orb]; [discriminate|].
    destruct (Z.gtb_spec bits 3072); [discriminate|].
    destruct (DSA_generate_parameters_ex bits) as [d|]; [|discriminate].
    unfold native.bcrypto_dsa_params2key. intros Hk.
    apply dsa2key_fields in Hk.
    destruct Hk as (_ & Ep & Eq & Eg & Hy & Hx & Hc).
    cbn in Hy, Hx.
    split; [lia|]. exists d. split; [reflexivity|].
    rewrite Ep, Eq, Eg, !BN_of_toBuffer by lia.
    repeat (split; [first [reflexivity | assumption]|]). exact Hc.
  - intros Hs. unfold native.bcrypto_dsa_privkey_create.
    rewrite Hs. reflexivity.
  - intros k. unfold native.bcrypto_dsa_privkey_create.
    destruct (native.bcrypto_dsa_sane_params params) eqn:Esane;
      cbn [negb]; [|discriminate].
    destruct params as [ps|]; [|discriminate].
    unfold native.bcrypto_dsa_key2params, native.bcrypto_dsa_key2dsa.
    cbn [Z.ltb Z.gtb Z.eqb Z.compare Pos.compare Pos.compare_cont Pos.eqb
         orb].
    destruct (DSA_generate_key _) as [d|] eqn:Ed; [|discriminate].
    unfold native.bcrypto_dsa_priv2key. intros Hk.
    apply dsa2key_fields in Hk.
    destruct Hk as (_ & Ep & Eq & Eg & Hy & Hx & Hc).
    cbn in Hy, Hx.
    destruct Hy as (y & Ey & Eyd). destruct Hx as (x & Ex & Exd).
    exists ps, d, y, x.
    rewrite Ep, Eq, Eg, Eyd, Exd, !BN_of_toBuffer by lia.
    repeat (split; [first [reflexivity | assumption]|]). exact Hc.
Qed.

(** ** The RSA wrappers: key generation and the way through the codec *)

(** X21.  [rsa.generateKey] accepts the bit counts 512, 1024, 2048,
    4096 and 8192 and no other: for any other integer it fails an
    assertion whatever the binding would do, and so does
    [rsa.privateKeyGenerate]; a missing argument stands for 2048.
    For an accepted count the key holds the eight fields in the order
    the binding returned them. *)
Theorem generateKey_sizes
  (encode : rsa.RSAPrivateKey -> Buffer)
  (binding_privateKeyGenerate :
     Z -> Result (Buffer * Buffer * Buffer * Buffer * Buffer * Buffer
                  * Buffer * Buffer))
  (bits : Z) :
  let allowed := bits = 512 \/ bits = 1024 \/ bits = 2048 \/ bits = 4096
                 \/ bits = 8192 in
  (allowed ->
   rsa.generateKey binding_privateKeyGenerate (Some bits)
   = match binding_privateKeyGenerate bits with
     | Ok (n, e, d, p, q, dp, dq, qi) =>
         Ok {| rsa.pub := {| rsa.n := n; rsa.e := e |};
               rsa.d := d; rsa.p := p; rsa.q := q;
               rsa.dp := dp; rsa.dq := dq; rsa.qi := qi |}
     | Throw err => Throw err
     end) /\
  (~ allowed ->
   rsa.generateKey binding_privateKeyGenerate (Some bits)
   = Throw AssertionError /\
   rsa.privateKeyGenerate encode binding_privateKeyGenerate (Some bits)
   = Throw AssertionError) /\
  rsa.generateKey binding_privateKeyGenerate None
  = rsa.generateKey binding_privateKeyGenerate (Some 2048).
Proof.
  cbv zeta. split; [|split; [|reflexivity]].
  - intros Hb. unfold rsa.generateKey. cbv zeta.
    replace (dsa.is_uint32 bits) with true
      by (destruct Hb as [-> | [-> | [-> | [-> | ->]]]]; reflexivity).
    replace ((bits =? 512) || (bits =? 1024) || (bits =? 2048)
             || (bits =? 4096) || (bits =? 8192)) with true
      by (destruct Hb as [-> | [-> | [-> | [-> | ->]]]]; reflexivity).
    cbn [assert bind].
    destruct (binding_privateKeyGenerate bits)
      as [[[[[[[[n e] d] p] q] dp] dq] qi]|err]; reflexivity.
  - intros Hb.
    assert (E : rsa.generateKey binding_privateKeyGenerate (Some bits)
                = Throw AssertionError).
    { unfold rsa.generateKey. cbv zeta.
      destruct (dsa.is_uint32 bits); cbn [assert bind]; [|reflexivity].
      destruct (Z.eqb_spec bits 512); [lia|].
      destruct (Z.eqb_spec bits 1024); [lia|].
      destruct (Z.eqb_spec bits 2048); [lia|].
      destruct (Z.eqb_spec bits 4096); [lia|].
      destruct (Z.eqb_spec bits 8192); [lia|].
      reflexivity. }
    split; [exact E|].
    unfold rsa.privateKeyGenerate. rewrite E. reflexivity.
Qed.

(** X22.  A generated key passes through the codec to the binding
    unchanged.  If [generateKey] returns a key that the private-key
    codec and the public-key codec decode back from what they encode,
    then [privateKeyGenerate] returns its encoding, and on that
    encoding [privateKeyVerify], [publicKeyCreate] followed by
    [publicKeyVerify], and [sign] hand the binding the fields the
    binding generated, each in its place, and return what the binding
    answers. *)
Theorem generated_key_reaches_binding
  (decode_private : Buffer -> Result rsa.RSAPrivateKey)
  (encode_private : rsa.RSAPrivateKey -> Buffer)
  (decode_public : Buffer -> Result rsa.RSAPublicKey)
  (encode_public : rsa.RSAPublicKey -> Buffer)
  (binding_privateKeyGenerate :
     Z -> Result (Buffer * Buffer * Buffer * Buffer * Buffer * Buffer
                  * Buffer * Buffer))
  (binding_privateKeyVerify :
     Buffer -> Buffer -> Buffer -> Buffer -> Buffer -> Buffer -> Buffer ->
     Buffer -> bool)
  (binding_publicKeyVerify : Buffer -> Buffer -> bool)
  (binding_sign :
     string -> Buffer -> Buffer -> Buffer -> Buffer -> Buffer -> Buffer ->
     Buffer -> Buffer -> Buffer -> Result Buffer)
  (bits : option Z) (key : rsa.RSAPrivateKey)
  (hash : rsa.Hash) (msg : Buffer) :
  rsa.generateKey binding_privateKeyGenerate bits = Ok key ->
  decode_private (encode_private key) = Ok key ->
  decode_public (encode_public (rsa.pub key)) = Ok (rsa.pub key) ->
  exists n e d p q dp dq qi : Buffer,
    binding_privateKeyGenerate
      (match bits with None => 2048 | Some b => b end)
    = Ok (n, e, d, p, q, dp, dq, qi) /\
    rsa.privateKeyGenerate encode_private binding_privateKeyGenerate bits
    = Ok (encode_private key) /\
    rsa.privateKeyVerify decode_private binding_privateKeyVerify
      (encode_private key)
    = Ok (binding_privateKeyVerify n e d p q dp dq qi) /\
    rsa.publicKeyCreate decode_private encode_public (encode_private key)
    = Ok (encode_public (rsa.pub key)) /\
    rsa.publicKeyVerify decode_public binding_publicKeyVerify
      (encode_public (rsa.pub key))
    = Ok (binding_publicKeyVerify n e) /\
    rsa.sign decode_private binding_sign hash msg (encode_private key)
    = binding_sign (rsa.id hash) msg n e d p q dp dq qi.
Proof.
  intros Hgen Hpriv Hpub.
  unfold rsa.privateKeyGenerate, rsa.privateKeyVerify, rsa.publicKeyCreate,
    rsa.publicKeyVerify, rsa.sign.
  rewrite Hgen, Hpriv, Hpub. cbn [bind].
  unfold rsa.generateKey in Hgen. cbv zeta in Hgen.
  destruct (dsa.is_uint32 _); cbn [assert bind] in Hgen; [|discriminate].
  destruct (_ || _); cbn [assert bind] in Hgen; [|discriminate].
  destruct (binding_privateKeyGenerate _)
    as [[[[[[[[n e] d] p] q] dp] dq] qi]|err]; cbn [bind] in Hgen;
    [|discriminate].
  injection Hgen as <-.
  exists n, e, d, p, q, dp, dq, qi.
  repeat split; reflexivity.
Qed.

Lemma generated_key_reaches_binding_witness :
  rsa.generateKey toy_binding_privateKeyGenerate (Some 512) = Ok toy_rsa_key
  /\
  rsa.privateKeyVerify toy_rsa_decode_private
    (fun n e d p q dp dq qi =>
       if list_eq_dec Byte.byte_eq_dec (n ++ e ++ d ++ p ++ q ++ dp ++ dq ++ qi)
            [x21; x03; x07; x03; x0b; x01; x07; x04]
       then true else false)
    (toy_rsa_encode_private toy_rsa_key) = Ok true.
Proof.
  split; [reflexivity|].
  destruct (generated_key_reaches_binding
              toy_rsa_decode_private toy_rsa_encode_private
              toy_rsa_decode_public toy_rsa_encode_public
              toy_binding_privateKeyGenerate
              (fun n e d p q dp dq qi =>
                 if list_eq_dec Byte.byte_eq_dec
                      (n ++ e ++ d ++ p ++ q ++ dp ++ dq ++ qi)
                      [x21; x03; x07; x03; x0b; x01; x07; x04]
                 then true else false)
              (fun _ _ => true)
              (fun _ _ _ _ _ _ _ _ _ _ => Ok [])
              (Some 512) toy_rsa_key (rsa.mkHash "SHA256") []
              eq_refl eq_refl eq_refl)
    as (n & e & d & p & q & dp & dq & qi & Hitems & _ & Hv & _).
  injection Hitems as <- <- <- <- <- <- <- <-.
  exact Hv.
Defined.

(** ** Generated keys sign and verify *)

(** A signature made under a key that satisfies the invariants is
    accepted under its public key. *)
Lemma verify_accepts_signed {M : Montgomery} (fuel : nat) (rnd : Rand)
  (pos : nat) (msg : Buffer) (key : dsakey.DSAPrivateKey) (sig : dsasig.DSASignature) :
  key_invariants key ->
  dsa.sign fuel rnd pos msg key = Some (Ok sig) ->
  dsa.verify msg sig (dsa.publicKeyCreate key) = Ok true.
Proof.
  intros (Hpprime & Hprime & Hbits & Hdiv & Hgr & Hg & Hxr & Hy) Hsign.
  destruct (valid_key_moduli _ _ Hpprime Hprime Hbits Hdiv)
    as (Hq3 & Hqodd & Hp3 & Hpodd).
  unfold dsa.sign in Hsign.
  destruct (dsa.sign_run fuel rnd pos msg key) as [[[res tr] pos']|] eqn:Erun;
    [|discriminate].
  cbn in Hsign. injection Hsign as ->.
  apply sign_run_cases in Erun. cbv zeta in Erun.
  destruct Erun as [(Hres & _) | (Hq & Hp & Hgp & Hx & Hn & st & Hloop & _ & _ & Hres)];
    [discriminate|].
  destruct Hres as [(e & _ & Hres) | [(_ & _ & Hres) | (Hnone & Hatt & Hres)]];
    [discriminate|discriminate|].
  apply sign_loop_inv in Hloop; [|exact Hnone].
  destruct Hloop as (_ & _ & _ & Hok).
  destruct (Hok Hatt) as (_ & k & Hk & Hr & Hrn & Hs & Hsn & _).
  rewrite Hr in Hrn. rewrite Hs in Hsn.
  destruct (pass_ranges _ _ _ _ _ _ Hq Hrn Hsn) as [Hrr Hsr].
  symmetry in Hres. apply signature_built in Hres; [|lia|lia].
  destruct Hres as (Hsigr & Hsigs & _).
  rewrite Hr in Hsigr. rewrite Hs in Hsigs.
  unfold dsa.verify, dsa.publicKeyCreate, dsakey.toPublic. cbv zeta.
  cbn [dsakey.p dsakey.q dsakey.g dsakey.y dsakey.params].
  rewrite Hsigr, Hsigs.
  set (rn := pass_r _ _ _ _) in *. set (sn := pass_s _ _ _ _ _ _) in *.
  destruct (Z.eqb_spec (BN_of (dsakey.p key)) 0) as [Hp0|_]; [lia|].
  destruct (Z.eqb_spec rn 0) as [E|_]; [lia|].
  destruct (Z.geb_spec rn (BN_of (dsakey.q key))) as [E|_]; [lia|].
  cbn [orb].
  destruct (Z.eqb_spec sn 0) as [E|_]; [lia|].
  destruct (Z.geb_spec sn (BN_of (dsakey.q key))) as [E|_]; [lia|].
  cbn [orb].
  rewrite Hn. cbn [Z.eqb negb].
  rewrite !modPow_ok by lia. cbn [bind].
  f_equal. apply Z.eqb_eq.
  rewrite Hy. subst rn sn.
  apply dsa_equation; try assumption; try lia.
  apply BN_of_nonneg.
Qed.

(** X23.  Generating, signing and verifying compose: with a primality
    test that accepts only primes, every signature [sign] returns
    under a key made by [privateKeyGenerate], for any message and any
    random bytes, is accepted by [verify] under the public key that
    [publicKeyCreate] extracts from that key. *)
Theorem generated_key_signs_and_verifies {M : Montgomery}
  (probablyPrime : Rand -> nat -> Z -> Z -> bool * nat)
  (fuel fuel' : nat) (rnd rnd' : Rand) (pos pos' : nat) (bits : option Z)
  (key : dsakey.DSAPrivateKey) (msg : Buffer) (sig : dsasig.DSASignature) :
  (forall rnd pos n reps,
     fst (probablyPrime rnd pos n reps) = true -> Z.prime n) ->
  dsa.privateKeyGenerate probablyPrime fuel rnd pos bits = Some (Ok key) ->
  dsa.sign fuel' rnd' pos' msg key = Some (Ok sig) ->
  dsa.verify msg sig (dsa.publicKeyCreate key) = Ok true.
Proof.
  intros Hsound Hkey Hsign.
  pose proof (privateKeyGenerate_inv probablyPrime fuel rnd pos bits key
                Hsound Hkey) as H.
  cbv zeta in H. destruct H as (_ & _ & _ & _ & _ & _ & _ & Hinv & _).
  exact (verify_accepts_signed fuel' rnd' pos' msg key sig Hinv Hsign).
Qed.

Lemma witness_key_signs :
  exists sig,
    dsa.sign (M := zero_on_even) 1 keygen_rand 148 [x42] witness_key
    = Some (Ok sig).
Proof. eexists. vm_compute. reflexivity. Qed.

Lemma generated_key_signs_and_verifies_witness :
  dsa.privateKeyGenerate (M := zero_on_even) certified_probablyPrime 1
    keygen_rand 0 (Some 1024) = Some (Ok witness_key) /\
  exists sig,
    dsa.sign (M := zero_on_even) 1 keygen_rand 148 [x42] witness_key
    = Some (Ok sig) /\
    dsa.verify (M := zero_on_even) [x42] sig (dsa.publicKeyCreate witness_key)
    = Ok true.
Proof.
  split; [exact keygen_privateKeyGenerate|].
  destruct witness_key_signs as [sig Hsig].
  exists sig. split; [exact Hsig|].
  exact (generated_key_signs_and_verifies (M := zero_on_even)
           certified_probablyPrime
           1 1 keygen_rand keygen_rand 0 148 (Some 1024) witness_key
           [x42] sig certified_probablyPrime_sound
           keygen_privateKeyGenerate Hsig).
Defined.

